(** * PalindromeChecker: a shallow embedding of the streaming palindrome
      engine, the renderer and the paragraph scanner, with the properties
      of the specification settled against it.

    Python strings are sequences of Unicode code points: a code point is a
    natural number ([N]) and a [str] is a list of them, so that [len] is
    [length] and iterating a string yields its one-code-point strings.
    Python integers are [Z].  The dictionary used as hash cache is a
    [gmap].  Exceptions are values of an error monad. *)

From Stdlib Require Import ZArith NArith List Bool Lia String Ascii DecimalString.
From stdpp Require Import base option list gmap.
Import ListNotations.

Set Default Proof Using "Type".

(** ** Code points and strings *)

Definition cp : Type := N.
Definition str : Type := list cp.

(** An ASCII literal of the source, as a [str]. *)
Fixpoint lit (s : string) : str :=
  match s with
  | EmptyString => []
  | String a s' => N_of_ascii a :: lit s'
  end.
Arguments lit s%_string.

Definition str_eqb (a b : str) : bool := bool_decide (a = b).

(** [x in xs] for a list of strings [xs]. *)
Definition str_in (x : str) (xs : list str) : bool := existsb (str_eqb x) xs.

(** [str(n)] for an integer. *)
Definition str_of_Z (z : Z) : str := lit (NilZero.string_of_int (Z.to_int z)).

(** ** Exceptions *)

(** A call either returns or raises; [E] is the type of what it can
    raise. *)
Inductive res (E A : Type) : Type :=
| Ok (a : A)
| Raise (e : E).
Arguments Ok {E A} a.
Arguments Raise {E A} e.

Definition bind {E A B} (r : res E A) (k : A -> res E B) : res E B :=
  match r with
  | Ok a => k a
  | Raise e => Raise e
  end.

(** The two exception classes of the module, each carrying its message. *)
Inductive UnallowedCharacterError : Type := Unallowed (msg : str).
Inductive InvalidInputError : Type := InvalidInput (msg : str).

(** What can escape the renderer and the scanner. *)
Inductive exn : Type :=
| ExnInvalidInput (e : InvalidInputError)
| ExnUnallowedCharacter (e : UnallowedCharacterError).

(** A value handed to a parameter that is meant to be a string. *)
Inductive pyobj : Type :=
| PyNone
| PyInt (z : Z)
| PyStr (s : str).

Notation "'let*' x ':=' r 'in' k" := (bind r (fun x => k))
  (at level 10, x pattern, r at level 100, k at level 200).

(** ** The Unicode character database

    The source consults Python's tables through [str.isalpha],
    [str.isspace], [str.isupper], [str.lower], [str.upper],
    [unicodedata.category], [unicodedata.normalize] and the built-in
    [hash].  They are an interface here; the one law recorded is that no
    non-spacing mark is white space. *)

Class Unicode : Type := {
  isalpha : cp -> bool;
  isspace : cp -> bool;
  category_Mn : cp -> bool;          (* unicodedata.category(c) == 'Mn' *)
  isupper : cp -> bool;
  lower : cp -> str;                 (* c.lower(), possibly several code points *)
  upper : cp -> str;                 (* c.upper() *)
  normalize_NFC : str -> str;        (* unicodedata.normalize('NFC', s) *)
  hash : str -> Z;                   (* hash(s), fixed within one process *)
  Mn_not_space : forall c, category_Mn c = true -> isspace c = false
}.

(** *** The part of the tables that is pinned down

    ASCII, the block of combining diacritical marks (U+0300 to U+036F, all
    of category Mn) and the code points of the emoji allow-list (category
    So, the five skin-tone modifiers Sk).  [pinned U] answers from these
    and asks [U] everywhere else; Python's own tables are a fixed point of
    it. *)

Definition is_ascii (c : cp) : bool := (c <? 128)%N.
Definition ascii_upper (c : cp) : bool := (65 <=? c)%N && (c <=? 90)%N.
Definition ascii_lower (c : cp) : bool := (97 <=? c)%N && (c <=? 122)%N.
Definition ascii_space (c : cp) : bool :=
  ((9 <=? c)%N && (c <=? 13)%N) || ((28 <=? c)%N && (c <=? 32)%N).
Definition is_combining_diacritical (c : cp) : bool :=
  (0x300 <=? c)%N && (c <=? 0x36F)%N.
Definition is_tone_modifier (c : cp) : bool :=
  (0x1F3FB <=? c)%N && (c <=? 0x1F3FF)%N.
Definition is_emoji_base (c : cp) : bool :=
  existsb (N.eqb c) [0x1F60A; 0x1F44D; 0x1F680; 0x1F64C; 0x1F44B; 0x1F31F; 0x1F43E]%N.
Definition is_symbol (c : cp) : bool := is_emoji_base c || is_tone_modifier c.
Definition cased (c : cp) : bool := is_ascii c || is_symbol c.

Section Pinned.
Context (U : Unicode).

Definition pinned_isalpha (c : cp) : bool :=
  if is_ascii c then ascii_upper c || ascii_lower c
  else if is_combining_diacritical c || is_symbol c then false
  else isalpha c.

Definition pinned_isspace (c : cp) : bool :=
  if is_ascii c then ascii_space c
  else if is_combining_diacritical c || is_symbol c then false
  else isspace c.

Definition pinned_category_Mn (c : cp) : bool :=
  if is_ascii c then false
  else if is_combining_diacritical c then true
  else if is_symbol c then false
  else category_Mn c.

Definition pinned_isupper (c : cp) : bool :=
  if is_ascii c then ascii_upper c
  else if is_combining_diacritical c || is_symbol c then false
  else isupper c.

Definition pinned_lower (c : cp) : str :=
  if is_ascii c then [if ascii_upper c then (c + 32)%N else c]
  else if is_symbol c then [c]
  else lower c.

Definition pinned_upper (c : cp) : str :=
  if is_ascii c then [if ascii_lower c then (c - 32)%N else c]
  else if is_symbol c then [c]
  else upper c.

Definition pinned_normalize_NFC (s : str) : str :=
  if forallb cased s then s else normalize_NFC s.

Lemma pinned_Mn_not_space c :
  pinned_category_Mn c = true -> pinned_isspace c = false.
Proof.
  unfold pinned_category_Mn, pinned_isspace.
  destruct (is_ascii c); [discriminate|].
  destruct (is_combining_diacritical c); [reflexivity|].
  destruct (is_symbol c); [discriminate|]. apply Mn_not_space.
Qed.

Definition pinned : Unicode := {|
  isalpha := pinned_isalpha;
  isspace := pinned_isspace;
  category_Mn := pinned_category_Mn;
  isupper := pinned_isupper;
  lower := pinned_lower;
  upper := pinned_upper;
  normalize_NFC := pinned_normalize_NFC;
  hash := hash;
  Mn_not_space := pinned_Mn_not_space
|}.
End Pinned.

(** A table that knows nothing beyond the pinned part: every other code
    point is an unlisted symbol.  It instantiates the general theorems. *)
Definition blank : Unicode := {|
  isalpha := fun _ => false;
  isspace := fun _ => false;
  category_Mn := fun _ => false;
  isupper := fun _ => false;
  lower := fun c => [c];
  upper := fun c => [c];
  normalize_NFC := fun s => s;
  hash := fun s => Z.of_N (foldr (fun c h => (c + 1114112 * h)%N) 0%N s);
  Mn_not_space := fun _ _ => eq_refl
|}.

(** ** Classifier and hasher *)

(** The allow-list: seven base emoji, four of them followed by their five
    skin-tone variants, each variant a string of two code points. *)
Definition ALLOWED_EMOJIS : list str :=
  [ [0x1F60A]; [0x1F60A; 0x1F3FB]; [0x1F60A; 0x1F3FC]; [0x1F60A; 0x1F3FD];
    [0x1F60A; 0x1F3FE]; [0x1F60A; 0x1F3FF];
    [0x1F44D]; [0x1F44D; 0x1F3FB]; [0x1F44D; 0x1F3FC]; [0x1F44D; 0x1F3FD];
    [0x1F44D; 0x1F3FE]; [0x1F44D; 0x1F3FF];
    [0x1F680];
    [0x1F64C]; [0x1F64C; 0x1F3FB]; [0x1F64C; 0x1F3FC]; [0x1F64C; 0x1F3FD];
    [0x1F64C; 0x1F3FE]; [0x1F64C; 0x1F3FF];
    [0x1F44B]; [0x1F44B; 0x1F3FB]; [0x1F44B; 0x1F3FC]; [0x1F44B; 0x1F3FD];
    [0x1F44B; 0x1F3FE]; [0x1F44B; 0x1F3FF];
    [0x1F31F];
    [0x1F43E] ]%N.

Definition is_null (s : pyobj) : bool :=
  match s with PyNone => true | _ => false end.

Section Classifier.
Context {U : Unicode}.

(** [s.isspace()]: non-empty and white space throughout. *)
Definition str_isspace (s : str) : bool :=
  negb (length s =? 0) && forallb isspace s.

Definition is_empty (s : str) : bool :=
  (length s =? 0) || str_isspace s.

Definition is_emoticon (char : cp) : cp * bool :=
  if isalpha char || isspace char then (char, false)
  else (char, str_in [char] ALLOWED_EMOJIS).

(** [valid_chars] is [None] or a container of strings; [char in
    valid_chars] is membership of the one-code-point string [char]. *)
Definition clean (char : cp) (valid_chars : option (list str))
  : res UnallowedCharacterError bool :=
  if isspace char || category_Mn char then Ok false
  else match valid_chars with
       | Some vs => Ok (str_in [char] vs)
       | None =>
           if isalpha char then Ok true
           else
             let '(_, is_allowed) := is_emoticon char in
             if negb is_allowed
             then Raise (Unallowed (lit "Unallowed character '" ++ [char] ++ lit "'"))
             else Ok true
       end.

(** [any(clean(c, valid_chars) for c in s)]: stops at the first
    accepted character, and a rejected symbol met before it raises. *)
Fixpoint has_valid_chars (s : str) (valid_chars : option (list str))
  : res UnallowedCharacterError bool :=
  match s with
  | [] => Ok false
  | c :: s' =>
      let* b := clean c valid_chars in
      if b then Ok true else has_valid_chars s' valid_chars
  end.

(** The key of a character when the cache does not answer. *)
Definition compute_hash (c : cp) : Z :=
  let normalized := normalize_NFC (lower c) in
  match normalized with
  | n0 :: _ => if isalpha n0 then Z.of_N n0 else hash normalized
  | [] => hash normalized
  end.

Definition hash_char (c : cp) (cache : option (gmap cp Z))
  : Z * option (gmap cp Z) :=
  match cache with
  | Some m =>
      match m !! c with
      | Some h => (h, Some m)
      | None => let result := compute_hash c in
                (result, Some (<[c := result]> m))
      end
  | None => (compute_hash c, None)
  end.
End Classifier.

(** ** Cursors

    [Left] and [Right] have the same fields.  Their [buffer] is the
    engine's list object itself, so the functions below read the buffer
    the engine passes in instead of keeping a copy. *)

Inductive Direction : Type :=
| Ltr            (* "ltr" *)
| Rtl            (* "rtl" *)
| CenterOut      (* "center-out" *)
| OtherDirection (* any other value *).

(** [direction in ["ltr", "center-out"]] *)
Definition forward (d : Direction) : bool :=
  match d with Ltr | CenterOut => true | _ => false end.

(** [(char, was_capitalized, is_emoji, is_allowed)] *)
Definition char_info : Type := cp * bool * bool * bool.

Module Cursor.
Record t : Type := Build {
  pos : Z;
  direction : Direction;
  valid_chars : option (list str);
  valid : bool;
  chars : list char_info
}.

(** [Left(buffer, pos, direction, valid_chars)], also [Right(...)]. *)
Definition init (p : Z) (d : Direction) (vs : option (list str)) : t :=
  Build p d vs true [].

Definition set_pos (p : Z) (c : t) : t :=
  Build p (direction c) (valid_chars c) (valid c) (chars c).
Definition set_valid (b : bool) (c : t) : t :=
  Build (pos c) (direction c) (valid_chars c) b (chars c).
Definition set_chars (l : list char_info) (c : t) : t :=
  Build (pos c) (direction c) (valid_chars c) (valid c) l.

Definition out_of_range (buffer : list cp) (c : t) : bool :=
  (pos c <? 0)%Z || (pos c >=? Z.of_nat (length buffer))%Z.
End Cursor.

(** What [get_hash] leaves behind: the cursor, the cache, and its result
    ([None] is Python's [None]). *)
Definition hashed : Type :=
  Cursor.t * gmap cp Z * res UnallowedCharacterError (option Z).

(** [hash_char(char, hash_cache)] on the engine's dictionary, which is
    never [None]: the key, and the dictionary afterwards. *)
Definition cached_hash `{U : Unicode} (char : cp) (cache : gmap cp Z)
  : Z * gmap cp Z :=
  let '(h, c) := hash_char char (Some cache) in (h, default cache c).

Module Left.
Section Left.
Context {U : Unicode}.

Definition set_char (self : Cursor.t) (char : cp)
    (was_capitalized is_emoji is_allowed : bool) : Cursor.t :=
  Cursor.set_chars
    (Cursor.chars self ++ [(char, was_capitalized, is_emoji, is_allowed)]) self.

Definition get_chars (self : Cursor.t) : list char_info := Cursor.chars self.

Definition get_hash (buffer : list cp) (self : Cursor.t) (hash_cache : gmap cp Z)
  : hashed :=
  if negb (Cursor.valid self) || Cursor.out_of_range buffer self
  then (Cursor.set_valid false self, hash_cache, Ok None)
  else
    let char := nth (Z.to_nat (Cursor.pos self)) buffer 0%N in
    match clean char (Cursor.valid_chars self) with
    | Raise e => (self, hash_cache, Raise e)
    | Ok false => (Cursor.set_valid false self, hash_cache, Ok None)
    | Ok true =>
        if isalpha char then
          let self := set_char self char (isupper char) false true in
          let '(h, cache) := cached_hash char hash_cache in
          (self, cache, Ok (Some h))
        else
          let '(_, is_allowed) := is_emoticon char in
          if negb is_allowed
          then (Cursor.set_valid false self, hash_cache, Ok None)
          else
            let self := set_char self char false is_allowed is_allowed in
            let '(h, cache) := cached_hash char hash_cache in
            (self, cache, Ok (Some h))
    end.

Definition advance (buffer : list cp) (self : Cursor.t) : Cursor.t :=
  let self :=
    Cursor.set_pos
      (Cursor.pos self + (if forward (Cursor.direction self) then 1 else -1))%Z
      self in
  if Cursor.out_of_range buffer self then Cursor.set_valid false self else self.
End Left.
End Left.

Module Right.
Section Right.
Context {U : Unicode}.

Definition get_hash (buffer : list cp) (self : Cursor.t) (hash_cache : gmap cp Z)
  : hashed :=
  if negb (Cursor.valid self) || Cursor.out_of_range buffer self
  then (Cursor.set_valid false self, hash_cache, Ok None)
  else
    let char := nth (Z.to_nat (Cursor.pos self)) buffer 0%N in
    match clean char (Cursor.valid_chars self) with
    | Raise e => (self, hash_cache, Raise e)
    | Ok false => (Cursor.set_valid false self, hash_cache, Ok None)
    | Ok true =>
        if negb (isalpha char) && negb (snd (is_emoticon char))
        then (Cursor.set_valid false self, hash_cache, Ok None)
        else
          let '(h, cache) := cached_hash char hash_cache in
          (self, cache, Ok (Some h))
    end.

(** [self.pos -= 1 if self.direction in ["ltr", "center-out"] else 1]:
    the conditional is the whole right-hand side, and both of its arms
    are [1]. *)
Definition advance (buffer : list cp) (self : Cursor.t) : Cursor.t :=
  let self :=
    Cursor.set_pos
      (Cursor.pos self - (if forward (Cursor.direction self) then 1 else 1))%Z
      self in
  if Cursor.out_of_range buffer self then Cursor.set_valid false self else self.
End Right.
End Right.

(** ** The stream engine *)

(** [(result, error_msg, chars)] as returned by [process_char]. *)
Definition verdict : Type := bool * option str * list char_info.

(** How the [while] loop of [process_char] is left. *)
Inductive walk : Type :=
| Crossed (left right : Cursor.t) (cache : gmap cp Z)
    (* the loop condition became false *)
| Mismatch (left right : Cursor.t) (cache : gmap cp Z)
    (* the [return] inside the loop *)
| Failed (e : UnallowedCharacterError) (left right : Cursor.t) (cache : gmap cp Z)
    (* [clean] raised inside [get_hash] *).

Module StreamProcessor.
Record t : Type := Build {
  buffer : list cp;
  direction : Direction;
  valid_chars : option (list str);
  left : option Cursor.t;
  right : option Cursor.t;
  center : Z;
  valid : bool;
  error_msg : option str;
  stopped : bool;
  skipped_diacritics : Z;
  skipped_spaces : Z;
  hash_cache : gmap cp Z
}.

(** [StreamProcessor(direction, valid_chars)] *)
Definition init (d : Direction) (vs : option (list str)) : t :=
  Build [] d vs None None (-1) true None false 0 0 empty.

Definition reset (self : t) : t :=
  Build [] (direction self) (valid_chars self) None None (-1)
        true None false 0 0 empty.

Definition set_buffer (b : list cp) (s : t) : t :=
  Build b (direction s) (valid_chars s) (left s) (right s) (center s)
        (valid s) (error_msg s) (stopped s) (skipped_diacritics s)
        (skipped_spaces s) (hash_cache s).
Definition set_cursors (l r : Cursor.t) (c : gmap cp Z) (s : t) : t :=
  Build (buffer s) (direction s) (valid_chars s) (Some l) (Some r) (center s)
        (valid s) (error_msg s) (stopped s) (skipped_diacritics s)
        (skipped_spaces s) c.
Definition set_center (z : Z) (s : t) : t :=
  Build (buffer s) (direction s) (valid_chars s) (left s) (right s) z
        (valid s) (error_msg s) (stopped s) (skipped_diacritics s)
        (skipped_spaces s) (hash_cache s).
Definition set_valid (b : bool) (s : t) : t :=
  Build (buffer s) (direction s) (valid_chars s) (left s) (right s) (center s)
        b (error_msg s) (stopped s) (skipped_diacritics s)
        (skipped_spaces s) (hash_cache s).
Definition set_error_msg (m : option str) (s : t) : t :=
  Build (buffer s) (direction s) (valid_chars s) (left s) (right s) (center s)
        (valid s) m (stopped s) (skipped_diacritics s)
        (skipped_spaces s) (hash_cache s).
Definition set_stopped (b : bool) (s : t) : t :=
  Build (buffer s) (direction s) (valid_chars s) (left s) (right s) (center s)
        (valid s) (error_msg s) b (skipped_diacritics s)
        (skipped_spaces s) (hash_cache s).
Definition set_skipped_diacritics (n : Z) (s : t) : t :=
  Build (buffer s) (direction s) (valid_chars s) (left s) (right s) (center s)
        (valid s) (error_msg s) (stopped s) n
        (skipped_spaces s) (hash_cache s).
Definition set_skipped_spaces (n : Z) (s : t) : t :=
  Build (buffer s) (direction s) (valid_chars s) (left s) (right s) (center s)
        (valid s) (error_msg s) (stopped s) (skipped_diacritics s)
        n (hash_cache s).

Section StreamProcessor.
Context {U : Unicode}.

(** The condition of the [while] loop. *)
Definition walking (d : Direction) (l r : Cursor.t) : bool :=
  Cursor.valid l && Cursor.valid r &&
  ((forward d && (Cursor.pos l <? Cursor.pos r)%Z) ||
   (match d with Rtl => true | _ => false end
    && (Cursor.pos l >? Cursor.pos r)%Z)).

(** The [while] loop.  [fuel] bounds the number of times its condition
    is evaluated; [None] is the loop still running when the fuel is
    spent.  ([valid_char_count] is written and never read.) *)
Fixpoint validate (fuel : nat) (buffer : list cp) (d : Direction)
    (l r : Cursor.t) (cache : gmap cp Z) : option walk :=
  match fuel with
  | O => None
  | S fuel =>
      if walking d l r then
        let '(l, cache, left_hash) := Left.get_hash buffer l cache in
        match left_hash with
        | Raise e => Some (Failed e l r cache)
        | Ok left_hash =>
            let '(r, cache, right_hash) := Right.get_hash buffer r cache in
            match right_hash with
            | Raise e => Some (Failed e l r cache)
            | Ok right_hash =>
                match left_hash, right_hash with
                | Some lh, Some rh =>
                    if negb (lh =? rh)%Z then Some (Mismatch l r cache)
                    else validate fuel buffer d (Left.advance buffer l)
                                  (Right.advance buffer r) cache
                | _, _ => Some (Mismatch l r cache)
                end
            end
        end
      else Some (Crossed l r cache)
  end.

(** The handler of [except UnallowedCharacterError as e]. *)
Definition character_error (e : UnallowedCharacterError) (self : t) : t * verdict :=
  let 'Unallowed msg := e in
  let self := set_valid false self in
  let self := set_error_msg (Some (lit "Character Error: " ++ msg)) self in
  let self := set_stopped true self in
  (self, (false, error_msg self, [])).

(** Both cursors start at most one past the end and the right one moves
    down by one per round, so the loop condition is evaluated at most
    [len(buffer) + 2] times ([validate_fuel] below). *)
Definition walk_fuel (buffer : list cp) : nat := S (S (length buffer)).

(** The start positions of the two cursors for the buffer as it is,
    by topology; center-out also stores [center]. *)
Definition start_positions (self : t) : t * Z * Z :=
  let len := Z.of_nat (length (buffer self)) in
  match direction self with
  | CenterOut =>
      let self := set_center (len / 2) self in
      (self, center self - len / 2, center self + len / 2)
  | Ltr => (self, 0, len - 1)
  | _ => (self, len - 1, 0)
  end%Z.

(** What [process_char] does once the loop is left.  The cursors are
    the objects stored in [self.left] and [self.right] before the loop
    and the cache is the engine's dictionary, so their final states are
    the engine's.  ([None] is the loop out of fuel, which
    [validate_fuel] excludes.) *)
Definition conclude (self : t) (w : option walk) : t * verdict :=
  match w with
  | Some (Failed e l r cache) =>
      character_error e (set_cursors l r cache self)
  | Some (Mismatch l r cache) =>
      let self := set_valid false (set_cursors l r cache self) in
      (self, (false, error_msg self, []))
  | Some (Crossed l r cache) =>
      let self := set_cursors l r cache self in
      let self := set_valid (Cursor.valid l && Cursor.valid r) self in
      let chars := if valid self then Left.get_chars l else [] in
      let self := set_error_msg None self in
      (self, (valid self, error_msg self, chars))
  | None => (self, (false, None, []))
  end.

(** The part of [process_char] from [self.buffer.append(char)] on. *)
Definition append_and_validate (self : t) (char : cp) : t * verdict :=
  let self := set_buffer (buffer self ++ [char]) self in
  let '(self, left_pos, right_pos) := start_positions self in
  let l := Cursor.init left_pos (direction self) (valid_chars self) in
  let r := Cursor.init right_pos (direction self) (valid_chars self) in
  let l := Cursor.set_chars [] (Cursor.set_pos left_pos l) in
  let r := Cursor.set_pos right_pos r in
  conclude self
    (validate (walk_fuel (buffer self)) (buffer self) (direction self)
              l r (hash_cache self)).

Definition process_char (self : t) (char : pyobj) (auto_reset : bool)
  : t * verdict :=
  if stopped self && negb auto_reset then (self, (false, error_msg self, []))
  else
    let self := if stopped self then reset self else self in
    match char with
    | PyStr [char] =>
        if isspace char then
          (set_skipped_spaces (skipped_spaces self + 1) self, (false, None, []))
        else if category_Mn char then
          (set_skipped_diacritics (skipped_diacritics self + 1) self,
           (false, None, []))
        else
          match clean char (valid_chars self) with
          | Raise e => character_error e self
          | Ok false => (self, (false, None, []))
          | Ok true => append_and_validate self char
          end
    | _ =>
        let self := set_valid false self in
        let self := set_error_msg (Some (lit "Input Error: Invalid character")) self in
        let self := set_stopped true self in
        (self, (false, error_msg self, []))
    end.

(** Feeding a sequence of characters to an engine, as the callers of
    [process_char] do: the engine afterwards and every verdict. *)
Fixpoint feed (self : t) (chars : list pyobj) (auto_reset : bool)
  : t * list verdict :=
  match chars with
  | [] => (self, [])
  | c :: rest =>
      let '(self, v) := process_char self c auto_reset in
      let '(self, vs) := feed self rest auto_reset in
      (self, v :: vs)
  end.
End StreamProcessor.
End StreamProcessor.

(** ** The renderer *)

Section Renderer.
Context {U : Unicode}.

(** [len([c for c in word if clean(c)])] *)
Fixpoint count_clean (word : str) : res UnallowedCharacterError Z :=
  match word with
  | [] => Ok 0%Z
  | c :: rest =>
      let* b := clean c None in
      let* n := count_clean rest in
      Ok (if b then 1 + n else n)%Z
  end.

(** How one recorded character is displayed. *)
Definition display_char (ci : char_info) : str :=
  let '(char, was_cap, is_emoji, _) := ci in
  if is_emoji then [char]
  else if was_cap && isalpha char then upper char
  else if isalpha char then lower char
  else [char].

(** [f"{n} diacritic{'s' if n > 1 else ''}"] and the like. *)
Definition counted (n : Z) (noun : str) : str :=
  str_of_Z n ++ lit " " ++ noun ++ (if (n >? 1)%Z then lit "s" else []).

(** [", ".join(l)] *)
Fixpoint join_comma (l : list str) : str :=
  match l with
  | [] => []
  | [x] => x
  | x :: rest => x ++ lit ", " ++ join_comma rest
  end.

(** [is_valid_input] of [String_Output]. *)
Definition is_valid_input_of (word : pyobj) : res UnallowedCharacterError bool :=
  match word with
  | PyStr w => if negb (is_empty w) then has_valid_chars w None else Ok false
  | _ => Ok false
  end.

(** [display_word] of [String_Output], the text after the [#]; [text]
    is [word] when [word] is a string. *)
Definition display_word (is_valid_input : bool) (text : str) (result : bool)
    (direction : Direction) (chars : list char_info) : str :=
  if is_valid_input && negb (length chars =? 0) && result then
    let half_stack := chars in
    let mirrored :=
      if length half_stack =? 1 then half_stack
      else
        let mirrored := half_stack ++ rev half_stack in
        let expected_length := (2 * Z.of_nat (length half_stack) - 1)%Z in
        firstn (Z.to_nat expected_length) mirrored in
    let display_chars := map display_char mirrored in
    if forward direction then concat display_chars
    else concat (rev display_chars)
  else if is_valid_input && negb result then text
  else lit "INVALID".

(** [chars] is a list or [None] in the source and only its emptiness
    and its elements are used; [None] is the empty list here. *)
Definition String_Output (word : pyobj) (result : bool) (error_msg : option str)
    (direction : Direction) (chars : list char_info) (streaming : bool)
    (skipped_diacritics skipped_spaces : Z)
  : res UnallowedCharacterError str :=
  let* is_valid_input := is_valid_input_of word in
  let text := match word with PyStr w => w | _ => [] end in
  let output :=
    lit "#" ++ display_word is_valid_input text result direction chars ++
    lit " is " ++ (if result then lit "True" else lit "False") in
  match error_msg with
  | Some (c :: m) => Ok (output ++ lit " :FINAL: " ++ c :: m)
  | _ =>
      let direction_text :=
        match direction with
        | Ltr => lit "left-to-right"
        | Rtl => lit "right-to-left"
        | _ => lit "center-out"
        end in
      let status :=
        if result then lit "Valid palindrome"
        else if streaming && is_valid_input then lit "Building palindrome"
        else lit "Not a palindrome" in
      let skip_info :=
        (if (skipped_diacritics >? 0)%Z
         then [counted skipped_diacritics (lit "diacritic")] else []) ++
        (if (skipped_spaces >? 0)%Z
         then [counted skipped_spaces (lit "space")] else []) in
      let skip_text :=
        match skip_info with
        | [] => []
        | _ => lit " Skipped " ++ join_comma skip_info ++ lit "."
        end in
      let* valid_chars := if is_valid_input then count_clean text else Ok 0%Z in
      let char_text :=
        if result then lit " Valid chars: " ++ str_of_Z valid_chars ++ lit "."
        else [] in
      Ok (output ++ lit " :FINAL: " ++ status ++
          lit " with preserved case and unique emojis built from " ++
          direction_text ++ lit "!" ++ char_text ++ skip_text ++
          match direction with CenterOut => lit " *Bazing!*" | _ => [] end)
  end.
End Renderer.

(** ** Streaming and scanning *)

(** One entry of the scanner's result. *)
Record found : Type := Found {
  palindrome : str;
  start_pos : Z;
  end_pos : Z;
  output : str
}.

(** A maximal run of accepted characters: [(start_pos, end, sequence)]. *)
Definition run : Type := Z * Z * list cp.

Section Scanner.
Context {U : Unicode}.

(** The loop of [stream_palindrome]; [chars] is what iterating the
    argument yields, each element a string. *)
Fixpoint stream_loop (processor : StreamProcessor.t) (current_word : str)
    (chars : list str) (direction : Direction) (auto_reset : bool)
  : res UnallowedCharacterError (list str) :=
  match chars with
  | [] => Ok []
  | char :: rest =>
      let current_word := current_word ++ char in
      let '(processor, (result, error_msg, chars_out)) :=
        StreamProcessor.process_char processor (PyStr char) auto_reset in
      let* line :=
        String_Output (PyStr current_word) result error_msg direction chars_out
          true (StreamProcessor.skipped_diacritics processor)
          (StreamProcessor.skipped_spaces processor) in
      let* lines := stream_loop processor current_word rest direction auto_reset in
      Ok (line :: lines)
  end.

Definition stream_palindrome (chars : list str) (direction : Direction)
    (valid_chars : option (list str)) (auto_reset : bool)
  : res UnallowedCharacterError (list str) :=
  stream_loop (StreamProcessor.init direction valid_chars) [] chars
              direction auto_reset.

(** The first loop of the scanner from index [i] on, with its three
    variables; the result is [valid_sequences] and what is left in
    [current_sequence] and [start_pos]. *)
Fixpoint extract_runs (i : Z) (rest : str) (valid_chars : option (list str))
    (valid_sequences : list run) (current_sequence : list cp) (start_pos : Z)
  : list run * list cp * Z :=
  match rest with
  | [] => (valid_sequences, current_sequence, start_pos)
  | char :: rest =>
      match clean char valid_chars with
      | Ok true =>
          let start_pos :=
            match current_sequence with [] => i | _ => start_pos end in
          extract_runs (i + 1) rest valid_chars valid_sequences
                       (current_sequence ++ [char]) start_pos
      | Ok false | Raise _ =>
          (* the [else] branch and the [except] handler are the same code *)
          match current_sequence with
          | [] => extract_runs (i + 1) rest valid_chars valid_sequences [] start_pos
          | _ => extract_runs (i + 1) rest valid_chars
                   (valid_sequences ++ [(start_pos, i - 1, current_sequence)])%Z
                   [] start_pos
          end
      end
  end.

Definition valid_sequences_of (paragraph : str) (valid_chars : option (list str))
  : list run :=
  let '(valid_sequences, current_sequence, start_pos) :=
    extract_runs 0 paragraph valid_chars [] [] 0 in
  match current_sequence with
  | [] => valid_sequences
  | _ => valid_sequences ++
         [(start_pos, Z.of_nat (length paragraph) - 1, current_sequence)]%Z
  end.

(** [for char in substring: ...] with its [break]: the engine
    afterwards, [result], [error_msg] and [chars_out]. *)
Fixpoint drive (processor : StreamProcessor.t) (substring : list cp)
    (chars_out : list char_info)
  : StreamProcessor.t * bool * option str * list char_info :=
  match substring with
  | [] => (processor, true, None, chars_out)
  | char :: rest =>
      let '(processor, (res, err, chars)) :=
        StreamProcessor.process_char processor (PyStr [char]) false in
      if negb res then (processor, false, err, [])
      else drive processor rest chars
  end.

(** The body of the two nested loops for one [(i, j)]. *)
Definition check_substring (start : Z) (sequence : list cp) (i j : nat)
    (direction : Direction) (valid_chars : option (list str)) (min_length : Z)
  : res UnallowedCharacterError (list found) :=
  let substring := firstn (j + 1 - i) (skipn i sequence) in
  if (Z.of_nat (length substring) <? min_length)%Z then Ok []
  else
    let processor := StreamProcessor.init direction valid_chars in
    let '(processor, result, error_msg, chars_out) := drive processor substring [] in
    if result then
      let substring_str := substring in
      let* output :=
        String_Output (PyStr substring_str) result error_msg direction chars_out
          false (StreamProcessor.skipped_diacritics processor)
          (StreamProcessor.skipped_spaces processor) in
      Ok [Found substring_str (start + Z.of_nat i) (start + Z.of_nat j) output]
    else Ok [].

(** Running [f] over a list in order and appending what it yields; the
    first exception ends it. *)
Fixpoint collect {A B} (f : A -> res UnallowedCharacterError (list B)) (l : list A)
  : res UnallowedCharacterError (list B) :=
  match l with
  | [] => Ok []
  | a :: rest =>
      let* x := f a in
      let* y := collect f rest in
      Ok (x ++ y)
  end.

Definition check_sequence (direction : Direction) (valid_chars : option (list str))
    (min_length : Z) (r : run) : res UnallowedCharacterError (list found) :=
  let '(start, _, sequence) := r in
  collect (fun i =>
    collect (fun j =>
      check_substring start sequence i j direction valid_chars min_length)
      (seq i (length sequence - i)))
    (seq 0 (length sequence)).

Definition find_palindromes_in_paragraph (paragraph : pyobj) (direction : Direction)
    (valid_chars : option (list str)) (min_length : Z) : res exn (list found) :=
  match paragraph with
  | PyStr paragraph =>
      if is_empty paragraph then Ok []
      else
        match collect (check_sequence direction valid_chars min_length)
                      (valid_sequences_of paragraph valid_chars) with
        | Ok palindromes => Ok palindromes
        | Raise e => Raise (ExnUnallowedCharacter e)
        end
  | _ => Raise (ExnInvalidInput (InvalidInput (lit "Paragraph must be a non-null string")))
  end.
End Scanner.

(** ** Observing a run of the engine *)

(** What iterating a string yields: its one-code-point strings. *)
Definition codepoints (s : str) : list pyobj := map (fun c => PyStr [c]) s.

(** The is-palindrome component of the last verdict of a run. *)
Definition final_verdict (vs : list verdict) : option bool :=
  fmap (fun v : verdict => fst (fst v)) (last vs).

(** The last line [stream_palindrome] returns, if it returns one. *)
Definition last_line (r : res UnallowedCharacterError (list str)) : option str :=
  match r with
  | Ok lines => last lines
  | Raise _ => None
  end.

(** The verdicts of a fresh engine over a sequence of characters. *)
Definition run_stream `{U : Unicode} (d : Direction) (vs : option (list str))
    (chars : list pyobj) (auto_reset : bool) : list verdict :=
  snd (StreamProcessor.feed (StreamProcessor.init d vs) chars auto_reset).

(** ** Notions used in the statements and proofs below *)

Section Notions.
Context {U : Unicode}.

(** The is-palindrome component of what [process_char] returns. *)
Definition result_of (out : StreamProcessor.t * verdict) : bool :=
  fst (fst (snd out)).

(** The engine with [n] more skipped diacritics counted. *)
Definition bump (n : Z) (s : StreamProcessor.t) : StreamProcessor.t :=
  StreamProcessor.set_skipped_diacritics
    (StreamProcessor.skipped_diacritics s + n) s.

(** An engine that is running and whose buffer holds accepted
    characters only. *)
Definition running (vs : option (list str)) (s : StreamProcessor.t) : Prop :=
  StreamProcessor.stopped s = false /\
  StreamProcessor.valid_chars s = vs /\
  Forall (fun c => clean c vs = Ok true) (StreamProcessor.buffer s).

(** A character the cursors can hash: a letter or a listed emoji. *)
Definition hashable (c : cp) : bool := isalpha c || snd (is_emoticon c).

(** What the recording cursor stores for a hashable character. *)
Definition recorded (c : cp) : char_info :=
  (c, isalpha c && isupper c, negb (isalpha c), true).

(** The characters of a run sit in the paragraph from the run's start
    on, and each of them is accepted. *)
Definition run_ok (vs : option (list str)) (paragraph : list cp) (r : run) : Prop :=
  let '(start, _, sequence) := r in
  (0 <= start)%Z /\
  forall n c, sequence !! n = Some c ->
    paragraph !! (Z.to_nat start + n)%nat = Some c /\ clean c vs = Ok true.

(** The run being built when the loop is at index [i]. *)
Definition current_ok (vs : option (list str)) (paragraph : list cp) (i : nat) (current : list cp)
    (start_pos : Z) : Prop :=
  current = [] \/
  ((0 <= start_pos)%Z /\
   (Z.to_nat start_pos + length current = i)%nat /\
   forall n c, current !! n = Some c ->
     paragraph !! (Z.to_nat start_pos + n)%nat = Some c /\ clean c vs = Ok true).

(** A reported palindrome lies inside the paragraph and covers accepted
    characters only. *)
Definition within_accepted (vs : option (list str)) (paragraph : list cp) (r : found) : Prop :=
  (0 <= start_pos r <= end_pos r)%Z /\
  forall k, (start_pos r <= k <= end_pos r)%Z ->
    exists c, paragraph !! Z.to_nat k = Some c /\ clean c vs = Ok true.
End Notions.

Definition thumbs_up : cp := 0x1F44D%N.

(** The five tone-modified forms of the thumbs-up, as the allow-list
    spells them. *)
Definition thumbs_up_tones : list str :=
  map (fun tone => [thumbs_up; tone]) [0x1F3FB; 0x1F3FC; 0x1F3FD; 0x1F3FE; 0x1F3FF]%N.

(** An engine stopped by a character that is not on the allow-list. *)
Definition stopped_by_comma : StreamProcessor.t :=
  fst (StreamProcessor.process_char (U := pinned blank)
         (StreamProcessor.init Ltr None) (PyStr (lit ",")) false).

(** ** Notions used in the further properties *)

(** [accepts vs c]: [clean(c, vs)] returns [True]. *)
Definition accepts `{U : Unicode} (vs : option (list str)) (c : cp) : bool :=
  match clean c vs with Ok true => true | _ => false end.

(** The engine with both skip counters moved. *)
Definition shift_counters (a b : Z) (s : StreamProcessor.t) : StreamProcessor.t :=
  StreamProcessor.set_skipped_spaces (StreamProcessor.skipped_spaces s + b)
    (StreamProcessor.set_skipped_diacritics
       (StreamProcessor.skipped_diacritics s + a) s).

(** The stored error and the stopped flag go together. *)
Definition coherent (s : StreamProcessor.t) : Prop :=
  StreamProcessor.stopped s = true <-> is_Some (StreamProcessor.error_msg s).

(** The buffer holds characters [clean] accepts for the engine's alphabet. *)
Definition buffer_ok `{U : Unicode} (s : StreamProcessor.t) : Prop :=
  Forall (fun c => clean c (StreamProcessor.valid_chars s) = Ok true)
         (StreamProcessor.buffer s).

(** Every entry of the cache is the key [hash_char] computes without it. *)
Definition cache_ok `{U : Unicode} (m : gmap cp Z) : Prop :=
  forall c h, m !! c = Some h -> h = compute_hash c.

(** The shape of what [process_char] returns, given the state it is
    called in. *)
Definition well_shaped `{U : Unicode} (out : StreamProcessor.t * verdict) : Prop :=
  let '(s', (b, e, chars)) := out in
  coherent s' /\ e = StreamProcessor.error_msg s' /\
  (b = true -> e = None) /\ (b = false -> chars = []).

(** The cache a walk leaves behind. *)
Definition walk_cache (w : walk) : gmap cp Z :=
  match w with
  | Crossed _ _ c | Mismatch _ _ c | Failed _ _ _ c => c
  end.

(** The comparisons of the loop over a buffer with keys [keys]: position
    [i] against position [len - 1 - i], for [i] from [k] up to the middle. *)
Definition half_matches (keys : list Z) (k : nat) : bool :=
  forallb (fun i => (nth i keys 0 =? nth (length keys - 1 - i) keys 0)%Z)
          (seq k (length keys / 2 - k)).

(** The keys read the same in both directions. *)
Definition palindromic (keys : list Z) : bool := bool_decide (keys = rev keys).

(** The left cursor after [k] completed rounds of the loop, with [cs]
    recorded. *)
Definition left_at (vs : option (list str)) (d : Direction) (k : nat)
    (cs : list char_info) : Cursor.t :=
  Cursor.Build (Z.of_nat k) d vs true cs.

(** The right cursor after [k] completed rounds of the loop. *)
Definition right_at (vs : option (list str)) (d : Direction) (buffer : list cp)
    (k : nat) : Cursor.t :=
  Cursor.Build (Z.of_nat (length buffer) - 1 - Z.of_nat k) d vs true [].

(** The verdict of the forward walk over a window: whether its keys are
    palindromic, no error, and the left half recorded if they are. *)
Definition forward_verdict `{U : Unicode} (window : list cp) : verdict :=
  (palindromic (map compute_hash window), None,
   if palindromic (map compute_hash window)
   then map recorded (firstn (length window / 2) window) else []).

(** What is known of a running engine between two calls; [P] holds of
    the characters of its buffer. *)
Definition steady `{U : Unicode} (vs : option (list str)) (d : Direction)
    (P : cp -> Prop) (s : StreamProcessor.t) : Prop :=
  running vs s /\ StreamProcessor.direction s = d /\
  cache_ok (StreamProcessor.hash_cache s) /\ coherent s /\
  Forall P (StreamProcessor.buffer s).

(** The verdict of the center-out engine over a window. *)
Definition center_out_verdict `{U : Unicode} (window : list cp) : verdict :=
  if Nat.even (length window) then (false, None, []) else forward_verdict window.

(** The verdict of the right-to-left engine over a window. *)
Definition rtl_verdict (window : list cp) : verdict :=
  (length window =? 1, None, []).

(** [x] is a string of exactly one code point. *)
Definition is_character (x : pyobj) : bool :=
  match x with PyStr [_] => true | _ => false end.

(** [clean] with the default alphabet returns for [c]. *)
Definition classifiable `{U : Unicode} (c : cp) : Prop :=
  exists b, clean c None = Ok b.

(** The characters of a run. *)
Definition run_chars (r : run) : list cp := snd r.

(** A run is not empty, ends where its characters end inside the
    paragraph, and has a character that is not accepted, or an end of the
    paragraph, on either side. *)
Definition run_maximal `{U : Unicode} (vs : option (list str)) (paragraph : list cp)
    (r : run) : Prop :=
  let '(start, e, sequence) := r in
  sequence <> [] /\
  (0 <= start)%Z /\
  e = (start + Z.of_nat (length sequence) - 1)%Z /\
  (e < Z.of_nat (length paragraph))%Z /\
  (start = 0%Z \/
   exists c, paragraph !! Z.to_nat (start - 1) = Some c /\ accepts vs c = false) /\
  (e + 1 = Z.of_nat (length paragraph) \/
   exists c, paragraph !! Z.to_nat (e + 1) = Some c /\ accepts vs c = false)%Z.

(** The state of the first loop at index [i], between two characters. *)
Definition loop_shape `{U : Unicode} (vs : option (list str)) (paragraph : list cp)
    (i : nat) (current : list cp) (start_pos : Z) : Prop :=
  match current with
  | [] => i = 0 \/ exists c, paragraph !! (i - 1) = Some c /\ accepts vs c = false
  | _ => (0 <= start_pos)%Z /\ Z.to_nat start_pos + length current = i /\
         (start_pos = 0%Z \/
          exists c, paragraph !! Z.to_nat (start_pos - 1) = Some c /\
                    accepts vs c = false)
  end.

(** How an entry of the result comes about: it is a stretch [i..j] of a
    run on which the inner loop ran to the end without a [False]. *)
Definition reported `{U : Unicode} (d : Direction) (vs : option (list str))
    (min_length : Z) (paragraph : list cp) (r : found) : Prop :=
  exists start e sequence i j,
    In (start, e, sequence) (valid_sequences_of paragraph vs) /\
    i <= j < length sequence /\
    palindrome r = firstn (j + 1 - i) (skipn i sequence) /\
    start_pos r = (start + Z.of_nat i)%Z /\
    end_pos r = (start + Z.of_nat j)%Z /\
    (min_length <= Z.of_nat (length (palindrome r)))%Z /\
    exists s' e' out,
      drive (StreamProcessor.init d vs) (palindrome r) [] = (s', true, e', out).

(** The [result] the inner loop of the scanner ends with. *)
Definition drive_result (out : StreamProcessor.t * bool * option str * list char_info)
  : bool := snd (fst (fst out)).

(** All the characters have one key. *)
Definition one_key `{U : Unicode} (w : list cp) : Prop :=
  exists h, Forall (fun c => compute_hash c = h) w.

(** The characters of the paragraph from index [a] to index [b]. *)
Definition stretch (paragraph : list cp) (a b : nat) : list cp :=
  firstn (b + 1 - a) (skipn a paragraph).

(** The result has an entry for the positions [a] to [b]. *)
Definition reports (results : list found) (a b : nat) : Prop :=
  exists r, In r results /\ start_pos r = Z.of_nat a /\ end_pos r = Z.of_nat b.

(** Position [a] lies in one of the runs. *)
Definition covered (seqs : list run) (a : nat) : Prop :=
  Exists (fun r : run => let '(start, e, _) := r in
                         (start <= Z.of_nat a <= e)%Z) seqs.

(** What the first loop has covered when it is at index [i]. *)
Definition loop_covers `{U : Unicode} (vs : option (list str)) (paragraph : list cp)
    (i : nat) (seqs : list run) (current : list cp) (start_pos : Z) : Prop :=
  (current <> [] -> (start_pos <= Z.of_nat i)%Z) /\
  forall a c, a < i -> paragraph !! a = Some c -> accepts vs c = true ->
              covered seqs a \/ (current <> [] /\ (start_pos <= Z.of_nat a)%Z).

(** * Properties *)

(** ** The loop of [process_char] terminates *)

Section Termination.
Context {U : Unicode}.

Lemma Right_get_hash_pos buffer r cache r' cache' h :
  Right.get_hash buffer r cache = (r', cache', Ok (Some h)) ->
  r' = r /\ Cursor.valid r = true /\
  (0 <= Cursor.pos r < Z.of_nat (length buffer))%Z.
Proof.
  unfold Right.get_hash, Cursor.out_of_range.
  destruct (Cursor.valid r); simpl; [|discriminate].
  destruct (Z.ltb_spec (Cursor.pos r) 0); simpl; [discriminate|].
  destruct (Z.geb_spec (Cursor.pos r) (Z.of_nat (length buffer))); [discriminate|].
  destruct (clean _ _) as [[|]|]; try discriminate.
  destruct (negb _ && negb _); [discriminate|].
  destruct (cached_hash _ _). intros [= <- _ _]. repeat split; lia.
Qed.

Lemma Right_advance_pos buffer r :
  Cursor.pos (Right.advance buffer r) = (Cursor.pos r - 1)%Z.
Proof.
  unfold Right.advance.
  destruct (forward (Cursor.direction r)); simpl;
    match goal with |- context [if ?b then _ else _] => destruct b end;
    reflexivity.
Qed.

(** Enough fuel gives the result: the right cursor moves down by one per
    round and a round is only completed from a position inside the
    buffer. *)
Lemma validate_fuel fuel buffer d l r cache :
  (Z.max 0 (Cursor.pos r + 1) < Z.of_nat fuel)%Z ->
  exists w, StreamProcessor.validate fuel buffer d l r cache = Some w.
Proof.
  revert l r cache. induction fuel as [|fuel IH]; intros l r cache Hf; [lia|].
  simpl. destruct (StreamProcessor.walking d l r); [|eauto].
  destruct (Left.get_hash buffer l cache) as [[l1 c1] [lh|e]]; [|eauto].
  destruct (Right.get_hash buffer r c1) as [[r1 c2] [rh|e]] eqn:Hr; [|eauto].
  destruct lh as [lh|], rh as [rh|]; eauto.
  destruct (negb (lh =? rh)%Z); [eauto|].
  apply Right_get_hash_pos in Hr as (-> & _ & Hpos).
  apply IH. rewrite Right_advance_pos. lia.
Qed.

(** [process_char] gives the loop enough fuel, whatever the engine. *)
Lemma append_and_validate_fuel (self : StreamProcessor.t) (char : cp) :
  let '(s, left_pos, right_pos) :=
    StreamProcessor.start_positions
      (StreamProcessor.set_buffer (StreamProcessor.buffer self ++ [char]) self) in
  forall l r cache,
    Cursor.pos r = right_pos ->
    exists w,
      StreamProcessor.validate (StreamProcessor.walk_fuel (StreamProcessor.buffer s))
        (StreamProcessor.buffer s) (StreamProcessor.direction s) l r cache = Some w.
Proof.
  unfold StreamProcessor.start_positions. destruct self as [buf d vs l r ce va em st sd ss hc].
  cbn [StreamProcessor.direction StreamProcessor.set_buffer StreamProcessor.buffer].
  assert (Hhalf : (Z.of_nat (length (buf ++ [char])) / 2
                   + Z.of_nat (length (buf ++ [char])) / 2
                   <= Z.of_nat (length (buf ++ [char])))%Z).
  { pose proof (Z.mul_div_le (Z.of_nat (length (buf ++ [char]))) 2). lia. }
  destruct d; cbn [StreamProcessor.set_center StreamProcessor.center
                   StreamProcessor.buffer StreamProcessor.direction];
    intros l0 r0 cache Hr; apply validate_fuel;
    unfold StreamProcessor.walk_fuel;
    cbn [StreamProcessor.buffer StreamProcessor.set_buffer
         StreamProcessor.set_center];
    rewrite Hr; lia.
Qed.
End Termination.

(** ** The three topologies *)

(** C1. Direction symmetry would make the left-to-right run over a
    sequence and the right-to-left run over its reverse end in the same
    verdict.  On the two-letter sequence [aa] (its own reverse) the
    left-to-right engine ends with [True] and the right-to-left engine
    with [False]: [Right.advance] steps down in every direction, so under
    [rtl] the right cursor leaves the buffer after the first matched pair. *)
Theorem direction_symmetry_broken (U : Unicode) :
  let S := lit "aa" in
  final_verdict (run_stream (U := pinned U) Ltr None (codepoints S) false)
    = Some true /\
  final_verdict (run_stream (U := pinned U) Rtl None (codepoints (rev S)) false)
    = Some false.
Proof. split; vm_compute; reflexivity. Qed.

(** C2. Center-out and left-to-right would give the same verdict after
    each appended character.  On [aa] they agree after the first letter
    and differ after the second: for a window of even length the
    center-out right cursor starts at [len(buffer)], outside the buffer,
    and the first [get_hash] on it fails. *)
Theorem center_out_differs_on_even_window (U : Unicode) :
  run_stream (U := pinned U) Ltr None (codepoints (lit "aa")) false
    = [(true, None, []); (true, None, [(97%N, false, false, true)])] /\
  run_stream (U := pinned U) CenterOut None (codepoints (lit "aa")) false
    = [(true, None, []); (false, None, [])].
Proof. split; vm_compute; reflexivity. Qed.

(** ** The scanner on the sample sentence *)

(** C3. The scan of "A man, a plan, a canal -- Panama" with the default
    topology and [min_length = 2] reports nothing at all, so in
    particular no palindrome made of the letters of the whole sentence:
    spaces and punctuation cut the text into the runs [A], [man], [a],
    [plan], [a], [canal], [Panama], and inside a run the scan gives up a
    substring at its first prefix that is not a palindrome. *)
Theorem sentence_scan_finds_nothing (U : Unicode) :
  valid_sequences_of (U := pinned U) (lit "A man, a plan, a canal -- Panama") None
    = [(0, 0, lit "A"); (2, 4, lit "man"); (7, 7, lit "a"); (9, 12, lit "plan");
       (15, 15, lit "a"); (17, 21, lit "canal"); (26, 31, lit "Panama")]%Z /\
  find_palindromes_in_paragraph (U := pinned U)
    (PyStr (lit "A man, a plan, a canal -- Panama")) Ltr None 2 = Ok [].
Proof. split; vm_compute; reflexivity. Qed.

(** ** Recorded characters and the renderer *)

(** C4. For every single character accepted by classification, under
    every topology and restricted alphabet, [process_char] on a fresh
    engine returns the verdict [True] with an EMPTY list of recorded
    characters, not a list of length one: the loop body, the only place
    where a character is recorded, does not run on a one-character
    buffer. *)
Theorem single_character_records_nothing (U : Unicode) (d : Direction)
    (vs : option (list str)) (c : cp) (auto_reset : bool) :
  clean c vs = Ok true ->
  snd (StreamProcessor.process_char (StreamProcessor.init d vs) (PyStr [c]) auto_reset)
    = (true, None, []).
Proof.
  intros Hc. unfold StreamProcessor.process_char. simpl.
  assert (Hs : isspace c || category_Mn c = false).
  { unfold clean in Hc. destruct (isspace c || category_Mn c); [discriminate|reflexivity]. }
  apply orb_false_iff in Hs as [-> ->]. rewrite Hc.
  destruct d; reflexivity.
Qed.

Lemma single_character_records_nothing_witness :
  clean (U := pinned blank) 97%N None = Ok true /\
  snd (StreamProcessor.process_char (U := pinned blank)
         (StreamProcessor.init Ltr None) (PyStr [97%N]) false) = (true, None, []).
Proof.
  split; [reflexivity|].
  apply (single_character_records_nothing (pinned blank) Ltr None 97%N false).
  reflexivity.
Defined.

(** C5. The renderer does not give back the validated window.  For the
    window [level] the engine ends with the verdict [True] and the two
    recorded characters [l], [e]; the renderer mirrors them to [leel] and
    cuts that to three characters, so the displayed word is [lee]
    ([Lee] for [Level], whose recorded upper-case flag is kept).  The
    last line of [stream_palindrome] over the window shows it. *)
Theorem renderer_does_not_round_trip (U : Unicode) :
  let window := lit "level" in
  let chars := [(108%N, false, false, true); (101%N, false, false, true)] in
  last (run_stream (U := pinned U) Ltr None (codepoints window) false)
    = Some (true, None, chars) /\
  display_word (U := pinned U) true window true Ltr chars = lit "lee" /\
  String_Output (U := pinned U) (PyStr window) true None Ltr chars false 0 0
    = Ok (lit "#lee is True :FINAL: Valid palindrome with preserved case and unique emojis built from left-to-right! Valid chars: 5.") /\
  last_line (stream_palindrome (U := pinned U) (map (fun c => [c]) window)
               Ltr None false)
    = Some (lit "#lee is True :FINAL: Valid palindrome with preserved case and unique emojis built from left-to-right! Valid chars: 5.") /\
  last_line (stream_palindrome (U := pinned U) (map (fun c => [c]) (lit "Level"))
               Ltr None false)
    = Some (lit "#Lee is True :FINAL: Valid palindrome with preserved case and unique emojis built from left-to-right! Valid chars: 5.").
Proof.
  intros window chars. subst window chars.
  split; [|split; [|split; [|split]]]; vm_compute; reflexivity.
Qed.

(** ** Input validation of the scanner *)

(** C7. [find_palindromes_in_paragraph] raises [InvalidInputError] for
    [None] and for every argument that is not a string, whatever the
    other arguments; for the empty string and for every string of white
    space only it returns the empty list without raising. *)
Theorem scanner_input_validation (U : Unicode) (d : Direction)
    (vs : option (list str)) (min_length : Z) :
  (forall p : pyobj, (forall s, p <> PyStr s) ->
     find_palindromes_in_paragraph p d vs min_length
       = Raise (ExnInvalidInput
                  (InvalidInput (lit "Paragraph must be a non-null string")))) /\
  (forall s : str, s = [] \/ Forall (fun c => isspace c = true) s ->
     find_palindromes_in_paragraph (PyStr s) d vs min_length = Ok []).
Proof.
  split.
  - intros [| z | s] Hp; try reflexivity. destruct (Hp s eq_refl).
  - intros s Hs. unfold find_palindromes_in_paragraph.
    assert (He : is_empty s = true); [|rewrite He; reflexivity].
    unfold is_empty, str_isspace. destruct Hs as [-> | Hs]; [reflexivity|].
    destruct s as [|c s]; [reflexivity|]. simpl.
    apply Forall_cons in Hs as [-> Hs]. simpl.
    apply forallb_forall. intros x Hx.
    rewrite Forall_forall in Hs. apply Hs, list_elem_of_In, Hx.
Qed.

Lemma scanner_input_validation_witness :
  find_palindromes_in_paragraph (U := pinned blank) PyNone Ltr None 1
    = Raise (ExnInvalidInput
               (InvalidInput (lit "Paragraph must be a non-null string"))) /\
  find_palindromes_in_paragraph (U := pinned blank) (PyInt 42) Ltr None 1
    = Raise (ExnInvalidInput
               (InvalidInput (lit "Paragraph must be a non-null string"))) /\
  find_palindromes_in_paragraph (U := pinned blank) (PyStr []) Ltr None 1 = Ok [] /\
  find_palindromes_in_paragraph (U := pinned blank) (PyStr [32; 9; 10]%N) Ltr None 1
    = Ok [].
Proof.
  pose proof (scanner_input_validation (pinned blank) Ltr None 1) as [Hbad Hblank].
  split; [|split; [|split]].
  - apply Hbad. discriminate.
  - apply Hbad. discriminate.
  - apply Hblank. left. reflexivity.
  - apply Hblank. right. repeat constructor.
Defined.

(** ** The stopped state *)

(** C8. On a stopped engine every [process_char] call with [auto_reset]
    false returns [(False, error_msg, [])] with the stored error and
    leaves the engine as it was, whatever the input and for any number of
    calls; [reset] turns it into the engine a constructor call with the
    same topology and restricted alphabet gives, which is not stopped. *)
Theorem stopped_latches (U : Unicode) (self : StreamProcessor.t)
    (inputs : list pyobj) :
  StreamProcessor.stopped self = true ->
  StreamProcessor.feed self inputs false
    = (self, map (fun _ => (false, StreamProcessor.error_msg self, [])) inputs) /\
  StreamProcessor.reset self
    = StreamProcessor.init (StreamProcessor.direction self)
                           (StreamProcessor.valid_chars self) /\
  StreamProcessor.stopped (StreamProcessor.reset self) = false.
Proof.
  intros Hs. split; [|split; reflexivity].
  induction inputs as [|c inputs IH]; [reflexivity|].
  simpl. unfold StreamProcessor.process_char at 1. rewrite Hs. simpl.
  rewrite IH. reflexivity.
Qed.


Lemma stopped_latches_witness :
  StreamProcessor.stopped stopped_by_comma = true /\
  StreamProcessor.feed (U := pinned blank) stopped_by_comma
      [PyStr (lit "a"); PyNone; PyStr (lit " ")] false
    = (stopped_by_comma,
       [(false, Some (lit "Character Error: Unallowed character ','"), []);
        (false, Some (lit "Character Error: Unallowed character ','"), []);
        (false, Some (lit "Character Error: Unallowed character ','"), [])]) /\
  StreamProcessor.reset stopped_by_comma = StreamProcessor.init Ltr None.
Proof.
  split; [reflexivity|].
  destruct (stopped_latches (pinned blank) stopped_by_comma
              [PyStr (lit "a"); PyNone; PyStr (lit " ")] eq_refl) as (Hf & Hr & _).
  split; [exact Hf | exact Hr].
Defined.

(** ** Combining marks in a stream *)

Section Diacritics.
Context {U : Unicode}.


Lemma clean_true_not_skipped c vs :
  clean c vs = Ok true -> isspace c = false /\ category_Mn c = false.
Proof.
  unfold clean. destruct (isspace c || category_Mn c) eqn:E; [discriminate|].
  intros _. apply orb_false_iff in E. exact E.
Qed.

Lemma feed_app s xs ys ar :
  StreamProcessor.feed s (xs ++ ys) ar =
  let '(s1, v1) := StreamProcessor.feed s xs ar in
  let '(s2, v2) := StreamProcessor.feed s1 ys ar in
  (s2, v1 ++ v2).
Proof.
  revert s. induction xs as [|x xs IH]; intros s; simpl.
  - destruct (StreamProcessor.feed s ys ar). reflexivity.
  - destruct (StreamProcessor.process_char s x ar) as [s' v].
    rewrite IH. destruct (StreamProcessor.feed s' xs ar) as [s1 v1].
    destruct (StreamProcessor.feed s1 ys ar). reflexivity.
Qed.

Lemma feed_length s xs ar :
  length (snd (StreamProcessor.feed s xs ar)) = length xs.
Proof.
  revert s. induction xs as [|x xs IH]; intros s; simpl; [reflexivity|].
  destruct (StreamProcessor.process_char s x ar) as [s' v].
  specialize (IH s'). destruct (StreamProcessor.feed s' xs ar). simpl in *.
  congruence.
Qed.

(** The counter of skipped diacritics is carried along and never read. *)
Lemma process_char_bump n s c ar :
  StreamProcessor.stopped s = false ->
  StreamProcessor.process_char (bump n s) c ar =
  let '(s', v) := StreamProcessor.process_char s c ar in (bump n s', v).
Proof.
  intros Hs. destruct s as [buf d vs l r ce va em st sd ss hc].
  simpl in Hs. subst st. unfold StreamProcessor.process_char, bump. simpl.
  destruct c as [| z | [|c [|c' w]]]; try reflexivity.
  destruct (isspace c); [reflexivity|].
  destruct (category_Mn c).
  { unfold StreamProcessor.set_skipped_diacritics. simpl.
    do 2 f_equal. lia. }
  destruct (clean c vs) as [[|]|[msg]]; try reflexivity.
  unfold StreamProcessor.append_and_validate, StreamProcessor.start_positions.
  destruct d; cbn -[StreamProcessor.validate];
    match goal with
    | |- context [StreamProcessor.validate ?f ?b ?d ?l ?r ?h] =>
        destruct (StreamProcessor.validate f b d l r h) as [[? ? ?|? ? ?|[?] ? ? ?]|]
    end; reflexivity.
Qed.

Lemma stopped_bump n s :
  StreamProcessor.stopped (bump n s) = StreamProcessor.stopped s.
Proof. reflexivity. Qed.

Lemma clean_in_buffer buffer vs (p : Z) :
  Forall (fun c => clean c vs = Ok true) buffer ->
  (0 <= p < Z.of_nat (length buffer))%Z ->
  clean (nth (Z.to_nat p) buffer 0%N) vs = Ok true.
Proof.
  intros Hb Hp. rewrite List.Forall_forall in Hb. apply Hb, nth_In. lia.
Qed.

Lemma in_range buffer c :
  Cursor.out_of_range buffer c = false ->
  (0 <= Cursor.pos c < Z.of_nat (length buffer))%Z.
Proof.
  unfold Cursor.out_of_range. intros H.
  apply orb_false_iff in H as [H1 H2]. lia.
Qed.

(** Over a buffer of accepted characters [get_hash] does not raise. *)
Lemma Left_get_hash_ok buffer l cache vs :
  Forall (fun c => clean c vs = Ok true) buffer ->
  Cursor.valid_chars l = vs ->
  exists l' cache' o,
    Left.get_hash buffer l cache = (l', cache', Ok o) /\
    Cursor.valid_chars l' = vs.
Proof.
  intros Hb Hl. unfold Left.get_hash.
  destruct (negb (Cursor.valid l)); simpl; [eauto 6|].
  destruct (Cursor.out_of_range buffer l) eqn:Hr; [eauto 6|].
  rewrite Hl, (clean_in_buffer _ _ _ Hb (in_range _ _ Hr)).
  destruct (isalpha _).
  - destruct (cached_hash _ _). eauto 6.
  - destruct (is_emoticon _) as [? [|]]; simpl; [|eauto 6].
    destruct (cached_hash _ _). eauto 6.
Qed.

Lemma Right_get_hash_ok buffer r cache vs :
  Forall (fun c => clean c vs = Ok true) buffer ->
  Cursor.valid_chars r = vs ->
  exists r' cache' o,
    Right.get_hash buffer r cache = (r', cache', Ok o) /\
    Cursor.valid_chars r' = vs.
Proof.
  intros Hb Hr. unfold Right.get_hash.
  destruct (negb (Cursor.valid r)); simpl; [eauto 6|].
  destruct (Cursor.out_of_range buffer r) eqn:Ho; [eauto 6|].
  rewrite Hr, (clean_in_buffer _ _ _ Hb (in_range _ _ Ho)).
  destruct (negb _ && negb _); [eauto 6|].
  destruct (cached_hash _ _). eauto 6.
Qed.

Lemma Left_advance_valid_chars buffer l :
  Cursor.valid_chars (Left.advance buffer l) = Cursor.valid_chars l.
Proof.
  unfold Left.advance.
  match goal with |- context [if Cursor.out_of_range ?b ?c then _ else _] =>
    destruct (Cursor.out_of_range b c) end; reflexivity.
Qed.

Lemma Right_advance_valid_chars buffer r :
  Cursor.valid_chars (Right.advance buffer r) = Cursor.valid_chars r.
Proof.
  unfold Right.advance.
  match goal with |- context [if Cursor.out_of_range ?b ?c then _ else _] =>
    destruct (Cursor.out_of_range b c) end; reflexivity.
Qed.

(** So the walk over such a buffer ends by crossing or by a mismatch. *)
Lemma validate_no_exception fuel buffer d l r cache vs e l' r' cache' :
  Forall (fun c => clean c vs = Ok true) buffer ->
  Cursor.valid_chars l = vs -> Cursor.valid_chars r = vs ->
  StreamProcessor.validate fuel buffer d l r cache <> Some (Failed e l' r' cache').
Proof.
  intros Hb. revert l r cache.
  induction fuel as [|fuel IH]; intros l r cache Hl Hr; simpl; [discriminate|].
  destruct (StreamProcessor.walking d l r); [|discriminate].
  destruct (Left_get_hash_ok buffer l cache vs Hb Hl) as (l1 & c1 & lh & -> & Hl1).
  destruct (Right_get_hash_ok buffer r c1 vs Hb Hr) as (r1 & c2 & rh & -> & Hr1).
  destruct lh as [lh|], rh as [rh|]; try discriminate.
  destruct (negb (lh =? rh)%Z); [discriminate|].
  apply IH.
  - rewrite Left_advance_valid_chars. exact Hl1.
  - rewrite Right_advance_valid_chars. exact Hr1.
Qed.

(** A running engine keeps running over accepted characters and marks. *)
Lemma process_char_running vs s c ar :
  running vs s ->
  clean c vs = Ok true \/ category_Mn c = true ->
  running vs (fst (StreamProcessor.process_char s (PyStr [c]) ar)).
Proof.
  intros (Hs & Hv & Hb) Hc.
  destruct s as [buf d vs' l r ce va em st sd ss hc].
  simpl in Hs, Hv, Hb. subst st vs'.
  unfold StreamProcessor.process_char. simpl.
  destruct (isspace c) eqn:Hsp; [repeat split; assumption|].
  destruct (category_Mn c) eqn:Hmn; [repeat split; assumption|].
  destruct Hc as [Hc | Hc]; [|discriminate]. rewrite Hc.
  assert (Hb' : Forall (fun c => clean c vs = Ok true) (buf ++ [c])).
  { apply Forall_app. split; [exact Hb|]. constructor; [exact Hc|constructor]. }
  unfold StreamProcessor.append_and_validate, StreamProcessor.start_positions.
  destruct d; cbn -[StreamProcessor.validate];
    match goal with
    | |- context [StreamProcessor.validate ?f ?b ?d ?l ?r ?h] =>
        pose proof (fun e l' r' c' =>
                      validate_no_exception f b d l r h vs e l' r' c' Hb' eq_refl eq_refl)
          as Hne;
        destruct (StreamProcessor.validate f b d l r h) as [[? ? ?|? ? ?|e ? ? ?]|]
    end;
    try (exfalso; eapply Hne; reflexivity);
    repeat split; assumption.
Qed.

Lemma feed_running vs s cs ar :
  running vs s ->
  Forall (fun c => clean c vs = Ok true \/ category_Mn c = true) cs ->
  running vs (fst (StreamProcessor.feed s (codepoints cs) ar)).
Proof.
  revert s. induction cs as [|c cs IH]; intros s Hs Hcs; simpl; [exact Hs|].
  apply Forall_cons in Hcs as [Hc Hcs].
  pose proof (process_char_running vs s c ar Hs Hc) as Hs'.
  destruct (StreamProcessor.process_char s (PyStr [c]) ar) as [s' v].
  specialize (IH s' Hs' Hcs).
  destruct (StreamProcessor.feed s' (codepoints cs) ar). exact IH.
Qed.

(** Counting more skipped diacritics changes nothing else of a run. *)
Lemma feed_bump n vs s cs ar :
  running vs s ->
  Forall (fun c => clean c vs = Ok true \/ category_Mn c = true) cs ->
  StreamProcessor.feed (bump n s) (codepoints cs) ar =
  let '(s', v) := StreamProcessor.feed s (codepoints cs) ar in (bump n s', v).
Proof.
  revert s. induction cs as [|c cs IH]; intros s Hs Hcs; simpl; [reflexivity|].
  apply Forall_cons in Hcs as [Hc Hcs].
  rewrite process_char_bump by apply Hs.
  pose proof (process_char_running vs s c ar Hs Hc) as Hs'.
  destruct (StreamProcessor.process_char s (PyStr [c]) ar) as [s' v].
  rewrite (IH s' Hs' Hcs).
  destruct (StreamProcessor.feed s' (codepoints cs) ar). reflexivity.
Qed.

(** What a running engine does with a combining mark. *)
Lemma process_char_mark s m ar :
  StreamProcessor.stopped s = false ->
  category_Mn m = true ->
  StreamProcessor.process_char s (PyStr [m]) ar = (bump 1 s, (false, None, [])).
Proof.
  intros Hs Hm. unfold StreamProcessor.process_char.
  rewrite Hs, (Mn_not_space m Hm), Hm. reflexivity.
Qed.

Lemma running_init d vs : running vs (StreamProcessor.init d vs).
Proof. repeat split. constructor. Qed.
End Diacritics.

(** ** Equal characters meet *)

Section Pair.
Context {U : Unicode}.

Lemma cached_hash_miss c :
  cached_hash c empty = (compute_hash c, <[c := compute_hash c]> empty).
Proof. unfold cached_hash, hash_char. rewrite lookup_empty. reflexivity. Qed.

Lemma cached_hash_hit c h (m : gmap cp Z) :
  cached_hash c (<[c := h]> m) = (h, <[c := h]> m).
Proof. unfold cached_hash, hash_char. rewrite lookup_insert_eq. reflexivity. Qed.


Lemma Left_get_hash_accepted buffer l cache c :
  Cursor.valid l = true ->
  Cursor.out_of_range buffer l = false ->
  nth (Z.to_nat (Cursor.pos l)) buffer 0%N = c ->
  clean c (Cursor.valid_chars l) = Ok true ->
  hashable c = true ->
  Left.get_hash buffer l cache =
  (Cursor.set_chars (Cursor.chars l ++ [recorded c]) l,
   snd (cached_hash c cache), Ok (Some (fst (cached_hash c cache)))).
Proof.
  intros Hv Hr Hn Hc Hh. unfold Left.get_hash.
  rewrite Hv, Hr, Hn, Hc. simpl.
  unfold hashable in Hh. unfold recorded, Left.set_char.
  destruct (isalpha c); simpl in *.
  - destruct (cached_hash c cache). reflexivity.
  - destruct (is_emoticon c) as [x a]. simpl in Hh. subst a. simpl.
    destruct (cached_hash c cache). reflexivity.
Qed.

Lemma Right_get_hash_accepted buffer r cache c :
  Cursor.valid r = true ->
  Cursor.out_of_range buffer r = false ->
  nth (Z.to_nat (Cursor.pos r)) buffer 0%N = c ->
  clean c (Cursor.valid_chars r) = Ok true ->
  hashable c = true ->
  Right.get_hash buffer r cache =
  (r, snd (cached_hash c cache), Ok (Some (fst (cached_hash c cache)))).
Proof.
  intros Hv Hr Hn Hc Hh. unfold Right.get_hash.
  rewrite Hv, Hr, Hn, Hc. simpl.
  unfold hashable in Hh.
  destruct (isalpha c); simpl in *.
  - destruct (cached_hash c cache). reflexivity.
  - rewrite Hh. simpl. destruct (cached_hash c cache). reflexivity.
Qed.

Lemma process_char_accepted s c ar :
  StreamProcessor.stopped s = false ->
  clean c (StreamProcessor.valid_chars s) = Ok true ->
  StreamProcessor.process_char s (PyStr [c]) ar
    = StreamProcessor.append_and_validate s c.
Proof.
  intros Hs Hc. destruct (clean_true_not_skipped _ _ Hc) as [Hsp Hmn].
  unfold StreamProcessor.process_char. rewrite Hs. simpl.
  rewrite Hsp, Hmn, Hc. reflexivity.
Qed.

(** One completed round of the loop, and its exit. *)
Lemma validate_round fuel buffer d l r cache l1 c1 r1 c2 h :
  StreamProcessor.walking d l r = true ->
  Left.get_hash buffer l cache = (l1, c1, Ok (Some h)) ->
  Right.get_hash buffer r c1 = (r1, c2, Ok (Some h)) ->
  StreamProcessor.validate (S fuel) buffer d l r cache =
  StreamProcessor.validate fuel buffer d (Left.advance buffer l1)
                           (Right.advance buffer r1) c2.
Proof.
  intros Hw Hl Hr. cbn [StreamProcessor.validate].
  rewrite Hw, Hl, Hr, Z.eqb_refl. reflexivity.
Qed.

Lemma validate_crossed fuel buffer d l r cache :
  StreamProcessor.walking d l r = false ->
  StreamProcessor.validate (S fuel) buffer d l r cache = Some (Crossed l r cache).
Proof. intros Hw. cbn [StreamProcessor.validate]. rewrite Hw. reflexivity. Qed.

(** The same hashable character twice is a palindrome for the
    left-to-right engine, and the first of the two is recorded. *)
Lemma pair_accepted_ltr vs c :
  clean c vs = Ok true ->
  hashable c = true ->
  run_stream Ltr vs [PyStr [c]; PyStr [c]] false
    = [(true, None, []); (true, None, [recorded c])].
Proof.
  intros Hc Hh. unfold run_stream. cbn [StreamProcessor.feed].
  rewrite process_char_accepted by (reflexivity || exact Hc).
  change (StreamProcessor.append_and_validate (StreamProcessor.init Ltr vs) c)
    with (StreamProcessor.Build [c] Ltr vs
            (Some (Cursor.Build 0 Ltr vs true []))
            (Some (Cursor.Build 0 Ltr vs true [])) (-1) true None false 0 0 empty,
          ((true, None, []) : verdict)).
  cbv beta iota zeta.
  rewrite process_char_accepted by (reflexivity || exact Hc).
  unfold StreamProcessor.append_and_validate, StreamProcessor.start_positions,
    StreamProcessor.walk_fuel.
  cbn [StreamProcessor.buffer StreamProcessor.direction StreamProcessor.set_buffer
       StreamProcessor.valid_chars StreamProcessor.hash_cache app length].
  erewrite validate_round; cycle 1.
  - reflexivity.
  - apply Left_get_hash_accepted; try reflexivity; assumption.
  - rewrite cached_hash_miss. cbn [fst snd].
    rewrite (Right_get_hash_accepted _ _ _ c); try reflexivity; try assumption.
    rewrite cached_hash_hit. reflexivity.
  - rewrite validate_crossed by reflexivity. reflexivity.
Qed.
End Pair.

(** ** Where right-to-left and center-out part from left-to-right *)

Section Topologies.
Context {U : Unicode}.


Lemma conclude_crossed s l r cache :
  result_of (StreamProcessor.conclude s (Some (Crossed l r cache)))
    = Cursor.valid l && Cursor.valid r.
Proof. reflexivity. Qed.

Lemma conclude_mismatch s l r cache :
  result_of (StreamProcessor.conclude s (Some (Mismatch l r cache))) = false.
Proof. reflexivity. Qed.

Lemma conclude_failed s e l r cache :
  result_of (StreamProcessor.conclude s (Some (Failed e l r cache))) = false.
Proof. destruct e. reflexivity. Qed.

Lemma walking_right_invalid d l r :
  Cursor.valid r = false -> StreamProcessor.walking d l r = false.
Proof.
  intros H. unfold StreamProcessor.walking.
  rewrite H, andb_false_r. reflexivity.
Qed.

(** A round of the loop from a right cursor at position [0] is the
    last one: either it ends in a mismatch or an exception, or the right
    cursor steps to [-1] and the walk is left with that cursor invalid. *)
Lemma validate_right_at_zero fuel buffer d l r cache s :
  Cursor.pos r = 0%Z ->
  StreamProcessor.walking d l r = true ->
  result_of (StreamProcessor.conclude s
               (StreamProcessor.validate (S (S fuel)) buffer d l r cache)) = false.
Proof.
  intros Hp Hw. cbn [StreamProcessor.validate]. rewrite Hw.
  destruct (Left.get_hash buffer l cache) as [[l1 c1] [lh|e]];
    [|apply conclude_failed].
  destruct (Right.get_hash buffer r c1) as [[r1 c2] [rh|e]] eqn:Hr;
    [|apply conclude_failed].
  destruct lh as [lh|], rh as [rh|]; try apply conclude_mismatch.
  destruct (negb (lh =? rh)%Z); [apply conclude_mismatch|].
  apply Right_get_hash_pos in Hr as (-> & _ & _).
  assert (Hinv : Cursor.valid (Right.advance buffer r) = false).
  { unfold Right.advance, Cursor.out_of_range.
    cbn [Cursor.pos Cursor.set_pos]. rewrite Hp.
    destruct (forward (Cursor.direction r)); reflexivity. }
  rewrite (walking_right_invalid _ _ _ Hinv), conclude_crossed, Hinv.
  apply andb_false_r.
Qed.

(** Under [rtl] a window of two or more characters is never a
    palindrome for the engine. *)
Lemma rtl_window_rejected (s : StreamProcessor.t) (c : pyobj) (auto_reset : bool) :
  StreamProcessor.direction s = Rtl ->
  StreamProcessor.stopped s = false ->
  StreamProcessor.buffer s <> [] ->
  result_of (StreamProcessor.process_char s c auto_reset) = false.
Proof.
  intros Hd Hs Hb. destruct s as [buf d vs l r ce va em st sd ss hc].
  simpl in Hd, Hs, Hb. subst d st.
  unfold StreamProcessor.process_char. cbn [StreamProcessor.stopped andb].
  destruct c as [| z | [|c [|c' w]]]; try reflexivity.
  destruct (isspace c); [reflexivity|].
  destruct (category_Mn c); [reflexivity|].
  cbn [StreamProcessor.valid_chars].
  destruct (clean c vs) as [[|]|[msg]]; try reflexivity.
  unfold StreamProcessor.append_and_validate, StreamProcessor.start_positions,
    StreamProcessor.walk_fuel.
  cbn [StreamProcessor.direction StreamProcessor.set_buffer StreamProcessor.buffer
       StreamProcessor.valid_chars StreamProcessor.hash_cache].
  apply validate_right_at_zero; [reflexivity|].
  unfold StreamProcessor.walking. cbn.
  rewrite length_app. simpl. destruct buf; [contradiction|]. simpl.
  apply Z.gtb_lt. lia.
Qed.

(** Under [center-out] a window of even length is never a palindrome
    for the engine: the right cursor starts at [len(buffer)]. *)
Lemma center_out_even_window_rejected (s : StreamProcessor.t) (c : pyobj)
    (auto_reset : bool) :
  StreamProcessor.direction s = CenterOut ->
  StreamProcessor.stopped s = false ->
  Nat.Odd (length (StreamProcessor.buffer s)) ->
  result_of (StreamProcessor.process_char s c auto_reset) = false.
Proof.
  intros Hd Hs [k Hk]. destruct s as [buf d vs l r ce va em st sd ss hc].
  simpl in Hd, Hs, Hk. subst d st.
  unfold StreamProcessor.process_char. cbn [StreamProcessor.stopped andb].
  destruct c as [| z | [|c [|c' w]]]; try reflexivity.
  destruct (isspace c); [reflexivity|].
  destruct (category_Mn c); [reflexivity|].
  cbn [StreamProcessor.valid_chars].
  destruct (clean c vs) as [[|]|[msg]]; try reflexivity.
  unfold StreamProcessor.append_and_validate, StreamProcessor.start_positions,
    StreamProcessor.walk_fuel.
  cbn [StreamProcessor.direction StreamProcessor.set_buffer StreamProcessor.buffer
       StreamProcessor.valid_chars StreamProcessor.hash_cache
       StreamProcessor.set_center StreamProcessor.center].
  assert (Hlen : Z.of_nat (length (buf ++ [c])) = (2 * (Z.of_nat k + 1))%Z).
  { rewrite length_app. simpl. lia. }
  assert (Hhalf : (Z.of_nat (length (buf ++ [c])) / 2 = Z.of_nat k + 1)%Z).
  { rewrite Hlen, Z.mul_comm. apply Z.div_mul. lia. }
  rewrite Hhalf. cbn [StreamProcessor.validate].
  replace (StreamProcessor.walking _ _ _) with true.
  2:{ unfold StreamProcessor.walking.
      cbn [Cursor.valid Cursor.pos Cursor.set_pos Cursor.set_chars Cursor.init
           forward andb orb].
      replace (Z.of_nat k + 1 - (Z.of_nat k + 1))%Z with 0%Z by lia.
      replace (0 <? Z.of_nat k + 1 + (Z.of_nat k + 1))%Z with true
        by (symmetry; apply Z.ltb_lt; lia).
      reflexivity. }
  destruct (Left.get_hash _ _ _) as [[l1 c1] [lh|e]]; [|apply conclude_failed].
  assert (Hr : forall cache,
             Right.get_hash (buf ++ [c])
               (Cursor.set_pos (Z.of_nat k + 1 + (Z.of_nat k + 1))
                  (Cursor.init (Z.of_nat k + 1 + (Z.of_nat k + 1)) CenterOut vs))
               cache
             = (Cursor.set_valid false
                  (Cursor.set_pos (Z.of_nat k + 1 + (Z.of_nat k + 1))
                     (Cursor.init (Z.of_nat k + 1 + (Z.of_nat k + 1)) CenterOut vs)),
                cache, Ok None)).
  { intros cache. unfold Right.get_hash, Cursor.out_of_range.
    cbn [Cursor.valid Cursor.pos Cursor.set_pos Cursor.init negb orb].
    replace (Z.of_nat k + 1 + (Z.of_nat k + 1) >=? Z.of_nat (length (buf ++ [c])))%Z
      with true by (symmetry; apply Z.geb_le; lia).
    rewrite orb_true_r. reflexivity. }
  rewrite Hr. destruct lh; apply conclude_mismatch.
Qed.
End Topologies.

(** ** The emoji allow-list *)


(** C6. Of the six thumbs-up variants only the base glyph compares equal
    to itself in the engine.  Each of the five tone-modified forms is on
    the allow-list, but it is a string of two code points: handed to
    [process_char] whole it is refused as an invalid character, and
    handed over code point by code point its tone modifier is an
    unallowed character, so streaming the variant followed by itself ends
    with the verdict [False] either way. *)
Theorem toned_thumbs_up_rejected (U : Unicode) :
  final_verdict (run_stream (U := pinned U) Ltr None
                   [PyStr [thumbs_up]; PyStr [thumbs_up]] false) = Some true /\
  Forall (fun variant =>
            str_in variant ALLOWED_EMOJIS = true /\
            final_verdict (run_stream (U := pinned U) Ltr None
                             [PyStr variant; PyStr variant] false) = Some false /\
            final_verdict (run_stream (U := pinned U) Ltr None
                             (codepoints (variant ++ variant)) false) = Some false)
         thumbs_up_tones.
Proof.
  split.
  - rewrite (pair_accepted_ltr (U := pinned U)) by reflexivity. reflexivity.
  - repeat constructor; vm_compute; reflexivity.
Qed.


(** C9. Take a sequence of accepted characters (marks already in it are
    allowed too, so that marks can be inserted one after the other), a
    position [i] in it and a combining mark [m].  Inserting [m] at
    position [i], that is before the character now at [i], leaves the
    final is-palindrome verdict of a fresh engine as it is without the
    mark and makes the counter of skipped diacritics exactly one larger;
    this holds for every topology, restricted alphabet and [auto_reset]. *)
Theorem diacritic_transparency (U : Unicode) (d : Direction)
    (vs : option (list str)) (auto_reset : bool) (S : list cp) (i : nat) (m : cp) :
  Forall (fun c => clean c vs = Ok true \/ category_Mn c = true) S ->
  category_Mn m = true ->
  i < length S ->
  let plain :=
    StreamProcessor.feed (StreamProcessor.init d vs) (codepoints S) auto_reset in
  let marked :=
    StreamProcessor.feed (StreamProcessor.init d vs)
      (codepoints (firstn i S ++ m :: skipn i S)) auto_reset in
  final_verdict (snd marked) = final_verdict (snd plain) /\
  StreamProcessor.skipped_diacritics (fst marked)
    = (StreamProcessor.skipped_diacritics (fst plain) + 1)%Z.
Proof.
  intros HS Hm Hi plain marked. subst plain marked.
  rewrite <- (firstn_skipn i S) at 3 6.
  assert (Hpre : Forall (fun c => clean c vs = Ok true \/ category_Mn c = true)
                        (firstn i S)).
  { rewrite <- (firstn_skipn i S) in HS. apply Forall_app in HS. apply HS. }
  assert (Hsuf : Forall (fun c => clean c vs = Ok true \/ category_Mn c = true)
                        (skipn i S)).
  { rewrite <- (firstn_skipn i S) in HS. apply Forall_app in HS. apply HS. }
  unfold codepoints. rewrite !map_app, !feed_app. simpl map.
  fold (codepoints (firstn i S)). fold (codepoints (skipn i S)).
  pose proof (feed_running vs _ _ auto_reset (running_init d vs) Hpre) as Hrun.
  destruct (StreamProcessor.feed (StreamProcessor.init d vs)
              (codepoints (firstn i S)) auto_reset) as [s1 v1].
  simpl in Hrun. simpl StreamProcessor.feed.
  rewrite (process_char_mark s1 m auto_reset (proj1 Hrun) Hm).
  rewrite (feed_bump 1 vs s1 _ auto_reset Hrun Hsuf).
  pose proof (feed_length s1 (codepoints (skipn i S)) auto_reset) as Hlen.
  destruct (StreamProcessor.feed s1 (codepoints (skipn i S)) auto_reset) as [s2 v2].
  simpl in Hlen. split; [|reflexivity].
  unfold final_verdict. simpl snd. f_equal.
  assert (Hne : exists y, last v2 = Some y).
  { destruct v2 as [|y v2] using rev_ind.
    - unfold codepoints in Hlen. rewrite length_map, length_skipn in Hlen.
      simpl in Hlen. lia.
    - exists y. apply last_snoc. }
  destruct Hne as [y Hy].
  rewrite last_app. rewrite (last_app v1 v2).
  change (last ((false, None, []) :: v2)) with (last (([(false, None, [])] : list verdict) ++ v2)).
  rewrite last_app, Hy. reflexivity.
Qed.

Lemma diacritic_transparency_witness :
  let S := lit "aba" in
  let m := 0x301%N in
  Forall (fun c => clean (U := pinned blank) c None = Ok true
                   \/ category_Mn (Unicode := pinned blank) c = true) S /\
  category_Mn (Unicode := pinned blank) m = true /\
  1 < length S /\
  final_verdict (run_stream (U := pinned blank) Ltr None
                   (codepoints (lit "a" ++ m :: lit "ba")) false) = Some true /\
  final_verdict (run_stream (U := pinned blank) Ltr None
                   (codepoints S) false) = Some true /\
  StreamProcessor.skipped_diacritics
    (fst (StreamProcessor.feed (U := pinned blank) (StreamProcessor.init Ltr None)
            (codepoints (lit "a" ++ m :: lit "ba")) false)) = 1%Z.
Proof.
  intros S m.
  assert (HS : Forall (fun c => clean (U := pinned blank) c None = Ok true
                   \/ category_Mn (Unicode := pinned blank) c = true) S).
  { repeat constructor. }
  assert (Hm : category_Mn (Unicode := pinned blank) m = true) by reflexivity.
  assert (Hi : 1 < length S) by (simpl; lia).
  destruct (diacritic_transparency (pinned blank) Ltr None false S 1 m HS Hm Hi)
    as [Hv Hc].
  split; [exact HS|]. split; [exact Hm|]. split; [exact Hi|].
  split; [|split].
  - etransitivity; [exact Hv|]. vm_compute. reflexivity.
  - vm_compute. reflexivity.
  - etransitivity; [exact Hc|]. vm_compute. reflexivity.
Defined.

(** A mark after the last character is the last thing the engine sees;
    its own verdict is [False] whatever the window is. *)
Lemma mark_after_last_character (U : Unicode) (d : Direction)
    (vs : option (list str)) (auto_reset : bool) (S : list cp) (m : cp) :
  Forall (fun c => clean c vs = Ok true \/ category_Mn c = true) S ->
  category_Mn m = true ->
  final_verdict (run_stream d vs (codepoints (S ++ [m])) auto_reset) = Some false.
Proof.
  intros HS Hm. unfold run_stream, codepoints.
  rewrite map_app, feed_app. fold (codepoints S).
  pose proof (feed_running vs _ _ auto_reset (running_init d vs) HS) as Hrun.
  destruct (StreamProcessor.feed (StreamProcessor.init d vs) (codepoints S)
              auto_reset) as [s1 v1].
  simpl in Hrun. simpl.
  rewrite (process_char_mark s1 m auto_reset (proj1 Hrun) Hm). simpl.
  unfold final_verdict. rewrite last_snoc. reflexivity.
Qed.

(** ** Runs of the scanner *)

Section Runs.
Context {U : Unicode}.
Variable vs : option (list str).


Lemma current_ok_run paragraph i current start_pos e :
  current_ok vs paragraph i current start_pos -> current <> [] ->
  run_ok vs paragraph (start_pos, e, current).
Proof. intros [-> | (H0 & _ & H)] Hne; [contradiction|]. split; assumption. Qed.

Lemma current_ok_snoc pre char rest current start_pos :
  clean char vs = Ok true ->
  current_ok vs (pre ++ char :: rest) (length pre) current start_pos ->
  current_ok vs (pre ++ char :: rest) (S (length pre)) (current ++ [char])
    (match current with [] => Z.of_nat (length pre) | _ => start_pos end).
Proof.
  intros Hc [-> | (H0 & Hlen & H)]; right.
  - simpl. split; [lia|]. split; [lia|].
    intros [|n] c; simpl; [|discriminate]. intros [= <-].
    rewrite Nat2Z.id, Nat.add_0_r, list_lookup_middle by reflexivity. auto.
  - assert (Hs : match current with
                 | [] => Z.of_nat (length pre) | _ => start_pos end = start_pos).
    { destruct current; [simpl in Hlen|reflexivity]. lia. }
    rewrite Hs. split; [assumption|]. split; [rewrite length_app; simpl; lia|].
    intros n c Hn. destruct (decide (n < length current)) as [Hlt|Hge].
    + rewrite lookup_app_l in Hn by assumption. apply H, Hn.
    + rewrite lookup_app_r in Hn by lia.
      destruct (n - length current) as [|k] eqn:Hk; simpl in Hn; [|discriminate].
      injection Hn as <-.
      replace (Z.to_nat start_pos + n)%nat with (length pre) by lia.
      rewrite list_lookup_middle by reflexivity. auto.
Qed.

Lemma extract_runs_ok paragraph rest : forall pre valid_sequences current start_pos,
  paragraph = pre ++ rest ->
  Forall (run_ok vs paragraph) valid_sequences ->
  current_ok vs paragraph (length pre) current start_pos ->
  let '(valid_sequences', current', start_pos') :=
    extract_runs (Z.of_nat (length pre)) rest vs valid_sequences current start_pos in
  Forall (run_ok vs paragraph) valid_sequences' /\
  current_ok vs paragraph (length paragraph) current' start_pos'.
Proof.
  induction rest as [|char rest IH]; intros pre seqs cur sp -> Hseqs Hcur.
  - simpl. rewrite app_nil_r in *. auto.
  - cbn [extract_runs].
    assert (Hstep : forall seqs' cur' sp',
               Forall (run_ok vs (pre ++ char :: rest)) seqs' ->
               current_ok vs (pre ++ char :: rest) (S (length pre)) cur' sp' ->
               let '(a, b, c) :=
                 extract_runs (Z.of_nat (length pre) + 1) rest vs seqs' cur' sp' in
               Forall (run_ok vs (pre ++ char :: rest)) a /\
               current_ok vs (pre ++ char :: rest) (length (pre ++ char :: rest)) b c).
    { intros seqs' cur' sp' H1 H2.
      specialize (IH (pre ++ [char]) seqs' cur' sp').
      rewrite length_app in IH. simpl in IH.
      replace (Z.of_nat (length pre + 1)) with (Z.of_nat (length pre) + 1)%Z in IH by lia.
      rewrite <- app_assoc in IH. simpl in IH.
      replace (length pre + 1)%nat with (S (length pre)) in IH by lia.
      apply IH; auto. }
    assert (Hrej :
              let '(a, b, c) :=
                match cur with
                | [] => extract_runs (Z.of_nat (length pre) + 1) rest vs seqs [] sp
                | _ :: _ =>
                    extract_runs (Z.of_nat (length pre) + 1) rest vs
                      (seqs ++ [(sp, (Z.of_nat (length pre) - 1)%Z, cur)]) [] sp
                end in
              Forall (run_ok vs (pre ++ char :: rest)) a /\
              current_ok vs (pre ++ char :: rest) (length (pre ++ char :: rest)) b c).
    { destruct cur as [|x cur'] eqn:Ecur.
      - apply Hstep; [assumption|left; reflexivity].
      - apply Hstep; [|left; reflexivity].
        apply Forall_app. split; [assumption|]. constructor; [|constructor].
        eapply current_ok_run; [exact Hcur|discriminate]. }
    destruct (clean char vs) as [[|]|e] eqn:Hc; try exact Hrej.
    apply Hstep; [assumption|]. apply current_ok_snoc; assumption.
Qed.

Lemma valid_sequences_ok paragraph :
  Forall (run_ok vs paragraph) (valid_sequences_of paragraph vs).
Proof.
  unfold valid_sequences_of.
  pose proof (extract_runs_ok paragraph paragraph [] [] [] 0%Z eq_refl
                (List.Forall_nil _) (or_introl eq_refl)) as H.
  change (Z.of_nat (length (@nil cp))) with 0%Z in H.
  destruct (extract_runs 0 paragraph vs [] [] 0) as [[seqs cur] sp].
  destruct H as [Hs Hc]. destruct cur as [|x cur]; [assumption|].
  apply Forall_app. split; [assumption|]. constructor; [|constructor].
  eapply current_ok_run; [exact Hc|discriminate].
Qed.


Lemma check_substring_ok paragraph start e sequence i j d min_length res :
  run_ok vs paragraph (start, e, sequence) ->
  i <= j < length sequence ->
  check_substring start sequence i j d vs min_length = Ok res ->
  Forall (within_accepted vs paragraph) res.
Proof.
  intros [H0 Hrun] Hij. unfold check_substring.
  destruct (_ <? min_length)%Z; [intros [= <-]; constructor|].
  destruct (drive _ _ _) as [[[p result] err] out].
  destruct result; [|intros [= <-]; constructor].
  destruct (String_Output _ _ _ _ _ _ _ _) as [o|]; [|discriminate].
  intros [= <-]. constructor; [|constructor].
  split; simpl; [lia|]. intros k Hk.
  destruct (lookup_lt_is_Some_2 sequence (Z.to_nat (k - start))) as [c Hc]; [lia|].
  exists c. destruct (Hrun _ _ Hc) as [Hp Hcl]. split; [|exact Hcl].
  rewrite <- Hp. f_equal. lia.
Qed.

Lemma collect_Forall {A B} (Q : B -> Prop)
    (f : A -> res UnallowedCharacterError (list B)) (l : list A) :
  (forall a x, In a l -> f a = Ok x -> Forall Q x) ->
  forall res, collect f l = Ok res -> Forall Q res.
Proof.
  induction l as [|a l IH]; intros Hf res; simpl.
  - intros [= <-]. constructor.
  - destruct (f a) as [x|] eqn:Ha; simpl; [|discriminate].
    destruct (collect f l) as [y|]; simpl; [|discriminate].
    intros [= <-]. apply Forall_app. split.
    + apply (Hf a); [left; reflexivity|exact Ha].
    + apply IH; [|reflexivity]. intros a' x' Hin. apply Hf. right. exact Hin.
Qed.

Lemma check_sequence_ok paragraph d min_length r res :
  run_ok vs paragraph r ->
  check_sequence d vs min_length r = Ok res ->
  Forall (within_accepted vs paragraph) res.
Proof.
  destruct r as [[start e] sequence]. intros Hr. unfold check_sequence.
  apply collect_Forall. intros i x Hi. apply collect_Forall.
  intros j y Hj. apply in_seq in Hi, Hj.
  eapply check_substring_ok; [exact Hr|lia].
Qed.

(** Two characters that are both not accepted end a run alike, whether
    [clean] returns [False] for them or raises. *)
Lemma extract_runs_rejected m x p2 :
  clean m vs <> Ok true -> clean x vs <> Ok true ->
  forall p1 i valid_sequences current start_pos,
    extract_runs i (p1 ++ m :: p2) vs valid_sequences current start_pos =
    extract_runs i (p1 ++ x :: p2) vs valid_sequences current start_pos.
Proof.
  intros Hm Hx. induction p1 as [|a p1 IH]; intros i seqs cur sp.
  - cbn [app extract_runs].
    destruct (clean m vs) as [[|]|], (clean x vs) as [[|]|];
      try contradiction; reflexivity.
  - cbn [app extract_runs].
    destruct (clean a vs) as [[|]|]; destruct cur; apply IH.
Qed.

Lemma valid_sequences_rejected m x p1 p2 :
  clean m vs <> Ok true -> clean x vs <> Ok true ->
  valid_sequences_of (p1 ++ m :: p2) vs = valid_sequences_of (p1 ++ x :: p2) vs.
Proof.
  intros Hm Hx. unfold valid_sequences_of.
  rewrite (extract_runs_rejected m x p2 Hm Hx).
  rewrite !length_app. reflexivity.
Qed.

(** White space alone makes no run. *)
Lemma extract_runs_blank s : forall i start_pos,
  forallb isspace s = true ->
  extract_runs i s vs [] [] start_pos = ([], [], start_pos).
Proof.
  induction s as [|c s IH]; intros i sp Hs; [reflexivity|].
  simpl in Hs. apply andb_true_iff in Hs as [Hc Hs].
  cbn [extract_runs]. unfold clean. rewrite Hc. simpl. apply IH, Hs.
Qed.

Lemma valid_sequences_blank s :
  is_empty s = true -> valid_sequences_of s vs = [].
Proof.
  unfold is_empty, str_isspace, valid_sequences_of. intros H.
  destruct s as [|c s]; [reflexivity|]. simpl in H.
  rewrite extract_runs_blank by exact H. reflexivity.
Qed.

Lemma clean_mark m : category_Mn m = true -> clean m vs = Ok false.
Proof. intros Hm. unfold clean. rewrite Hm, orb_true_r. reflexivity. Qed.

Lemma is_empty_with_mark p1 m p2 :
  category_Mn m = true -> is_empty (p1 ++ m :: p2) = false.
Proof.
  intros Hm. unfold is_empty, str_isspace.
  rewrite forallb_app. simpl. rewrite (Mn_not_space m Hm).
  rewrite andb_false_r, andb_false_r, orb_false_r.
  rewrite length_app. simpl. apply Nat.eqb_neq. lia.
Qed.
End Runs.

(** C10. In the scanner a combining mark ends the current run exactly as
    a rejected symbol does: replacing the mark by any character that is
    not accepted (one for which [clean] returns [False] or raises) changes
    neither the runs nor the result of the scan.  And whatever the scan
    reports lies inside the paragraph and covers accepted characters only,
    so no reported palindrome spans a combining mark; the engine's silent
    skipping of marks plays no part, the runs never contain one. *)
Theorem marks_break_runs (U : Unicode) (d : Direction)
    (vs : option (list str)) (min_length : Z) :
  (forall (p1 p2 : list cp) (m x : cp),
     category_Mn m = true -> clean x vs <> Ok true ->
     valid_sequences_of (p1 ++ m :: p2) vs = valid_sequences_of (p1 ++ x :: p2) vs /\
     find_palindromes_in_paragraph (PyStr (p1 ++ m :: p2)) d vs min_length
       = find_palindromes_in_paragraph (PyStr (p1 ++ x :: p2)) d vs min_length) /\
  (forall (paragraph : list cp) (results : list found),
     find_palindromes_in_paragraph (PyStr paragraph) d vs min_length = Ok results ->
     Forall (fun r =>
               (0 <= start_pos r <= end_pos r)%Z /\
               forall k, (start_pos r <= k <= end_pos r)%Z ->
                 exists c, paragraph !! Z.to_nat k = Some c /\
                           clean c vs = Ok true /\ category_Mn c = false)
            results).
Proof.
  split.
  - intros p1 p2 m x Hm Hx.
    assert (Hruns : valid_sequences_of (p1 ++ m :: p2) vs
                    = valid_sequences_of (p1 ++ x :: p2) vs).
    { apply valid_sequences_rejected; [|exact Hx].
      rewrite (clean_mark vs m Hm). discriminate. }
    split; [exact Hruns|].
    unfold find_palindromes_in_paragraph.
    rewrite (is_empty_with_mark p1 m p2 Hm), Hruns.
    destruct (is_empty (p1 ++ x :: p2)) eqn:He; [|reflexivity].
    rewrite (valid_sequences_blank vs _ He). reflexivity.
  - intros paragraph results. unfold find_palindromes_in_paragraph.
    destruct (is_empty paragraph); [intros [= <-]; constructor|].
    destruct (collect _ _) as [res|] eqn:Hres; [|discriminate].
    intros [= <-].
    assert (Hin : Forall (within_accepted vs paragraph) res).
    { revert Hres. apply collect_Forall. intros r x Hr.
      apply check_sequence_ok.
      pose proof (valid_sequences_ok vs paragraph) as Hok.
      rewrite List.Forall_forall in Hok. apply Hok, Hr. }
    eapply Forall_impl; [exact Hin|].
    intros r [Hpos Hcov]. split; [exact Hpos|].
    intros k Hk. destruct (Hcov k Hk) as (c & Hc & Hcl).
    exists c. split; [exact Hc|]. split; [exact Hcl|].
    unfold clean in Hcl.
    destruct (isspace c || category_Mn c) eqn:E; [discriminate|].
    apply orb_false_iff in E. apply E.
Qed.

Lemma marks_break_runs_witness :
  let p1 := lit "aa" in
  let p2 := lit "a" in
  let m := 0x301%N in
  let x := 44%N in
  category_Mn (Unicode := pinned blank) m = true /\
  clean (U := pinned blank) x None <> Ok true /\
  valid_sequences_of (U := pinned blank) (p1 ++ m :: p2) None
    = [(0, 1, lit "aa"); (3, 3, lit "a")]%Z /\
  valid_sequences_of (U := pinned blank) (p1 ++ x :: p2) None
    = [(0, 1, lit "aa"); (3, 3, lit "a")]%Z /\
  match find_palindromes_in_paragraph (U := pinned blank) (PyStr (p1 ++ m :: p2))
          Ltr None 1 with
  | Ok results =>
      map (fun r => (palindrome r, start_pos r, end_pos r)) results
        = [(lit "a", 0, 0); (lit "aa", 0, 1); (lit "a", 1, 1); (lit "a", 3, 3)]%Z /\
      Forall (fun r => ~ (start_pos r <= 2 <= end_pos r)%Z) results
  | Raise _ => False
  end.
Proof.
  intros p1 p2 m x.
  assert (Hm : category_Mn (Unicode := pinned blank) m = true) by reflexivity.
  assert (Hx : clean (U := pinned blank) x None <> Ok true) by discriminate.
  destruct (marks_break_runs (pinned blank) Ltr None 1) as [Hsame Hcover].
  destruct (Hsame p1 p2 m x Hm Hx) as [Hruns _].
  split; [exact Hm|]. split; [exact Hx|].
  split; [reflexivity|]. split; [etransitivity; [symmetry; exact Hruns|reflexivity]|].
  specialize (Hcover (p1 ++ m :: p2)).
  destruct (find_palindromes_in_paragraph (U := pinned blank)
              (PyStr (p1 ++ m :: p2)) Ltr None 1) as [results|e] eqn:Hf.
  - split; [vm_compute in Hf; injection Hf as <-; reflexivity|].
    eapply Forall_impl; [exact (Hcover results eq_refl)|].
    intros r [_ Hcov] Hspan. destruct (Hcov 2%Z Hspan) as (c & Hc & _ & Hmn).
    vm_compute in Hc. injection Hc as <-. discriminate Hmn.
  - vm_compute in Hf. discriminate Hf.
Defined.

(** * Further properties of the code *)

Unset Default Proof Using.

(** ** The classifier *)

Section ClassifierFacts.
Context {U : Unicode}.

Lemma one_of_one (c b : cp) : str_eqb [c] [b] = N.eqb c b.
Proof.
  unfold str_eqb. destruct (N.eqb_spec c b) as [->|Hne].
  - apply bool_decide_eq_true. reflexivity.
  - apply bool_decide_eq_false. intros [= H]. contradiction.
Qed.

Lemma one_of_two (c a b : cp) : str_eqb [c] [a; b] = false.
Proof. apply bool_decide_eq_false. discriminate. Qed.

(** Of the 27 entries of the allow-list only the seven strings of one
    code point can equal a character. *)
Lemma allow_list_single (c : cp) : str_in [c] ALLOWED_EMOJIS = is_emoji_base c.
Proof.
  unfold str_in, ALLOWED_EMOJIS, is_emoji_base. cbn [existsb].
  rewrite !one_of_one, !one_of_two.
  repeat match goal with
         | |- context [N.eqb c ?b] => destruct (N.eqb c b); cbn [orb]
         end; reflexivity.
Qed.

(** What [clean] answers for the default alphabet. *)
Lemma clean_without_alphabet (c : cp) :
  clean c None =
  if isspace c || category_Mn c then Ok false
  else if isalpha c || is_emoji_base c then Ok true
  else Raise (Unallowed (lit "Unallowed character '" ++ [c] ++ lit "'")).
Proof.
  unfold clean, is_emoticon. rewrite allow_list_single.
  destruct (isspace c); [reflexivity|]. cbn [orb].
  destruct (category_Mn c); [reflexivity|].
  destruct (isalpha c); [reflexivity|]. cbn [orb].
  destruct (is_emoji_base c); reflexivity.
Qed.
End ClassifierFacts.

(** X1. With the default alphabet [clean] depends on the character as
    follows: [False] for white space and non-spacing marks, [True] for a
    letter and for one of the seven base emoji, and the exception with
    the message naming the character for everything else; the twenty
    skin-tone entries of the allow-list play no part. *)
Theorem clean_default_alphabet (U : Unicode) (c : cp) :
  clean c None =
  if isspace c || category_Mn c then Ok false
  else if isalpha c || is_emoji_base c then Ok true
  else Raise (Unallowed (lit "Unallowed character '" ++ [c] ++ lit "'")).
Proof. apply clean_without_alphabet. Qed.


(** ** Cursors *)

(** X3. A cursor's validity is latched: on an invalid cursor [get_hash]
    returns [None] without touching the cache or the recorded characters,
    and neither [get_hash] nor [advance] makes the cursor valid again. *)
Theorem cursor_validity_latched (U : Unicode) (buffer : list cp) (c : Cursor.t)
    (cache : gmap cp Z) :
  Cursor.valid c = false ->
  Left.get_hash buffer c cache = (c, cache, Ok None) /\
  Right.get_hash buffer c cache = (c, cache, Ok None) /\
  Cursor.valid (Left.advance buffer c) = false /\
  Cursor.valid (Right.advance buffer c) = false.
Proof.
  intros Hv. destruct c as [p d vs v cs]. simpl in Hv. subst v.
  repeat split.
  - unfold Left.advance. cbn.
    match goal with |- context [if ?b then _ else _] => destruct b end; reflexivity.
  - unfold Right.advance. cbn.
    match goal with |- Cursor.valid (if ?b then _ else _) = _ => destruct b end;
      reflexivity.
Qed.

Lemma cursor_validity_latched_witness :
  let c := Cursor.Build 5 Ltr None false [] in
  Cursor.valid c = false /\
  Left.get_hash (U := pinned blank) (lit "ab") c empty = (c, empty, Ok None) /\
  Right.get_hash (U := pinned blank) (lit "ab") c empty = (c, empty, Ok None) /\
  Cursor.valid (Left.advance (lit "ab") c) = false /\
  Cursor.valid (Right.advance (lit "ab") c) = false.
Proof.
  intros c. split; [reflexivity|].
  exact (cursor_validity_latched (pinned blank) (lit "ab") c empty eq_refl).
Defined.

(** ** The engine's state *)

Section EngineState.
Context {U : Unicode}.

Lemma character_error_fields e s :
  let s' := fst (StreamProcessor.character_error e s) in
  StreamProcessor.direction s' = StreamProcessor.direction s /\
  StreamProcessor.valid_chars s' = StreamProcessor.valid_chars s /\
  StreamProcessor.buffer s' = StreamProcessor.buffer s /\
  StreamProcessor.skipped_diacritics s' = StreamProcessor.skipped_diacritics s /\
  StreamProcessor.skipped_spaces s' = StreamProcessor.skipped_spaces s.
Proof. destruct e. repeat split. Qed.

Lemma conclude_fields s w :
  let s' := fst (StreamProcessor.conclude s w) in
  StreamProcessor.direction s' = StreamProcessor.direction s /\
  StreamProcessor.valid_chars s' = StreamProcessor.valid_chars s /\
  StreamProcessor.buffer s' = StreamProcessor.buffer s /\
  StreamProcessor.skipped_diacritics s' = StreamProcessor.skipped_diacritics s /\
  StreamProcessor.skipped_spaces s' = StreamProcessor.skipped_spaces s.
Proof.
  destruct w as [[l r c|l r c|[msg] l r c]|]; repeat split.
Qed.

Lemma append_and_validate_fields s c :
  let s' := fst (StreamProcessor.append_and_validate s c) in
  StreamProcessor.direction s' = StreamProcessor.direction s /\
  StreamProcessor.valid_chars s' = StreamProcessor.valid_chars s /\
  StreamProcessor.buffer s' = StreamProcessor.buffer s ++ [c] /\
  StreamProcessor.skipped_diacritics s' = StreamProcessor.skipped_diacritics s /\
  StreamProcessor.skipped_spaces s' = StreamProcessor.skipped_spaces s.
Proof.
  unfold StreamProcessor.append_and_validate, StreamProcessor.start_positions.
  destruct s as [buf d vs l r ce va em st sd ss hc].
  cbn [StreamProcessor.direction StreamProcessor.set_buffer].
  destruct d;
    match goal with
    | |- context [StreamProcessor.conclude ?s ?w] =>
        pose proof (conclude_fields s w) as H; cbv zeta in H
    end; exact H.
Qed.

Lemma process_char_parameters s c ar :
  let s' := fst (StreamProcessor.process_char s c ar) in
  StreamProcessor.direction s' = StreamProcessor.direction s /\
  StreamProcessor.valid_chars s' = StreamProcessor.valid_chars s.
Proof.
  unfold StreamProcessor.process_char.
  destruct (StreamProcessor.stopped s && negb ar); [split; reflexivity|].
  assert (H0 : StreamProcessor.direction
                 (if StreamProcessor.stopped s then StreamProcessor.reset s else s)
               = StreamProcessor.direction s /\
               StreamProcessor.valid_chars
                 (if StreamProcessor.stopped s then StreamProcessor.reset s else s)
               = StreamProcessor.valid_chars s).
  { destruct (StreamProcessor.stopped s); split; reflexivity. }
  destruct H0 as [Hd Hv].
  set (s0 := if StreamProcessor.stopped s then StreamProcessor.reset s else s) in *.
  destruct c as [| z | [|c [|c' w]]]; try (split; assumption).
  destruct (isspace c); [split; assumption|].
  destruct (category_Mn c); [split; assumption|].
  destruct (clean c (StreamProcessor.valid_chars s0)) as [[|]|e].
  - destruct (append_and_validate_fields s0 c) as (H1 & H2 & _).
    cbv zeta. rewrite H1, H2. split; assumption.
  - split; assumption.
  - destruct (character_error_fields e s0) as (H1 & H2 & _).
    cbv zeta. rewrite H1, H2. split; assumption.
Qed.

Lemma feed_parameters s cs ar :
  let s' := fst (StreamProcessor.feed s cs ar) in
  StreamProcessor.direction s' = StreamProcessor.direction s /\
  StreamProcessor.valid_chars s' = StreamProcessor.valid_chars s.
Proof.
  revert s. induction cs as [|c cs IH]; intros s; [split; reflexivity|].
  cbn [StreamProcessor.feed].
  pose proof (process_char_parameters s c ar) as H.
  destruct (StreamProcessor.process_char s c ar) as [s1 v]. cbv zeta in H. simpl in H.
  specialize (IH s1). destruct (StreamProcessor.feed s1 cs ar) as [s2 vs2].
  cbv zeta in *. simpl in *. destruct H as [H1 H2], IH as [I1 I2].
  split; congruence.
Qed.
End EngineState.

(** X4. An engine keeps its topology and its alphabet for life, so
    resetting it after any run and replaying the same inputs gives the
    verdicts, and the final state, of the first run. *)
Theorem reset_and_replay (U : Unicode) (d : Direction) (vs : option (list str))
    (inputs : list pyobj) (auto_reset : bool) :
  let used := fst (StreamProcessor.feed (StreamProcessor.init d vs) inputs auto_reset) in
  StreamProcessor.direction used = d /\
  StreamProcessor.valid_chars used = vs /\
  StreamProcessor.feed (StreamProcessor.reset used) inputs auto_reset
    = StreamProcessor.feed (StreamProcessor.init d vs) inputs auto_reset.
Proof.
  intros used.
  destruct (feed_parameters (StreamProcessor.init d vs) inputs auto_reset) as [Hd Hv].
  fold used in Hd, Hv. simpl in Hd, Hv.
  split; [exact Hd|]. split; [exact Hv|].
  unfold StreamProcessor.reset. rewrite Hd, Hv. reflexivity.
Qed.

Section BufferFacts.
Context {U : Unicode}.

Lemma process_char_buffer_ok s c ar :
  buffer_ok s -> buffer_ok (fst (StreamProcessor.process_char s c ar)).
Proof.
  intros Hs. unfold StreamProcessor.process_char.
  destruct (StreamProcessor.stopped s && negb ar); [exact Hs|].
  assert (H0 : buffer_ok (if StreamProcessor.stopped s
                          then StreamProcessor.reset s else s)).
  { destruct (StreamProcessor.stopped s); [constructor|exact Hs]. }
  set (s0 := if StreamProcessor.stopped s then StreamProcessor.reset s else s) in *.
  destruct c as [| z | [|c [|c' w]]]; try exact H0.
  destruct (isspace c); [exact H0|].
  destruct (category_Mn c); [exact H0|].
  destruct (clean c (StreamProcessor.valid_chars s0)) as [[|]|[msg]] eqn:Hc;
    try exact H0.
  destruct (append_and_validate_fields s0 c) as (_ & H2 & H3 & _).
  unfold buffer_ok. cbv zeta in H2, H3. rewrite H2, H3.
  apply Forall_app. split; [exact H0|]. constructor; [exact Hc|constructor].
Qed.

Lemma feed_buffer_ok s cs ar :
  buffer_ok s -> buffer_ok (fst (StreamProcessor.feed s cs ar)).
Proof.
  revert s. induction cs as [|c cs IH]; intros s Hs; [exact Hs|].
  cbn [StreamProcessor.feed].
  pose proof (process_char_buffer_ok s c ar Hs) as H.
  destruct (StreamProcessor.process_char s c ar) as [s1 v]. simpl in H.
  specialize (IH s1 H). destruct (StreamProcessor.feed s1 cs ar). exact IH.
Qed.

(** What one non-raising character does to a running engine. *)
Lemma process_char_effect vs s c ar b :
  running vs s -> clean c vs = Ok b ->
  let s' := fst (StreamProcessor.process_char s (PyStr [c]) ar) in
  running vs s' /\
  StreamProcessor.buffer s' = StreamProcessor.buffer s ++ (if b then [c] else []) /\
  StreamProcessor.skipped_spaces s'
    = (StreamProcessor.skipped_spaces s + (if isspace c then 1 else 0))%Z /\
  StreamProcessor.skipped_diacritics s'
    = (StreamProcessor.skipped_diacritics s + (if category_Mn c then 1 else 0))%Z.
Proof.
  intros Hrun Hc.
  destruct (isspace c) eqn:Hsp.
  { assert (b = false) as ->.
    { unfold clean in Hc. rewrite Hsp in Hc. simpl in Hc. congruence. }
    assert (Hmn : category_Mn c = false).
    { destruct (category_Mn c) eqn:E; [|reflexivity].
      rewrite (Mn_not_space c E) in Hsp. discriminate. }
    destruct Hrun as (Hs & Hv & Hb).
    unfold StreamProcessor.process_char. rewrite Hs, Hsp, Hmn. cbn.
    rewrite app_nil_r, Z.add_0_r. repeat split; assumption. }
  destruct (category_Mn c) eqn:Hmn.
  { assert (b = false) as ->.
    { unfold clean in Hc. rewrite Hsp, Hmn in Hc. simpl in Hc. congruence. }
    destruct Hrun as (Hs & Hv & Hb).
    unfold StreamProcessor.process_char. rewrite Hs, Hsp, Hmn. cbn.
    rewrite app_nil_r, Z.add_0_r. repeat split; assumption. }
  destruct b.
  - pose proof (process_char_running vs s c ar Hrun (or_introl Hc)) as Hrun'.
    destruct Hrun as (Hs & Hv & Hb).
    rewrite process_char_accepted in * by (rewrite ?Hv; assumption).
    destruct (append_and_validate_fields s c) as (_ & _ & H3 & H4 & H5).
    cbv zeta in *. rewrite H3, H4, H5, !Z.add_0_r. repeat split; try apply Hrun'.
  - destruct Hrun as (Hs & Hv & Hb).
    unfold StreamProcessor.process_char. rewrite Hs, Hsp, Hmn, Hv, Hc. cbn.
    rewrite app_nil_r, !Z.add_0_r. repeat split; assumption.
Qed.

Lemma feed_effect vs s (S : list cp) ar :
  running vs s ->
  Forall (fun c => exists b, clean c vs = Ok b) S ->
  let s' := fst (StreamProcessor.feed s (codepoints S) ar) in
  running vs s' /\
  StreamProcessor.buffer s' = StreamProcessor.buffer s ++ List.filter (accepts vs) S /\
  StreamProcessor.skipped_spaces s'
    = (StreamProcessor.skipped_spaces s + Z.of_nat (length (List.filter isspace S)))%Z /\
  StreamProcessor.skipped_diacritics s'
    = (StreamProcessor.skipped_diacritics s
       + Z.of_nat (length (List.filter category_Mn S)))%Z.
Proof.
  revert s. induction S as [|c S IH]; intros s Hrun HS.
  - cbn. rewrite app_nil_r, !Z.add_0_r. repeat split; apply Hrun.
  - apply Forall_cons in HS as [[b Hc] HS].
    cbn [codepoints map StreamProcessor.feed]. fold (codepoints S).
    pose proof (process_char_effect vs s c ar b Hrun Hc) as H.
    destruct (StreamProcessor.process_char s (PyStr [c]) ar) as [s1 v].
    cbv zeta in H. simpl in H. destruct H as (Hrun1 & Hb1 & Hs1 & Hd1).
    specialize (IH s1 Hrun1 HS).
    destruct (StreamProcessor.feed s1 (codepoints S) ar) as [s2 v2].
    cbv zeta in IH |- *. simpl in IH |- *.
    destruct IH as (Hrun2 & Hb2 & Hs2 & Hd2).
    split; [exact Hrun2|].
    unfold accepts at 1. rewrite Hc.
    rewrite Hb2, Hb1, Hs2, Hs1, Hd2, Hd1, <- app_assoc.
    destruct b, (isspace c), (category_Mn c); cbn [length app]; repeat split; lia.
Qed.
End BufferFacts.

(** X5. Whatever is fed to a fresh engine, values that are not characters
    and resets included, its buffer only ever holds characters that
    [clean] accepts for the engine's alphabet; none of them is white space
    or a combining mark. *)
Theorem buffer_holds_accepted (U : Unicode) (d : Direction)
    (vs : option (list str)) (inputs : list pyobj) (auto_reset : bool) :
  Forall (fun c => clean c vs = Ok true /\ isspace c = false /\ category_Mn c = false)
    (StreamProcessor.buffer
       (fst (StreamProcessor.feed (StreamProcessor.init d vs) inputs auto_reset))).
Proof.
  pose proof (feed_buffer_ok (StreamProcessor.init d vs) inputs auto_reset
                (List.Forall_nil _)) as H.
  unfold buffer_ok in H.
  destruct (feed_parameters (StreamProcessor.init d vs) inputs auto_reset) as [_ Hv].
  cbv zeta in Hv. rewrite Hv in H. simpl in H.
  eapply Forall_impl; [exact H|]. intros c Hc. split; [exact Hc|].
  apply clean_true_not_skipped in Hc. exact Hc.
Qed.

(** X6. For a stream of characters none of which makes [clean] raise, a
    fresh engine never stops, its buffer is the stream with everything
    [clean] does not accept removed, and its two counters are the numbers
    of white-space characters and of combining marks in the stream. *)
Theorem stream_effect (U : Unicode) (d : Direction) (vs : option (list str))
    (S : list cp) (auto_reset : bool) :
  Forall (fun c => exists b, clean c vs = Ok b) S ->
  let s := fst (StreamProcessor.feed (StreamProcessor.init d vs) (codepoints S)
                  auto_reset) in
  StreamProcessor.stopped s = false /\
  StreamProcessor.buffer s = List.filter (accepts vs) S /\
  StreamProcessor.skipped_spaces s = Z.of_nat (length (List.filter isspace S)) /\
  StreamProcessor.skipped_diacritics s
    = Z.of_nat (length (List.filter category_Mn S)).
Proof.
  intros HS s.
  destruct (feed_effect vs (StreamProcessor.init d vs) S auto_reset
              (running_init d vs) HS) as (Hrun & Hb & Hsp & Hd).
  fold s in Hrun, Hb, Hsp, Hd. simpl in Hb, Hsp, Hd.
  split; [apply Hrun|]. split; [exact Hb|]. split; assumption.
Qed.

Lemma stream_effect_witness :
  let S := lit "a b" ++ [0x301%N] ++ lit "A" in
  Forall (fun c => exists b, clean (U := pinned blank) c None = Ok b) S /\
  let s := fst (StreamProcessor.feed (U := pinned blank)
                  (StreamProcessor.init Ltr None) (codepoints S) false) in
  StreamProcessor.stopped s = false /\
  StreamProcessor.buffer s = lit "abA" /\
  StreamProcessor.skipped_spaces s = 1%Z /\
  StreamProcessor.skipped_diacritics s = 1%Z.
Proof.
  intros S.
  assert (HS : Forall (fun c => exists b, clean (U := pinned blank) c None = Ok b) S).
  { repeat constructor; eexists; reflexivity. }
  split; [exact HS|].
  exact (stream_effect (pinned blank) Ltr None S false HS).
Defined.

Section VerdictFacts.
Context {U : Unicode}.

Lemma coherent_running s :
  coherent s -> StreamProcessor.stopped s = false ->
  StreamProcessor.error_msg s = None.
Proof.
  intros [_ H] Hs. destruct (StreamProcessor.error_msg s) eqn:E; [|reflexivity].
  rewrite H in Hs by eauto. discriminate.
Qed.

Lemma coherent_stopped_some (m : str) s :
  StreamProcessor.stopped s = true -> StreamProcessor.error_msg s = Some m ->
  coherent s.
Proof. intros Hs He. unfold coherent. rewrite Hs, He. split; eauto. Qed.

Lemma coherent_running_none s :
  StreamProcessor.stopped s = false -> StreamProcessor.error_msg s = None ->
  coherent s.
Proof.
  intros Hs He. unfold coherent. rewrite Hs, He. split; [discriminate|].
  intros [x Hx]. discriminate.
Qed.

Lemma character_error_shaped e s : well_shaped (StreamProcessor.character_error e s).
Proof.
  destruct e as [msg]. cbn. split; [|repeat split; congruence].
  eapply coherent_stopped_some; reflexivity.
Qed.

Lemma conclude_shaped s w :
  StreamProcessor.stopped s = false -> StreamProcessor.error_msg s = None ->
  well_shaped (StreamProcessor.conclude s w).
Proof.
  intros Hs He. destruct w as [[l r c|l r c|e l r c]|].
  - cbn. split; [apply coherent_running_none; [exact Hs|reflexivity]|].
    split; [reflexivity|]. split; [reflexivity|].
    intros Hb. rewrite Hb. reflexivity.
  - cbn. split; [apply coherent_running_none; assumption|].
    repeat split; congruence.
  - apply character_error_shaped.
  - cbn. split; [apply coherent_running_none; assumption|].
    repeat split; congruence.
Qed.

Lemma process_char_shaped s c ar :
  coherent s -> well_shaped (StreamProcessor.process_char s c ar).
Proof.
  intros Hco. unfold StreamProcessor.process_char.
  destruct (StreamProcessor.stopped s && negb ar) eqn:Hst.
  { cbn. split; [exact Hco|]. repeat split; congruence. }
  assert (H0 : StreamProcessor.stopped
                 (if StreamProcessor.stopped s then StreamProcessor.reset s else s)
               = false /\
               StreamProcessor.error_msg
                 (if StreamProcessor.stopped s then StreamProcessor.reset s else s)
               = None).
  { destruct (StreamProcessor.stopped s) eqn:E; [split; reflexivity|].
    split; [exact E|]. apply coherent_running; assumption. }
  destruct H0 as [Hs0 He0].
  set (s0 := if StreamProcessor.stopped s then StreamProcessor.reset s else s) in *.
  assert (Hplain : forall s1,
             StreamProcessor.stopped s1 = false ->
             StreamProcessor.error_msg s1 = None ->
             well_shaped (s1, (false, None, []))).
  { intros s1 H1 H2. cbn. split; [apply coherent_running_none; assumption|].
    repeat split; congruence. }
  assert (Hbad : well_shaped
            (StreamProcessor.set_stopped true
               (StreamProcessor.set_error_msg
                  (Some (lit "Input Error: Invalid character"))
                  (StreamProcessor.set_valid false s0)),
             (false, Some (lit "Input Error: Invalid character"), []))).
  { cbn. split; [eapply coherent_stopped_some; reflexivity|].
    repeat split; congruence. }
  destruct c as [| z | [|c [|c' w]]]; try exact Hbad.
  destruct (isspace c); [apply Hplain; assumption|].
  destruct (category_Mn c); [apply Hplain; assumption|].
  destruct (clean c (StreamProcessor.valid_chars s0)) as [[|]|e].
  - unfold StreamProcessor.append_and_validate, StreamProcessor.start_positions.
    destruct (StreamProcessor.direction _); apply conclude_shaped; assumption.
  - apply Hplain; assumption.
  - apply character_error_shaped.
Qed.
End VerdictFacts.

(** X7. The stopped flag and the stored error go together, and every
    call of [process_char] keeps it so.  The error a call returns is the
    stored one, so a verdict carries an error exactly when the engine is
    stopped after the call; a [True] verdict carries none, and a [False]
    verdict never comes with recorded characters. *)
Theorem verdict_shape (U : Unicode) (s : StreamProcessor.t) (c : pyobj)
    (auto_reset : bool) :
  coherent s ->
  let '(s', (b, e, chars)) := StreamProcessor.process_char s c auto_reset in
  coherent s' /\
  (is_Some e <-> StreamProcessor.stopped s' = true) /\
  (b = true -> e = None) /\
  (b = false -> chars = []).
Proof.
  intros Hco. pose proof (process_char_shaped s c auto_reset Hco) as H.
  destruct (StreamProcessor.process_char s c auto_reset) as [s' [[b e] chars]].
  destruct H as (H1 & H2 & H3 & H4).
  split; [exact H1|]. split; [|split; assumption].
  rewrite H2. symmetry. exact H1.
Qed.

Lemma verdict_shape_witness :
  coherent (StreamProcessor.init Ltr None) /\
  let '(s', (b, e, chars)) :=
    StreamProcessor.process_char (U := pinned blank) (StreamProcessor.init Ltr None)
      (PyStr (lit "?")) false in
  coherent s' /\
  (is_Some e <-> StreamProcessor.stopped s' = true) /\
  (b = true -> e = None) /\
  (b = false -> chars = []).
Proof.
  assert (H : coherent (StreamProcessor.init Ltr None)).
  { apply coherent_running_none; reflexivity. }
  split; [exact H|].
  exact (verdict_shape (pinned blank) (StreamProcessor.init Ltr None)
           (PyStr (lit "?")) false H).
Defined.

Section CounterFacts.
Context {U : Unicode}.

Lemma shift_counters_zero s : shift_counters 0 0 s = s.
Proof.
  destruct s. unfold shift_counters. cbn. rewrite !Z.add_0_r. reflexivity.
Qed.

(** On a stopped engine a call with [auto_reset] is a call on the engine
    [reset] gives. *)
Lemma process_char_auto_reset s c :
  StreamProcessor.stopped s = true ->
  StreamProcessor.process_char s c true
    = StreamProcessor.process_char (StreamProcessor.reset s) c true.
Proof. intros Hs. unfold StreamProcessor.process_char. rewrite Hs. reflexivity. Qed.

Lemma process_char_shift_running a b s c ar :
  StreamProcessor.stopped s = false ->
  StreamProcessor.process_char (shift_counters a b s) c ar =
  let '(s', v) := StreamProcessor.process_char s c ar in
  (shift_counters a b s', v).
Proof.
  intros Hs. destruct s as [buf d vs l r ce va em st sd ss hc].
  cbn in Hs. subst st. unfold StreamProcessor.process_char, shift_counters.
  cbn [StreamProcessor.stopped StreamProcessor.set_skipped_spaces
       StreamProcessor.set_skipped_diacritics StreamProcessor.skipped_spaces
       StreamProcessor.skipped_diacritics StreamProcessor.buffer
       StreamProcessor.direction StreamProcessor.valid_chars StreamProcessor.left
       StreamProcessor.right StreamProcessor.center StreamProcessor.valid
       StreamProcessor.error_msg StreamProcessor.hash_cache andb].
  destruct c as [| z | [|c [|c' w]]]; try reflexivity.
  destruct (isspace c).
  { cbn. replace (ss + b + 1)%Z with (ss + 1 + b)%Z by lia. reflexivity. }
  destruct (category_Mn c).
  { cbn. replace (sd + a + 1)%Z with (sd + 1 + a)%Z by lia. reflexivity. }
  destruct (clean c vs) as [[|]|[msg]]; try reflexivity.
  unfold StreamProcessor.append_and_validate, StreamProcessor.start_positions.
  destruct d; cbn -[StreamProcessor.validate];
    match goal with
    | |- context [StreamProcessor.validate ?f ?b ?d ?l ?r ?h] =>
        destruct (StreamProcessor.validate f b d l r h) as [[? ? ?|? ? ?|[?] ? ? ?]|]
    end; reflexivity.
Qed.

Lemma process_char_shift a b s c ar :
  exists a' b',
    StreamProcessor.process_char (shift_counters a b s) c ar =
    let '(s', v) := StreamProcessor.process_char s c ar in
    (shift_counters a' b' s', v).
Proof.
  destruct (StreamProcessor.stopped s) eqn:Hs.
  - destruct ar.
    + exists 0%Z, 0%Z.
      rewrite (process_char_auto_reset (shift_counters a b s)) by exact Hs.
      rewrite (process_char_auto_reset s) by exact Hs.
      change (StreamProcessor.reset (shift_counters a b s))
        with (StreamProcessor.reset s).
      destruct (StreamProcessor.process_char (StreamProcessor.reset s) c true)
        as [s' v].
      rewrite shift_counters_zero. reflexivity.
    + exists a, b. unfold StreamProcessor.process_char.
      change (StreamProcessor.stopped (shift_counters a b s))
        with (StreamProcessor.stopped s).
      rewrite Hs. reflexivity.
  - exists a, b. apply process_char_shift_running, Hs.
Qed.
End CounterFacts.

(** X8. The two skip counters are only ever written: an engine whose
    counters are changed returns, for every sequence of inputs and either
    value of [auto_reset], the very same verdicts. *)
Theorem counters_never_read (U : Unicode) (s : StreamProcessor.t) (a b : Z)
    (inputs : list pyobj) (auto_reset : bool) :
  snd (StreamProcessor.feed (shift_counters a b s) inputs auto_reset)
    = snd (StreamProcessor.feed s inputs auto_reset).
Proof.
  revert s a b. induction inputs as [|c inputs IH]; intros s a b; [reflexivity|].
  cbn [StreamProcessor.feed].
  destruct (process_char_shift a b s c auto_reset) as (a' & b' & ->).
  destruct (StreamProcessor.process_char s c auto_reset) as [s1 v].
  specialize (IH s1 a' b').
  destruct (StreamProcessor.feed (shift_counters a' b' s1) inputs auto_reset) as [s2 v2].
  destruct (StreamProcessor.feed s1 inputs auto_reset) as [s3 v3].
  simpl in *. congruence.
Qed.

(** ** The hash cache *)

Section CacheFacts.
Context {U : Unicode}.

Lemma cached_hash_ok (m : gmap cp Z) c :
  cache_ok m ->
  fst (cached_hash c m) = compute_hash c /\ cache_ok (snd (cached_hash c m)).
Proof.
  intros Hm. unfold cached_hash, hash_char.
  destruct (m !! c) as [h|] eqn:E; cbn.
  - split; [apply Hm, E|exact Hm].
  - split; [reflexivity|]. intros c' h'.
    destruct (decide (c = c')) as [->|Hne].
    + rewrite lookup_insert_eq. congruence.
    + rewrite lookup_insert_ne by exact Hne. apply Hm.
Qed.

Lemma Left_get_hash_cache buffer l m :
  cache_ok m ->
  cache_ok (snd (fst (Left.get_hash buffer l m))) /\
  forall h, snd (Left.get_hash buffer l m) = Ok (Some h) ->
    h = compute_hash (nth (Z.to_nat (Cursor.pos l)) buffer 0%N).
Proof.
  intros Hm. unfold Left.get_hash.
  destruct (negb (Cursor.valid l) || Cursor.out_of_range buffer l);
    [split; [exact Hm|discriminate]|].
  set (char := nth (Z.to_nat (Cursor.pos l)) buffer 0%N).
  destruct (cached_hash_ok m char Hm) as [Hf Hs].
  destruct (clean char (Cursor.valid_chars l)) as [[|]|e];
    try (split; [exact Hm|discriminate]).
  destruct (isalpha char).
  - destruct (cached_hash char m) as [h c]. cbn in *. split; [exact Hs|congruence].
  - destruct (is_emoticon char) as [x [|]]; cbn; [|split; [exact Hm|discriminate]].
    destruct (cached_hash char m) as [h c]. cbn in *. split; [exact Hs|congruence].
Qed.

Lemma Right_get_hash_cache buffer r m :
  cache_ok m ->
  cache_ok (snd (fst (Right.get_hash buffer r m))) /\
  forall h, snd (Right.get_hash buffer r m) = Ok (Some h) ->
    h = compute_hash (nth (Z.to_nat (Cursor.pos r)) buffer 0%N).
Proof.
  intros Hm. unfold Right.get_hash.
  destruct (negb (Cursor.valid r) || Cursor.out_of_range buffer r);
    [split; [exact Hm|discriminate]|].
  set (char := nth (Z.to_nat (Cursor.pos r)) buffer 0%N).
  destruct (cached_hash_ok m char Hm) as [Hf Hs].
  destruct (clean char (Cursor.valid_chars r)) as [[|]|e];
    try (split; [exact Hm|discriminate]).
  destruct (negb (isalpha char) && negb (snd (is_emoticon char)));
    [split; [exact Hm|discriminate]|].
  destruct (cached_hash char m) as [h c]. cbn in *. split; [exact Hs|congruence].
Qed.

Lemma validate_cache fuel buffer d l r m w :
  cache_ok m ->
  StreamProcessor.validate fuel buffer d l r m = Some w ->
  cache_ok (walk_cache w).
Proof.
  revert l r m. induction fuel as [|fuel IH]; intros l r m Hm; [discriminate|].
  cbn [StreamProcessor.validate].
  destruct (StreamProcessor.walking d l r); [|intros [= <-]; exact Hm].
  destruct (Left_get_hash_cache buffer l m Hm) as [Hm1 _].
  destruct (Left.get_hash buffer l m) as [[l1 m1] [lh|e]]; cbn in Hm1;
    [|intros [= <-]; exact Hm1].
  destruct (Right_get_hash_cache buffer r m1 Hm1) as [Hm2 _].
  destruct (Right.get_hash buffer r m1) as [[r1 m2] [rh|e]]; cbn in Hm2;
    [|intros [= <-]; exact Hm2].
  destruct lh as [lh|], rh as [rh|]; try (intros [= <-]; exact Hm2).
  destruct (negb (lh =? rh)%Z); [intros [= <-]; exact Hm2|].
  apply IH, Hm2.
Qed.

Lemma process_char_cache s c ar :
  cache_ok (StreamProcessor.hash_cache s) ->
  cache_ok (StreamProcessor.hash_cache (fst (StreamProcessor.process_char s c ar))).
Proof.
  intros Hm. unfold StreamProcessor.process_char.
  destruct (StreamProcessor.stopped s && negb ar); [exact Hm|].
  assert (H0 : cache_ok (StreamProcessor.hash_cache
                           (if StreamProcessor.stopped s
                            then StreamProcessor.reset s else s))).
  { destruct (StreamProcessor.stopped s); [|exact Hm].
    intros c' h'. cbn. rewrite lookup_empty. discriminate. }
  set (s0 := if StreamProcessor.stopped s then StreamProcessor.reset s else s) in *.
  destruct c as [| z | [|c [|c' w]]]; try exact H0.
  destruct (isspace c); [exact H0|].
  destruct (category_Mn c); [exact H0|].
  destruct (clean c (StreamProcessor.valid_chars s0)) as [[|]|[msg]]; try exact H0.
  unfold StreamProcessor.append_and_validate, StreamProcessor.start_positions.
  destruct (StreamProcessor.direction _);
    match goal with
    | |- context [StreamProcessor.validate ?f ?b ?d ?l ?r ?h] =>
        pose proof (fun w => validate_cache f b d l r h w H0) as Hw;
        destruct (StreamProcessor.validate f b d l r h) as [[? ? ?|? ? ?|[?] ? ? ?]|]
    end;
    try exact (Hw _ eq_refl); exact H0.
Qed.
End CacheFacts.

(** X9. Memoisation is transparent: with a cache all of whose entries
    are keys [hash_char] computes itself, [hash_char] returns the key it
    returns without a cache, and the cache it leaves has the same
    property (and answers for the character from then on). *)
Theorem hash_char_cache_transparent (U : Unicode) (c : cp) (m : gmap cp Z) :
  cache_ok m ->
  exists m',
    hash_char c (Some m) = (fst (hash_char c None), Some m') /\
    cache_ok m' /\
    m' !! c = Some (fst (hash_char c None)).
Proof.
  intros Hm. unfold hash_char. cbn [fst].
  destruct (m !! c) as [h|] eqn:E.
  - exists m. rewrite <- (Hm c h E). split; [reflexivity|]. split; [exact Hm|exact E].
  - exists (<[c := compute_hash c]> m). split; [reflexivity|]. split.
    + intros c' h'. destruct (decide (c = c')) as [->|Hne].
      * rewrite lookup_insert_eq. congruence.
      * rewrite lookup_insert_ne by exact Hne. apply Hm.
    + apply lookup_insert_eq.
Qed.

Lemma hash_char_cache_transparent_witness :
  cache_ok (U := pinned blank) (<[97%N := 97%Z]> empty) /\
  fst (hash_char (U := pinned blank) 65%N (Some (<[97%N := 97%Z]> empty))) = 97%Z.
Proof.
  assert (H : cache_ok (U := pinned blank) (<[97%N := 97%Z]> empty)).
  { intros c h. destruct (decide (97%N = c)) as [<-|Hne].
    - rewrite lookup_insert_eq. intros [= <-]. reflexivity.
    - rewrite lookup_insert_ne by exact Hne. rewrite lookup_empty. discriminate. }
  split; [exact H|].
  destruct (hash_char_cache_transparent (pinned blank) 65%N _ H) as (m' & Hh & _ & _).
  rewrite Hh. reflexivity.
Defined.

(** X10. The cache of an engine only ever holds keys [hash_char] computes
    itself, whatever was fed to the engine since it was made. *)
Theorem engine_cache_consistent (U : Unicode) (d : Direction)
    (vs : option (list str)) (inputs : list pyobj) (auto_reset : bool) :
  forall c h,
    StreamProcessor.hash_cache
      (fst (StreamProcessor.feed (StreamProcessor.init d vs) inputs auto_reset)) !! c
      = Some h ->
    h = fst (hash_char c None).
Proof.
  assert (H : forall s, cache_ok (StreamProcessor.hash_cache s) ->
                cache_ok (StreamProcessor.hash_cache
                            (fst (StreamProcessor.feed s inputs auto_reset)))).
  { induction inputs as [|x inputs IH]; intros s Hs; [exact Hs|].
    cbn [StreamProcessor.feed].
    pose proof (process_char_cache s x auto_reset Hs) as H1.
    destruct (StreamProcessor.process_char s x auto_reset) as [s1 v]. cbn in H1.
    specialize (IH s1 H1).
    destruct (StreamProcessor.feed s1 inputs auto_reset). exact IH. }
  apply (H (StreamProcessor.init d vs)).
  intros c h. cbn. rewrite lookup_empty. discriminate.
Qed.

Lemma engine_cache_consistent_witness :
  let s := fst (StreamProcessor.feed (U := pinned blank) (StreamProcessor.init Ltr None)
                  (codepoints (lit "aa")) false) in
  StreamProcessor.hash_cache s !! 97%N = Some 97%Z /\
  97%Z = fst (hash_char (U := pinned blank) 97%N None).
Proof.
  intros s.
  assert (H : StreamProcessor.hash_cache s !! 97%N = Some 97%Z)
    by (vm_compute; reflexivity).
  split; [exact H|].
  exact (engine_cache_consistent (pinned blank) Ltr None (codepoints (lit "aa")) false
           97%N 97%Z H).
Defined.

(** ** What the forward walk decides *)

Lemma Zgeb_false (a b : Z) : (a < b)%Z -> (a >=? b)%Z = false.
Proof. intros H. rewrite Z.geb_leb. apply Z.leb_gt. exact H. Qed.

Lemma Zltb_false (a b : Z) : (b <= a)%Z -> (a <? b)%Z = false.
Proof. apply Z.ltb_ge. Qed.

Section ForwardWalk.
Context {U : Unicode}.
Variable vs : option (list str).
Variable d : Direction.
Hypothesis Hd : forward d = true.
Variable buffer : list cp.
Hypothesis Hbuf : Forall (fun c => clean c vs = Ok true /\ hashable c = true) buffer.

Let n := length buffer.
Let keys := map compute_hash buffer.

Lemma buffer_nth i :
  i < n ->
  clean (nth i buffer 0%N) vs = Ok true /\ hashable (nth i buffer 0%N) = true.
Proof.
  intros Hi. rewrite List.Forall_forall in Hbuf. apply Hbuf, nth_In, Hi.
Qed.

Lemma keys_nth i : i < n -> nth i keys 0%Z = compute_hash (nth i buffer 0%N).
Proof.
  intros Hi. subst keys.
  rewrite (nth_indep _ 0%Z (compute_hash 0%N)) by (rewrite length_map; exact Hi).
  apply map_nth.
Qed.

Lemma left_get_hash_at k cs cache :
  k < n -> cache_ok cache ->
  exists cache',
    Left.get_hash buffer (left_at vs d k cs) cache
      = (left_at vs d k (cs ++ [recorded (nth k buffer 0%N)]), cache',
         Ok (Some (nth k keys 0%Z))) /\
    cache_ok cache'.
Proof.
  intros Hk Hc. destruct (buffer_nth k Hk) as [Hcl Hh].
  exists (snd (cached_hash (nth k buffer 0%N) cache)).
  destruct (cached_hash_ok cache (nth k buffer 0%N) Hc) as [Hf Hs].
  split; [|exact Hs].
  rewrite (Left_get_hash_accepted buffer (left_at vs d k cs) cache (nth k buffer 0%N)).
  - rewrite Hf, keys_nth by exact Hk. reflexivity.
  - reflexivity.
  - unfold Cursor.out_of_range, left_at. cbn [Cursor.pos].
    apply orb_false_iff. split; [apply Zltb_false|apply Zgeb_false]; lia.
  - unfold left_at. cbn [Cursor.pos]. rewrite Nat2Z.id. reflexivity.
  - exact Hcl.
  - exact Hh.
Qed.

Lemma right_get_hash_at k cache :
  k < n -> cache_ok cache ->
  exists cache',
    Right.get_hash buffer (right_at vs d buffer k) cache
      = (right_at vs d buffer k, cache', Ok (Some (nth (n - 1 - k) keys 0%Z))) /\
    cache_ok cache'.
Proof.
  intros Hk Hc.
  assert (Hi : n - 1 - k < n) by lia.
  destruct (buffer_nth _ Hi) as [Hcl Hh].
  exists (snd (cached_hash (nth (n - 1 - k) buffer 0%N) cache)).
  destruct (cached_hash_ok cache (nth (n - 1 - k) buffer 0%N) Hc) as [Hf Hs].
  split; [|exact Hs].
  rewrite (Right_get_hash_accepted buffer (right_at vs d buffer k) cache
             (nth (n - 1 - k) buffer 0%N)).
  - rewrite Hf, keys_nth by exact Hi. reflexivity.
  - reflexivity.
  - unfold Cursor.out_of_range, right_at. cbn [Cursor.pos].
    apply orb_false_iff. split; [apply Zltb_false|apply Zgeb_false];
      subst n; lia.
  - unfold right_at. cbn [Cursor.pos]. f_equal. subst n. lia.
  - exact Hcl.
  - exact Hh.
Qed.

Lemma left_advance_at k cs :
  S k < n -> Left.advance buffer (left_at vs d k cs) = left_at vs d (S k) cs.
Proof.
  intros Hk. unfold Left.advance, left_at, Cursor.out_of_range.
  cbn [Cursor.pos Cursor.set_pos Cursor.direction Cursor.valid_chars
       Cursor.valid Cursor.chars]. rewrite Hd.
  replace (Z.of_nat k + 1)%Z with (Z.of_nat (S k)) by lia.
  replace (Z.of_nat (S k) <? 0)%Z with false by (symmetry; apply Zltb_false; lia).
  replace (Z.of_nat (S k) >=? Z.of_nat (length buffer))%Z with false
    by (symmetry; apply Zgeb_false; subst n; lia).
  reflexivity.
Qed.

Lemma right_advance_at k :
  S k < n -> Right.advance buffer (right_at vs d buffer k) = right_at vs d buffer (S k).
Proof.
  intros Hk. unfold Right.advance, right_at, Cursor.out_of_range.
  cbn [Cursor.pos Cursor.set_pos Cursor.direction Cursor.valid_chars
       Cursor.valid Cursor.chars]. rewrite Hd.
  replace (Z.of_nat (length buffer) - 1 - Z.of_nat k - 1)%Z
    with (Z.of_nat (length buffer) - 1 - Z.of_nat (S k))%Z by lia.
  replace (Z.of_nat (length buffer) - 1 - Z.of_nat (S k) <? 0)%Z with false
    by (symmetry; apply Zltb_false; subst n; lia).
  replace (Z.of_nat (length buffer) - 1 - Z.of_nat (S k) >=? Z.of_nat (length buffer))%Z
    with false by (symmetry; apply Zgeb_false; lia).
  reflexivity.
Qed.

Lemma walking_at k cs :
  StreamProcessor.walking d (left_at vs d k cs) (right_at vs d buffer k) = (k <? n / 2).
Proof.
  unfold StreamProcessor.walking, left_at, right_at.
  cbn [Cursor.valid Cursor.pos andb]. rewrite Hd. cbn [andb].
  assert (Hr : match d with Rtl => true | _ => false end = false).
  { destruct d; try reflexivity. discriminate Hd. }
  rewrite Hr. cbn [andb]. rewrite orb_false_r.
  pose proof (Nat.div_mod_eq n 2) as Hdm.
  pose proof (Nat.mod_upper_bound n 2) as Hm.
  destruct (Nat.ltb_spec k (n / 2)).
  - apply Z.ltb_lt. subst n. lia.
  - apply Z.ltb_ge. subst n. lia.
Qed.

Lemma half_matches_step k :
  k < n / 2 ->
  half_matches keys k
  = (nth k keys 0 =? nth (n - 1 - k) keys 0)%Z && half_matches keys (S k).
Proof.
  intros Hk. unfold half_matches.
  assert (Hl : length keys = n) by (subst keys; apply length_map).
  rewrite Hl.
  replace (n / 2 - k) with (S (n / 2 - S k)) by lia.
  reflexivity.
Qed.

Lemma half_matches_end k : n / 2 <= k -> half_matches keys k = true.
Proof.
  intros Hk. unfold half_matches.
  assert (Hl : length keys = n) by (subst keys; apply length_map).
  rewrite Hl. replace (n / 2 - k) with 0 by lia. reflexivity.
Qed.

(** The walk from round [k] on: it crosses in the middle with both
    cursors valid and the left half recorded when the remaining pairs
    match, and it ends in a mismatch otherwise. *)
Lemma validate_forward m : forall k cs cache fuel,
  n / 2 - k = m -> k <= n / 2 -> m < fuel -> cache_ok cache ->
  exists w,
    StreamProcessor.validate fuel buffer d (left_at vs d k cs) (right_at vs d buffer k) cache = Some w /\
    cache_ok (walk_cache w) /\
    if half_matches keys k
    then exists cache',
      w = Crossed (left_at vs d (n / 2)
                     (cs ++ map recorded (firstn (n / 2 - k) (skipn k buffer))))
                  (right_at vs d buffer (n / 2)) cache'
    else exists l r cache', w = Mismatch l r cache'.
Proof.
  pose proof (Nat.div_mod_eq n 2) as Hdm.
  pose proof (Nat.mod_upper_bound n 2) as Hmod.
  induction m as [|m IH]; intros k cs cache fuel Hm Hk Hf Hc.
  - destruct fuel as [|fuel]; [lia|]. cbn [StreamProcessor.validate].
    assert (k = n / 2) as -> by lia.
    rewrite walking_at, Nat.ltb_irrefl, half_matches_end by lia.
    eexists. split; [reflexivity|]. split; [exact Hc|].
    exists cache. rewrite Nat.sub_diag. cbn. rewrite app_nil_r. reflexivity.
  - destruct fuel as [|fuel]; [lia|]. cbn [StreamProcessor.validate].
    assert (Hlt : k < n / 2) by lia.
    rewrite walking_at. apply Nat.ltb_lt in Hlt as Hlt'. rewrite Hlt'.
    destruct (left_get_hash_at k cs cache) as (c1 & -> & Hc1); [lia|exact Hc|].
    destruct (right_get_hash_at k c1) as (c2 & -> & Hc2); [lia|exact Hc1|].
    rewrite half_matches_step by exact Hlt.
    destruct (nth k keys 0 =? nth (n - 1 - k) keys 0)%Z; cbn [negb andb].
    + rewrite left_advance_at, right_advance_at by lia.
      destruct (IH (S k) (cs ++ [recorded (nth k buffer 0%N)]) c2 fuel)
        as (w & Hw & Hcw & Hres); try lia; [exact Hc2|].
      exists w. split; [exact Hw|]. split; [exact Hcw|].
      destruct (half_matches keys (S k)); [|exact Hres].
      destruct Hres as [c' ->]. exists c'. f_equal. f_equal.
      rewrite <- app_assoc. f_equal.
      replace (n / 2 - k) with (S (n / 2 - S k)) by lia.
      rewrite (drop_S buffer (nth k buffer 0%N) k).
      * reflexivity.
      * destruct (nth_lookup_or_length buffer k 0%N) as [H|H]; [exact H|].
        subst n. lia.
    + eexists. split; [reflexivity|]. split; [exact Hc2|]. eauto.
Qed.
End ForwardWalk.

Lemma half_matches_palindromic (keys : list Z) :
  half_matches keys 0 = palindromic keys.
Proof.
  pose proof (Nat.div_mod_eq (length keys) 2) as Hdm.
  pose proof (Nat.mod_upper_bound (length keys) 2) as Hmod.
  apply eq_true_iff_eq. unfold half_matches, palindromic.
  rewrite forallb_forall, bool_decide_eq_true, Nat.sub_0_r. split.
  - intros H.
    assert (Hh : forall i, i < length keys / 2 ->
                   nth i keys 0%Z = nth (length keys - 1 - i) keys 0%Z).
    { intros i Hi. apply Z.eqb_eq, H, in_seq. lia. }
    apply (nth_ext _ _ 0%Z 0%Z); [rewrite length_rev; reflexivity|].
    intros i Hi. rewrite rev_nth by exact Hi.
    replace (length keys - S i) with (length keys - 1 - i) by lia.
    destruct (Nat.lt_ge_cases i (length keys / 2)) as [Hlt|Hge]; [apply Hh, Hlt|].
    destruct (Nat.lt_ge_cases (length keys - 1 - i) (length keys / 2)) as [Hlt|Hge'].
    + rewrite (Hh _ Hlt). f_equal. lia.
    + f_equal. lia.
  - intros H i Hi. apply in_seq in Hi. apply Z.eqb_eq.
    rewrite H at 1. rewrite rev_nth by lia. f_equal. lia.
Qed.

Section ForwardEngine.
Context {U : Unicode}.

(** What a call returns when the walk over the new buffer is the forward
    walk from both ends. *)
Lemma conclude_forward vs d buffer s fuel :
  forward d = true ->
  Forall (fun c => clean c vs = Ok true /\ hashable c = true) buffer ->
  length buffer / 2 < fuel ->
  cache_ok (StreamProcessor.hash_cache s) ->
  StreamProcessor.error_msg s = None ->
  snd (StreamProcessor.conclude s
         (StreamProcessor.validate fuel buffer d (left_at vs d 0 [])
            (right_at vs d buffer 0) (StreamProcessor.hash_cache s)))
  = (palindromic (map compute_hash buffer), None,
     if palindromic (map compute_hash buffer)
     then map recorded (firstn (length buffer / 2) buffer) else []).
Proof.
  intros Hd Hb Hf Hc He.
  destruct (validate_forward vs d Hd buffer Hb (length buffer / 2) 0 []
              (StreamProcessor.hash_cache s) fuel) as (w & -> & _ & Hw);
    try lia; [exact Hc|].
  rewrite half_matches_palindromic in Hw.
  destruct (palindromic (map compute_hash buffer)).
  - destruct Hw as [c' ->]. cbn. rewrite Nat.sub_0_r. reflexivity.
  - destruct Hw as (l & r & c' & ->). cbn. rewrite He. reflexivity.
Qed.

Lemma append_and_validate_ltr vs s c :
  StreamProcessor.direction s = Ltr ->
  StreamProcessor.valid_chars s = vs ->
  Forall (fun c => clean c vs = Ok true /\ hashable c = true)
         (StreamProcessor.buffer s ++ [c]) ->
  cache_ok (StreamProcessor.hash_cache s) ->
  StreamProcessor.error_msg s = None ->
  let window := StreamProcessor.buffer s ++ [c] in
  snd (StreamProcessor.append_and_validate s c)
  = (palindromic (map compute_hash window), None,
     if palindromic (map compute_hash window)
     then map recorded (firstn (length window / 2) window) else []).
Proof.
  intros Hd Hv Hb Hc He window.
  destruct s as [buf d vs' l r ce va em st sd ss hc].
  cbn in Hd, Hv, Hb, Hc, He, window. subst d vs' em.
  unfold StreamProcessor.append_and_validate, StreamProcessor.start_positions.
  cbn [StreamProcessor.direction StreamProcessor.set_buffer StreamProcessor.buffer
       StreamProcessor.valid_chars StreamProcessor.hash_cache].
  pose proof (conclude_forward vs Ltr window
                (StreamProcessor.set_buffer window
                   (StreamProcessor.Build buf Ltr vs l r ce va None st sd ss hc))
                (StreamProcessor.walk_fuel window) eq_refl Hb) as H.
  unfold right_at, left_at in H. rewrite Z.sub_0_r in H.
  apply H; [|exact Hc|reflexivity].
  unfold StreamProcessor.walk_fuel.
  pose proof (Nat.div_mod_eq (length window) 2). lia.
Qed.

Lemma append_and_validate_center_out vs s c :
  StreamProcessor.direction s = CenterOut ->
  StreamProcessor.valid_chars s = vs ->
  Nat.Even (length (StreamProcessor.buffer s)) ->
  Forall (fun c => clean c vs = Ok true /\ hashable c = true)
         (StreamProcessor.buffer s ++ [c]) ->
  cache_ok (StreamProcessor.hash_cache s) ->
  StreamProcessor.error_msg s = None ->
  let window := StreamProcessor.buffer s ++ [c] in
  snd (StreamProcessor.append_and_validate s c)
  = (palindromic (map compute_hash window), None,
     if palindromic (map compute_hash window)
     then map recorded (firstn (length window / 2) window) else []).
Proof.
  intros Hd Hv [j Hj] Hb Hc He window.
  destruct s as [buf d vs' l r ce va em st sd ss hc].
  cbn in Hd, Hv, Hj, Hb, Hc, He, window. subst d vs' em.
  unfold StreamProcessor.append_and_validate, StreamProcessor.start_positions.
  cbn [StreamProcessor.direction StreamProcessor.set_buffer StreamProcessor.buffer
       StreamProcessor.valid_chars StreamProcessor.hash_cache
       StreamProcessor.set_center StreamProcessor.center].
  assert (Hlen : Z.of_nat (length window) = (1 + Z.of_nat j * 2)%Z).
  { subst window. rewrite length_app. cbn. lia. }
  assert (Hhalf : (Z.of_nat (length window) / 2 = Z.of_nat j)%Z).
  { rewrite Hlen, Z.div_add by lia. reflexivity. }
  fold window. rewrite Hhalf.
  pose proof (conclude_forward vs CenterOut window
                (StreamProcessor.set_center (Z.of_nat j)
                   (StreamProcessor.set_buffer window
                      (StreamProcessor.Build buf CenterOut vs l r ce va None st sd ss hc)))
                (StreamProcessor.walk_fuel window) eq_refl Hb) as H.
  unfold right_at, left_at in H. rewrite Z.sub_0_r in H.
  replace (Z.of_nat j - Z.of_nat j)%Z with 0%Z by lia.
  replace (Z.of_nat j + Z.of_nat j)%Z with (Z.of_nat (length window) - 1)%Z by lia.
  apply H; [|exact Hc|reflexivity].
  unfold StreamProcessor.walk_fuel.
  pose proof (Nat.div_mod_eq (length window) 2). lia.
Qed.
End ForwardEngine.

(** ** The verdicts of a whole stream, by topology *)

Section StreamVerdicts.
Context {U : Unicode}.
Variable vs : option (list str).
Variable d : Direction.
Variable P : cp -> Prop.
Variable F : list cp -> verdict.

Hypothesis HF : forall s c ar,
  steady vs d P s -> clean c vs = Ok true -> P c ->
  snd (StreamProcessor.process_char s (PyStr [c]) ar)
    = F (StreamProcessor.buffer s ++ [c]).

Lemma steady_step s c ar :
  steady vs d P s -> clean c vs = Ok true -> P c ->
  steady vs d P (fst (StreamProcessor.process_char s (PyStr [c]) ar)) /\
  StreamProcessor.buffer (fst (StreamProcessor.process_char s (PyStr [c]) ar))
    = StreamProcessor.buffer s ++ [c].
Proof.
  intros (Hrun & Hd & Hc & Hco & Hb) Hcl Hp.
  destruct (process_char_effect vs s c ar true Hrun Hcl) as (Hrun' & Hbuf & _).
  cbv zeta in Hrun', Hbuf.
  destruct (process_char_parameters s (PyStr [c]) ar) as [Hd' _].
  pose proof (process_char_cache s (PyStr [c]) ar Hc) as Hc'.
  pose proof (process_char_shaped s (PyStr [c]) ar Hco) as Hsh.
  destruct (StreamProcessor.process_char s (PyStr [c]) ar) as [s' [[b e] chars]].
  cbn in *. split; [|exact Hbuf].
  repeat split; try apply Hrun'; try assumption.
  - exact (eq_trans Hd' Hd).
  - apply Hsh.
  - apply Hsh.
  - rewrite Hbuf. apply Forall_app. split; [exact Hb|]. constructor; [exact Hp|constructor].
Qed.

Lemma feed_verdicts (S : list cp) ar : forall s,
  steady vs d P s ->
  Forall (fun c => clean c vs = Ok true /\ P c) S ->
  snd (StreamProcessor.feed s (codepoints S) ar)
    = map (fun k => F (StreamProcessor.buffer s ++ firstn (Datatypes.S k) S))
          (seq 0 (length S)).
Proof.
  induction S as [|c S IH]; intros s Hs HS; [reflexivity|].
  apply Forall_cons in HS as [[Hcl Hp] HS].
  cbn [codepoints map StreamProcessor.feed length seq]. fold (codepoints S).
  pose proof (HF s c ar Hs Hcl Hp) as Hv.
  destruct (steady_step s c ar Hs Hcl Hp) as [Hs' Hb'].
  destruct (StreamProcessor.process_char s (PyStr [c]) ar) as [s1 v]. cbn in Hv, Hs', Hb'.
  specialize (IH s1 Hs' HS).
  destruct (StreamProcessor.feed s1 (codepoints S) ar) as [s2 v2]. cbn in IH |- *.
  rewrite Hv, IH, <- seq_shift, map_map. f_equal.
  apply map_ext. intros k. rewrite Hb', <- app_assoc. reflexivity.
Qed.

Lemma steady_init : steady vs d P (StreamProcessor.init d vs).
Proof.
  split; [apply running_init|]. split; [reflexivity|]. split.
  - intros c h. cbn. rewrite lookup_empty. discriminate.
  - split; [apply coherent_running_none; reflexivity|constructor].
Qed.

Lemma run_verdicts (S : list cp) ar :
  Forall (fun c => clean c vs = Ok true /\ P c) S ->
  run_stream d vs (codepoints S) ar
    = map (fun k => F (firstn (Datatypes.S k) S)) (seq 0 (length S)).
Proof.
  intros HS. unfold run_stream.
  rewrite (feed_verdicts S ar _ steady_init HS). reflexivity.
Qed.
End StreamVerdicts.

Section Instances.
Context {U : Unicode}.
Variable vs : option (list str).

Lemma steady_error_none d P s :
  steady vs d P s -> StreamProcessor.error_msg s = None.
Proof. intros (Hrun & _ & _ & Hco & _). apply coherent_running; [exact Hco|apply Hrun]. Qed.

(** A rejected window leaves nothing but the verdict [False]. *)
Lemma rejected_verdict d P s c ar :
  steady vs d P s -> clean c vs = Ok true -> P c ->
  result_of (StreamProcessor.process_char s (PyStr [c]) ar) = false ->
  snd (StreamProcessor.process_char s (PyStr [c]) ar) = (false, None, []).
Proof.
  intros Hs Hcl Hp Hres.
  destruct (steady_step vs d P s c ar Hs Hcl Hp) as [Hs' _].
  pose proof (steady_error_none d P _ Hs') as He.
  destruct Hs as (_ & _ & _ & Hco & _).
  pose proof (process_char_shaped s (PyStr [c]) ar Hco) as Hsh.
  destruct (StreamProcessor.process_char s (PyStr [c]) ar) as [s' [[b e] chars]].
  unfold result_of in Hres. cbn in *. subst b.
  destruct Hsh as (_ & -> & _ & Hch). rewrite He, Hch by reflexivity. reflexivity.
Qed.

Lemma ltr_step s c ar :
  steady vs Ltr (fun c => hashable c = true) s ->
  clean c vs = Ok true -> hashable c = true ->
  snd (StreamProcessor.process_char s (PyStr [c]) ar)
    = forward_verdict (StreamProcessor.buffer s ++ [c]).
Proof.
  intros Hs Hcl Hh. pose proof (steady_error_none _ _ _ Hs) as He.
  destruct Hs as ((Hst & Hv & Hb) & Hd & Hc & Hco & Hhb).
  rewrite process_char_accepted by (rewrite ?Hv; assumption).
  apply (append_and_validate_ltr vs); try assumption.
  apply Forall_app. split.
  - rewrite List.Forall_forall in *. intros x Hx. split; [apply Hb|apply Hhb]; exact Hx.
  - constructor; [split; assumption|constructor].
Qed.

Lemma center_out_step s c ar :
  steady vs CenterOut (fun c => hashable c = true) s ->
  clean c vs = Ok true -> hashable c = true ->
  snd (StreamProcessor.process_char s (PyStr [c]) ar)
    = center_out_verdict (StreamProcessor.buffer s ++ [c]).
Proof.
  intros Hs Hcl Hh. unfold center_out_verdict.
  rewrite length_app, Nat.add_1_r, Nat.even_succ.
  destruct (Nat.odd (length (StreamProcessor.buffer s))) eqn:Hodd.
  - apply (rejected_verdict CenterOut (fun c => hashable c = true)); try assumption.
    apply center_out_even_window_rejected; [apply Hs|apply Hs|].
    apply Nat.odd_spec, Hodd.
  - pose proof (steady_error_none _ _ _ Hs) as He.
    destruct Hs as ((Hst & Hv & Hb) & Hd & Hc & Hco & Hhb).
    rewrite process_char_accepted by (rewrite ?Hv; assumption).
    apply (append_and_validate_center_out vs); try assumption.
    + apply Nat.even_spec. rewrite <- Nat.negb_odd, Hodd. reflexivity.
    + apply Forall_app. split.
      * rewrite List.Forall_forall in *. intros x Hx.
        split; [apply Hb|apply Hhb]; exact Hx.
      * constructor; [split; assumption|constructor].
Qed.

Lemma first_character_step d s c ar :
  steady vs d (fun _ => True) s -> StreamProcessor.buffer s = [] ->
  clean c vs = Ok true ->
  snd (StreamProcessor.process_char s (PyStr [c]) ar) = (true, None, []).
Proof.
  intros ((Hst & Hv & Hb) & Hd & Hc & Hco & _) Hnil Hcl.
  rewrite process_char_accepted by (rewrite ?Hv; assumption).
  destruct s as [buf d' vs' l r ce va em st sd ss hc].
  cbn in Hnil, Hd. subst buf d'.
  unfold StreamProcessor.append_and_validate, StreamProcessor.start_positions.
  destruct d; reflexivity.
Qed.

Lemma rtl_step s c ar :
  steady vs Rtl (fun _ => True) s -> clean c vs = Ok true -> True ->
  snd (StreamProcessor.process_char s (PyStr [c]) ar)
    = rtl_verdict (StreamProcessor.buffer s ++ [c]).
Proof.
  intros Hs Hcl _. unfold rtl_verdict. rewrite length_app, Nat.add_1_r.
  destruct (StreamProcessor.buffer s) as [|x buf] eqn:Hb.
  - apply (first_character_step Rtl); assumption.
  - cbn [length Nat.eqb].
    apply (rejected_verdict Rtl (fun _ => True)); try assumption; [exact I|].
    apply rtl_window_rejected; [apply Hs|apply Hs|]. rewrite Hb. discriminate.
Qed.

Lemma other_direction_step s c ar :
  steady vs OtherDirection (fun _ => True) s -> clean c vs = Ok true -> True ->
  snd (StreamProcessor.process_char s (PyStr [c]) ar) = (true, None, []).
Proof.
  intros ((Hst & Hv & Hb) & Hd & Hc & Hco & _) Hcl _.
  rewrite process_char_accepted by (rewrite ?Hv; assumption).
  destruct s as [buf d' vs' l r ce va em st sd ss hc].
  cbn in Hd. subst d'. reflexivity.
Qed.
End Instances.

(** X11. The left-to-right engine decides palindromes of keys.  For a
    stream of accepted characters that can be hashed (letters and the
    base emoji), the verdict after each character is [True] exactly when
    the keys of the characters so far read the same in both directions;
    a [True] verdict records the first half of the window (without the
    middle character of a window of odd length) and no verdict carries an
    error. *)
Theorem ltr_decides_palindromes (U : Unicode) (vs : option (list str))
    (S : list cp) (auto_reset : bool) :
  Forall (fun c => clean c vs = Ok true /\ hashable c = true) S ->
  run_stream Ltr vs (codepoints S) auto_reset
    = map (fun k => forward_verdict (firstn (Datatypes.S k) S)) (seq 0 (length S)).
Proof.
  apply (run_verdicts vs Ltr (fun c => hashable c = true) forward_verdict).
  intros s c ar. apply ltr_step.
Qed.

Lemma ltr_decides_palindromes_witness :
  Forall (fun c => clean (U := pinned blank) c None = Ok true
                   /\ hashable (U := pinned blank) c = true) (lit "Aba") /\
  run_stream (U := pinned blank) Ltr None (codepoints (lit "Aba")) false
    = [(true, None, []); (false, None, []); (true, None, [(65%N, true, false, true)])].
Proof.
  assert (H : Forall (fun c => clean (U := pinned blank) c None = Ok true
                   /\ hashable (U := pinned blank) c = true) (lit "Aba")).
  { repeat constructor. }
  split; [exact H|].
  rewrite (ltr_decides_palindromes (pinned blank) None (lit "Aba") false H).
  reflexivity.
Defined.

(** X12. The center-out engine gives the left-to-right verdict for every
    window of odd length and [False] for every window of even length. *)
Theorem center_out_verdicts (U : Unicode) (vs : option (list str))
    (S : list cp) (auto_reset : bool) :
  Forall (fun c => clean c vs = Ok true /\ hashable c = true) S ->
  run_stream CenterOut vs (codepoints S) auto_reset
    = map (fun k => center_out_verdict (firstn (Datatypes.S k) S)) (seq 0 (length S)).
Proof.
  apply (run_verdicts vs CenterOut (fun c => hashable c = true) center_out_verdict).
  intros s c ar. apply center_out_step.
Qed.

Lemma center_out_verdicts_witness :
  Forall (fun c => clean (U := pinned blank) c None = Ok true
                   /\ hashable (U := pinned blank) c = true) (lit "aaa") /\
  run_stream (U := pinned blank) CenterOut None (codepoints (lit "aaa")) false
    = [(true, None, []); (false, None, []); (true, None, [(97%N, false, false, true)])].
Proof.
  assert (H : Forall (fun c => clean (U := pinned blank) c None = Ok true
                   /\ hashable (U := pinned blank) c = true) (lit "aaa")).
  { repeat constructor. }
  split; [exact H|].
  rewrite (center_out_verdicts (pinned blank) None (lit "aaa") false H).
  reflexivity.
Defined.

(** X13. The right-to-left engine accepts the first character of a
    stream of accepted characters and rejects every longer window,
    whatever the characters are. *)
Theorem rtl_verdicts (U : Unicode) (vs : option (list str))
    (S : list cp) (auto_reset : bool) :
  Forall (fun c => clean c vs = Ok true) S ->
  run_stream Rtl vs (codepoints S) auto_reset
    = map (fun k => (k =? 0, None, [])) (seq 0 (length S)).
Proof.
  intros HS.
  rewrite (run_verdicts vs Rtl (fun _ => True) rtl_verdict).
  - apply map_ext_in. intros k Hk. apply in_seq in Hk. unfold rtl_verdict.
    rewrite length_firstn, Nat.min_l by lia. reflexivity.
  - intros s c ar. apply rtl_step.
  - eapply Forall_impl; [exact HS|]. intros c Hc. split; [exact Hc|exact I].
Qed.

Lemma rtl_verdicts_witness :
  Forall (fun c => clean (U := pinned blank) c None = Ok true) (lit "aaa") /\
  run_stream (U := pinned blank) Rtl None (codepoints (lit "aaa")) false
    = [(true, None, []); (false, None, []); (false, None, [])].
Proof.
  assert (H : Forall (fun c => clean (U := pinned blank) c None = Ok true) (lit "aaa")).
  { repeat constructor. }
  split; [exact H|].
  rewrite (rtl_verdicts (pinned blank) None (lit "aaa") false H). reflexivity.
Defined.

(** X14. With a direction that is none of the three names the loop never
    runs: every accepted character gets the verdict [True] with nothing
    recorded, whatever the window is. *)
Theorem unknown_direction_accepts_all (U : Unicode) (vs : option (list str))
    (S : list cp) (auto_reset : bool) :
  Forall (fun c => clean c vs = Ok true) S ->
  run_stream OtherDirection vs (codepoints S) auto_reset
    = map (fun _ => (true, None, [])) S.
Proof.
  intros HS.
  rewrite (run_verdicts vs OtherDirection (fun _ => True) (fun _ => (true, None, []))).
  - clear HS. generalize 0. induction S as [|c S IH]; intros n; [reflexivity|].
    cbn. f_equal. apply IH.
  - intros s c ar. apply other_direction_step.
  - eapply Forall_impl; [exact HS|]. intros c Hc. split; [exact Hc|exact I].
Qed.

Lemma unknown_direction_accepts_all_witness :
  Forall (fun c => clean (U := pinned blank) c None = Ok true) (lit "ab") /\
  run_stream (U := pinned blank) OtherDirection None (codepoints (lit "ab")) false
    = [(true, None, []); (true, None, [])].
Proof.
  assert (H : Forall (fun c => clean (U := pinned blank) c None = Ok true) (lit "ab")).
  { repeat constructor. }
  split; [exact H|].
  rewrite (unknown_direction_accepts_all (pinned blank) None (lit "ab") false H).
  reflexivity.
Defined.

(** ** Stopping and restarting *)

Section Stopping.
Context {U : Unicode}.

(** A stopped engine answers every call without [auto_reset] alike. *)
Lemma feed_stopped s inputs :
  StreamProcessor.stopped s = true ->
  StreamProcessor.feed s inputs false
    = (s, map (fun _ => (false, StreamProcessor.error_msg s, [])) inputs).
Proof.
  intros Hs. induction inputs as [|x inputs IH]; [reflexivity|].
  cbn [StreamProcessor.feed map]. unfold StreamProcessor.process_char at 1.
  rewrite Hs. cbn [andb negb]. rewrite IH. reflexivity.
Qed.
End Stopping.

(** X15. A symbol that is not allowed stops a running engine for good:
    the call returns [False] with the error "Character Error: Unallowed
    character 'c'", the buffer is left as it was, and every later call
    without [auto_reset] returns that same error, whatever it is given. *)
Theorem rejected_symbol_stops (U : Unicode) (s : StreamProcessor.t) (c : cp)
    (rest : list pyobj) :
  StreamProcessor.stopped s = false ->
  StreamProcessor.valid_chars s = None ->
  isspace c = false -> category_Mn c = false ->
  isalpha c = false -> is_emoji_base c = false ->
  let error := lit "Character Error: Unallowed character '" ++ [c] ++ lit "'" in
  let '(s', verdicts) := StreamProcessor.feed s (PyStr [c] :: rest) false in
  verdicts = map (fun _ => (false, Some error, [])) (PyStr [c] :: rest) /\
  StreamProcessor.stopped s' = true /\
  StreamProcessor.buffer s' = StreamProcessor.buffer s.
Proof.
  intros Hs Hv Hsp Hmn Ha He error.
  cbn [StreamProcessor.feed]. unfold StreamProcessor.process_char at 1.
  rewrite Hs, Hsp, Hmn, Hv, clean_without_alphabet, Hsp, Hmn, Ha, He.
  cbn [andb orb StreamProcessor.character_error].
  rewrite feed_stopped by reflexivity. cbn. repeat split.
Qed.

Lemma rejected_symbol_stops_witness :
  let s := StreamProcessor.init Ltr None in
  StreamProcessor.stopped s = false /\
  let '(s', verdicts) :=
    StreamProcessor.feed (U := pinned blank) s [PyStr (lit "$"); PyStr (lit "a")] false in
  verdicts
    = [(false, Some (lit "Character Error: Unallowed character '$'"), []);
       (false, Some (lit "Character Error: Unallowed character '$'"), [])] /\
  StreamProcessor.stopped s' = true /\
  StreamProcessor.buffer s' = [].
Proof.
  intros s. split; [reflexivity|].
  exact (rejected_symbol_stops (pinned blank) s 36%N [PyStr (lit "a")]
           eq_refl eq_refl eq_refl eq_refl eq_refl eq_refl).
Defined.

(** X16. Anything that is not a string of exactly one code point ([None],
    a number, the empty string, a longer string) stops the engine with
    "Input Error: Invalid character"; the buffer, the counters and the
    cache are left as they were, and later calls without [auto_reset]
    return the same error. *)
Theorem invalid_input_stops (U : Unicode) (s : StreamProcessor.t) (x : pyobj)
    (rest : list pyobj) :
  StreamProcessor.stopped s = false ->
  is_character x = false ->
  let error := lit "Input Error: Invalid character" in
  let '(s', verdicts) := StreamProcessor.feed s (x :: rest) false in
  verdicts = map (fun _ => (false, Some error, [])) (x :: rest) /\
  s' = StreamProcessor.set_stopped true
         (StreamProcessor.set_error_msg (Some error)
            (StreamProcessor.set_valid false s)).
Proof.
  intros Hs Hx error.
  cbn [StreamProcessor.feed]. unfold StreamProcessor.process_char at 1. rewrite Hs.
  cbn [andb].
  assert (H : forall A (a : cp -> A) (b : A),
             match x with PyStr [ch] => a ch | _ => b end = b).
  { intros A a b. destruct x as [| z | [|ch [|ch' w]]]; try reflexivity.
    discriminate Hx. }
  rewrite H. rewrite feed_stopped by reflexivity. cbn. split; reflexivity.
Qed.

Lemma invalid_input_stops_witness :
  let s := StreamProcessor.init Ltr None in
  StreamProcessor.stopped s = false /\
  is_character (PyStr (lit "ab")) = false /\
  let '(s', verdicts) :=
    StreamProcessor.feed (U := pinned blank) s [PyStr (lit "ab"); PyStr (lit "a")] false in
  verdicts
    = [(false, Some (lit "Input Error: Invalid character"), []);
       (false, Some (lit "Input Error: Invalid character"), [])] /\
  s' = StreamProcessor.Build [] Ltr None None None (-1) false
         (Some (lit "Input Error: Invalid character")) true 0 0 empty.
Proof.
  intros s. split; [reflexivity|]. split; [reflexivity|].
  exact (invalid_input_stops (pinned blank) s (PyStr (lit "ab")) [PyStr (lit "a")]
           eq_refl eq_refl).
Defined.

(** X17. With [auto_reset] a stopped engine starts over: fed anything, it
    behaves from the first call on as a newly made engine of the same
    topology and alphabet, in its verdicts and in its state. *)
Theorem auto_reset_restarts (U : Unicode) (s : StreamProcessor.t) (x : pyobj)
    (rest : list pyobj) :
  StreamProcessor.stopped s = true ->
  StreamProcessor.feed s (x :: rest) true
    = StreamProcessor.feed
        (StreamProcessor.init (StreamProcessor.direction s)
                              (StreamProcessor.valid_chars s))
        (x :: rest) true.
Proof.
  intros Hs. cbn [StreamProcessor.feed].
  rewrite (process_char_auto_reset s x Hs). reflexivity.
Qed.

Lemma auto_reset_restarts_witness :
  let s := fst (StreamProcessor.process_char (U := pinned blank)
                  (StreamProcessor.init Ltr None) PyNone false) in
  StreamProcessor.stopped s = true /\
  snd (StreamProcessor.feed (U := pinned blank) s
         [PyStr (lit "a"); PyStr (lit "a")] true)
    = [(true, None, []); (true, None, [(97%N, false, false, true)])].
Proof.
  intros s. split; [reflexivity|].
  rewrite (auto_reset_restarts (pinned blank) s (PyStr (lit "a")) [PyStr (lit "a")]
             eq_refl).
  vm_compute. reflexivity.
Defined.

(** ** The renderer and the streaming driver *)

Section RendererFacts.
Context {U : Unicode}.

Lemma has_valid_chars_returns (w : str) :
  Forall classifiable w -> exists b, has_valid_chars w None = Ok b.
Proof.
  induction w as [|c w IH]; intros Hw; [eexists; reflexivity|].
  apply Forall_cons in Hw as [[b Hc] Hw]. cbn [has_valid_chars]. rewrite Hc. cbn.
  destruct b; [eexists; reflexivity|apply IH, Hw].
Qed.

Lemma count_clean_returns (w : str) :
  Forall classifiable w -> exists n, count_clean w = Ok n.
Proof.
  induction w as [|c w IH]; intros Hw; [eexists; reflexivity|].
  apply Forall_cons in Hw as [[b Hc] Hw]. cbn [count_clean]. rewrite Hc. cbn.
  destruct (IH Hw) as [n ->]. cbn. eexists; reflexivity.
Qed.

Lemma String_Output_returns (w : str) result error_msg direction chars streaming sd ss :
  Forall classifiable w ->
  exists line,
    String_Output (PyStr w) result error_msg direction chars streaming sd ss = Ok line.
Proof.
  intros Hw. unfold String_Output, is_valid_input_of.
  assert (Hv : exists b, (if negb (is_empty w) then has_valid_chars w None else Ok false)
                         = Ok b).
  { destruct (negb (is_empty w)); [apply has_valid_chars_returns, Hw|eexists; reflexivity]. }
  destruct Hv as [b ->]. cbn [bind].
  destruct error_msg as [[|c m]|]; try (eexists; reflexivity).
  - destruct b; [destruct (count_clean_returns w Hw) as [n ->]|];
      cbn [bind]; eexists; reflexivity.
  - destruct b; [destruct (count_clean_returns w Hw) as [n ->]|];
      cbn [bind]; eexists; reflexivity.
Qed.

Lemma stream_loop_returns (S : list cp) d ar : forall processor current_word,
  Forall classifiable current_word -> Forall classifiable S ->
  exists lines,
    stream_loop processor current_word (map (fun c => [c]) S) d ar = Ok lines /\
    length lines = length S.
Proof.
  induction S as [|c S IH]; intros p w Hw HS; [exists []; split; reflexivity|].
  apply Forall_cons in HS as [Hc HS]. cbn [map stream_loop].
  destruct (StreamProcessor.process_char p (PyStr [c]) ar) as [p' [[r e] out]].
  assert (Hw' : Forall classifiable (w ++ [c])).
  { apply Forall_app. split; [exact Hw|]. constructor; [exact Hc|constructor]. }
  destruct (String_Output_returns (w ++ [c]) r e d out true
              (StreamProcessor.skipped_diacritics p')
              (StreamProcessor.skipped_spaces p') Hw') as [line ->].
  cbn [bind]. destruct (IH p' (w ++ [c]) Hw' HS) as (lines & -> & Hlen).
  cbn [bind]. eexists. split; [reflexivity|]. cbn. rewrite Hlen. reflexivity.
Qed.
End RendererFacts.

(** X18. [String_Output] returns a line for every word none of whose
    characters is a rejected symbol, whatever the other arguments are:
    the exception of [clean] is the only way it can fail. *)
Theorem String_Output_total_on_classifiable (U : Unicode) (w : str) (result : bool)
    (error_msg : option str) (direction : Direction) (chars : list char_info)
    (streaming : bool) (skipped_diacritics skipped_spaces : Z) :
  Forall classifiable w ->
  exists line,
    String_Output (PyStr w) result error_msg direction chars streaming
      skipped_diacritics skipped_spaces = Ok line.
Proof. apply String_Output_returns. Qed.

Lemma String_Output_total_on_classifiable_witness :
  Forall (classifiable (U := pinned blank)) (lit "a b") /\
  exists line,
    String_Output (U := pinned blank) (PyStr (lit "a b")) false None Rtl [] true 0 1
      = Ok line.
Proof.
  assert (H : Forall (classifiable (U := pinned blank)) (lit "a b")).
  { repeat constructor; eexists; reflexivity. }
  split; [exact H|].
  exact (String_Output_total_on_classifiable (pinned blank) (lit "a b") false None
           Rtl [] true 0 1 H).
Defined.

(** X19. For a stream without rejected symbols [stream_palindrome]
    returns one line per character of the stream, for every topology,
    alphabet and [auto_reset]. *)
Theorem stream_palindrome_one_line_each (U : Unicode) (S : list cp) (d : Direction)
    (vs : option (list str)) (auto_reset : bool) :
  Forall classifiable S ->
  exists lines,
    stream_palindrome (map (fun c => [c]) S) d vs auto_reset = Ok lines /\
    length lines = length S.
Proof.
  intros HS. unfold stream_palindrome.
  apply stream_loop_returns; [constructor|exact HS].
Qed.

Lemma stream_palindrome_one_line_each_witness :
  Forall (classifiable (U := pinned blank)) (lit "a a") /\
  exists lines,
    stream_palindrome (U := pinned blank) (map (fun c => [c]) (lit "a a")) Ltr None false
      = Ok lines /\
    length lines = 3.
Proof.
  assert (H : Forall (classifiable (U := pinned blank)) (lit "a a")).
  { repeat constructor; eexists; reflexivity. }
  split; [exact H|].
  exact (stream_palindrome_one_line_each (pinned blank) (lit "a a") Ltr None false H).
Defined.

(** X20. When the first character of a stream is a rejected symbol,
    [stream_palindrome] does not return: the engine catches the
    exception and stops, but the renderer classifies the word again and
    the exception leaves [stream_palindrome], whatever follows. *)
Theorem stream_palindrome_raises_on_leading_symbol (U : Unicode) (c : cp)
    (rest : list str) (d : Direction) (vs : option (list str)) (auto_reset : bool)
    (e : UnallowedCharacterError) :
  clean c None = Raise e ->
  stream_palindrome ([c] :: rest) d vs auto_reset = Raise e.
Proof.
  intros Hc. unfold stream_palindrome. cbn [stream_loop app].
  destruct (StreamProcessor.process_char _ _ _) as [p' [[r err] out]].
  unfold String_Output, is_valid_input_of.
  assert (Hsp : isspace c = false).
  { unfold clean in Hc. destruct (isspace c); [discriminate|reflexivity]. }
  unfold is_empty, str_isspace. cbn [length Nat.eqb negb orb andb forallb].
  rewrite Hsp. cbn [negb andb has_valid_chars]. rewrite Hc. reflexivity.
Qed.

Lemma stream_palindrome_raises_on_leading_symbol_witness :
  clean (U := pinned blank) 44%N None
    = Raise (Unallowed (lit "Unallowed character ','")) /\
  stream_palindrome (U := pinned blank) [lit ","; lit "a"] Ltr None false
    = Raise (Unallowed (lit "Unallowed character ','")).
Proof.
  split; [reflexivity|].
  exact (stream_palindrome_raises_on_leading_symbol (pinned blank) 44%N [lit "a"]
           Ltr None false _ eq_refl).
Defined.

(** ** The runs of the scanner *)

Section RunFacts.
Context {U : Unicode}.
Variable vs : option (list str).

Lemma extract_runs_concat rest : forall i seqs cur sp,
  let '(seqs', cur', _) := extract_runs i rest vs seqs cur sp in
  concat (map run_chars seqs') ++ cur'
  = concat (map run_chars seqs) ++ cur ++ List.filter (accepts vs) rest.
Proof.
  induction rest as [|c rest IH]; intros i seqs cur sp.
  - cbn. rewrite app_nil_r. reflexivity.
  - cbn [extract_runs List.filter]. unfold accepts at 1.
    destruct (clean c vs) as [[|]|e].
    + specialize (IH (i + 1)%Z seqs (cur ++ [c])
                     (match cur with [] => i | _ => sp end)).
      destruct (extract_runs _ rest vs seqs (cur ++ [c]) _) as [[s' c'] p'].
      rewrite IH, <- app_assoc. reflexivity.
    + destruct cur as [|x cur].
      * apply IH.
      * specialize (IH (i + 1)%Z (seqs ++ [(sp, (i - 1)%Z, x :: cur)]) [] sp).
        destruct (extract_runs _ rest vs _ [] sp) as [[s' c'] p'].
        rewrite IH, map_app, concat_app. cbn. rewrite app_nil_r, <- app_assoc.
        reflexivity.
    + destruct cur as [|x cur].
      * apply IH.
      * specialize (IH (i + 1)%Z (seqs ++ [(sp, (i - 1)%Z, x :: cur)]) [] sp).
        destruct (extract_runs _ rest vs _ [] sp) as [[s' c'] p'].
        rewrite IH, map_app, concat_app. cbn. rewrite app_nil_r, <- app_assoc.
        reflexivity.
Qed.

Lemma rejected_middle pre c rest :
  accepts vs c = false ->
  exists c', (pre ++ c :: rest) !! (S (length pre) - 1) = Some c' /\ accepts vs c' = false.
Proof.
  intros Hc. exists c. split; [|exact Hc].
  replace (S (length pre) - 1) with (length pre) by lia.
  apply list_lookup_middle. reflexivity.
Qed.

Lemma extract_runs_maximal paragraph rest : forall pre seqs cur sp,
  paragraph = pre ++ rest ->
  Forall (run_maximal vs paragraph) seqs ->
  loop_shape vs paragraph (length pre) cur sp ->
  let '(seqs', cur', sp') :=
    extract_runs (Z.of_nat (length pre)) rest vs seqs cur sp in
  Forall (run_maximal vs paragraph) seqs' /\
  loop_shape vs paragraph (length paragraph) cur' sp'.
Proof.
  induction rest as [|char rest IH]; intros pre seqs cur sp -> Hseqs Hcur.
  - cbn. rewrite app_nil_r in *. auto.
  - cbn [extract_runs].
    assert (Hstep : forall seqs' cur' sp',
               Forall (run_maximal vs (pre ++ char :: rest)) seqs' ->
               loop_shape vs (pre ++ char :: rest) (S (length pre)) cur' sp' ->
               let '(a, b, c) :=
                 extract_runs (Z.of_nat (length pre) + 1) rest vs seqs' cur' sp' in
               Forall (run_maximal vs (pre ++ char :: rest)) a /\
               loop_shape vs (pre ++ char :: rest) (length (pre ++ char :: rest)) b c).
    { intros seqs' cur' sp' H1 H2.
      specialize (IH (pre ++ [char]) seqs' cur' sp').
      rewrite length_app in IH. simpl in IH.
      replace (Z.of_nat (length pre + 1)) with (Z.of_nat (length pre) + 1)%Z in IH by lia.
      rewrite <- app_assoc in IH. simpl in IH.
      replace (length pre + 1)%nat with (S (length pre)) in IH by lia.
      apply IH; auto. }
    assert (Hlen : length (pre ++ char :: rest) = length pre + S (length rest)).
    { rewrite length_app. reflexivity. }
    destruct (accepts vs char) eqn:Hacc.
    + (* accepted: the run grows, or starts here *)
      unfold accepts in Hacc. destruct (clean char vs) as [[|]|e]; try discriminate.
      apply Hstep; [exact Hseqs|].
      destruct cur as [|x cur']; cbn [app].
      * cbn in Hcur |- *. split; [lia|]. split; [lia|].
        destruct Hcur as [H0|(c' & Hc' & Ha)]; [left; lia|right].
        exists c'. split; [|exact Ha].
        replace (Z.to_nat (Z.of_nat (length pre) - 1)) with (length pre - 1) by lia.
        exact Hc'.
      * cbn in Hcur |- *. destruct Hcur as (H0 & H1 & H2).
        split; [exact H0|]. split; [rewrite length_app; cbn; lia|exact H2].
    + (* not accepted: the run, if any, ends before this character *)
      assert (Hrej :
                let '(a, b, c) :=
                  match cur with
                  | [] => extract_runs (Z.of_nat (length pre) + 1) rest vs seqs [] sp
                  | _ :: _ =>
                      extract_runs (Z.of_nat (length pre) + 1) rest vs
                        (seqs ++ [(sp, (Z.of_nat (length pre) - 1)%Z, cur)]) [] sp
                  end in
                Forall (run_maximal vs (pre ++ char :: rest)) a /\
                loop_shape vs (pre ++ char :: rest) (length (pre ++ char :: rest)) b c).
      { destruct cur as [|x cur'].
        - apply Hstep; [exact Hseqs|]. right. apply rejected_middle, Hacc.
        - apply Hstep; [|right; apply rejected_middle, Hacc].
          apply Forall_app. split; [exact Hseqs|]. constructor; [|constructor].
          cbn in Hcur. destruct Hcur as (H0 & H1 & H2).
          split; [discriminate|]. split; [exact H0|]. split; [cbn in *; lia|].
          split; [rewrite Hlen; lia|]. split; [exact H2|].
          right. exists char. split; [|exact Hacc].
          replace (Z.to_nat (Z.of_nat (length pre) - 1 + 1)) with (length pre) by lia.
          apply list_lookup_middle. reflexivity. }
      unfold accepts in Hacc.
      destruct (clean char vs) as [[|]|e]; try discriminate; exact Hrej.
Qed.
Lemma valid_sequences_maximal (paragraph : list cp) :
  Forall (run_maximal vs paragraph) (valid_sequences_of paragraph vs).
Proof.
  unfold valid_sequences_of.
  pose proof (extract_runs_maximal paragraph paragraph [] [] [] 0%Z eq_refl
                (List.Forall_nil _) (or_introl eq_refl)) as H.
  change (Z.of_nat (length (@nil cp))) with 0%Z in H.
  destruct (extract_runs 0 paragraph vs [] [] 0) as [[seqs cur] sp].
  destruct H as [Hs Hc]. destruct cur as [|x cur]; [exact Hs|].
  apply Forall_app. split; [exact Hs|]. constructor; [|constructor].
  cbn in Hc. destruct Hc as (H0 & H1 & H2).
  split; [discriminate|]. split; [exact H0|]. split; [cbn in *; lia|].
  split; [lia|]. split; [exact H2|]. left. lia.
Qed.

End RunFacts.

(** X21. The runs partition the accepted characters: put one after the
    other, in order, they are the paragraph with every character that
    [clean] does not accept left out. *)
Theorem runs_cover_accepted (U : Unicode) (vs : option (list str))
    (paragraph : list cp) :
  concat (map run_chars (valid_sequences_of paragraph vs))
    = List.filter (accepts vs) paragraph.
Proof.
  unfold valid_sequences_of.
  pose proof (extract_runs_concat vs paragraph 0%Z [] [] 0%Z) as H.
  destruct (extract_runs 0 paragraph vs [] [] 0) as [[seqs cur] sp].
  cbn in H. rewrite <- H. destruct cur as [|x cur].
  - rewrite app_nil_r. reflexivity.
  - rewrite map_app, concat_app. cbn. rewrite app_nil_r. reflexivity.
Qed.

(** X22. Every run is a maximal run of accepted characters: it is not
    empty, its characters are those of the paragraph from its start on and
    each is accepted, its [end] is its start plus its length minus one and
    lies inside the paragraph, and on each side of it there is a
    character that is not accepted or an end of the paragraph. *)
Theorem runs_are_maximal (U : Unicode) (vs : option (list str))
    (paragraph : list cp) :
  Forall (fun r => run_ok vs paragraph r /\ run_maximal vs paragraph r)
         (valid_sequences_of paragraph vs).
Proof.
  apply Forall_and. split; [apply valid_sequences_ok|apply valid_sequences_maximal].
Qed.

(** ** What the scanner reports *)

Section ScannerFacts.
Context {U : Unicode}.

Lemma collect_In {A B} (f : A -> res UnallowedCharacterError (list B)) (l : list A) :
  forall res x, collect f l = Ok res -> In x res ->
  exists a y, In a l /\ f a = Ok y /\ In x y.
Proof.
  induction l as [|a l IH]; intros res x; cbn.
  - intros [= <-] [].
  - destruct (f a) as [y|] eqn:Ha; cbn; [|discriminate].
    destruct (collect f l) as [z|] eqn:Hz; cbn; [|discriminate].
    intros [= <-] Hx. apply in_app_or in Hx as [Hx|Hx].
    + exists a, y. auto.
    + destruct (IH z x eq_refl Hx) as (a' & y' & H1 & H2 & H3).
      exists a', y'. auto.
Qed.

Lemma find_reported d vs min_length (paragraph : list cp) results r :
  find_palindromes_in_paragraph (PyStr paragraph) d vs min_length = Ok results ->
  In r results -> reported d vs min_length paragraph r.
Proof.
  unfold find_palindromes_in_paragraph.
  destruct (is_empty paragraph); [intros [= <-] []|].
  destruct (collect _ _) as [res|] eqn:Hres; [|discriminate].
  intros [= <-] Hr.
  destruct (collect_In _ _ _ _ Hres Hr) as ([[start e] sequence] & y & Hrun & Hy & Hr1).
  unfold check_sequence in Hy.
  destruct (collect_In _ _ _ _ Hy Hr1) as (i & y2 & Hi & Hy2 & Hr2).
  destruct (collect_In _ _ _ _ Hy2 Hr2) as (j & y3 & Hj & Hy3 & Hr3).
  apply in_seq in Hi, Hj. unfold check_substring in Hy3.
  destruct (_ <? min_length)%Z eqn:Hmin; [injection Hy3 as <-; destruct Hr3|].
  destruct (drive _ _ _) as [[[p result] err] out] eqn:Hdrive.
  destruct result; [|injection Hy3 as <-; destruct Hr3].
  destruct (String_Output _ _ _ _ _ _ _ _) as [o|]; [|discriminate].
  injection Hy3 as <-. destruct Hr3 as [<-|[]].
  exists start, e, sequence, i, j. cbn.
  split; [exact Hrun|]. split; [lia|]. split; [reflexivity|].
  split; [reflexivity|]. split; [reflexivity|].
  split; [apply Z.ltb_ge in Hmin; exact Hmin|]. eauto.
Qed.

Lemma run_slice vs (paragraph : list cp) start e sequence :
  run_ok vs paragraph (start, e, sequence) ->
  sequence = firstn (length sequence) (skipn (Z.to_nat start) paragraph) /\
  Forall (fun c => clean c vs = Ok true) sequence.
Proof.
  intros [H0 Hrun]. split.
  - apply list_eq. intros k.
    destruct (decide (k < length sequence)) as [Hlt|Hge].
    + rewrite lookup_take_lt, lookup_drop by exact Hlt.
      destruct (lookup_lt_is_Some_2 sequence k Hlt) as [c Hc].
      rewrite Hc. symmetry. apply (Hrun k c Hc).
    + rewrite lookup_take_ge by lia. apply lookup_ge_None. lia.
  - apply Forall_lookup. intros k c Hc. apply (Hrun k c Hc).
Qed.
End ScannerFacts.

(** X23. An entry of the result is a slice of the paragraph: its text is
    the paragraph from [start_pos] to [end_pos], both inside the
    paragraph, it is at least [min_length] long and not empty, and all
    its characters are accepted. *)
Theorem found_entries_are_slices (U : Unicode) (d : Direction)
    (vs : option (list str)) (min_length : Z) (paragraph : list cp)
    (results : list found) :
  find_palindromes_in_paragraph (PyStr paragraph) d vs min_length = Ok results ->
  Forall (fun r =>
            (0 <= start_pos r <= end_pos r)%Z /\
            (end_pos r < Z.of_nat (length paragraph))%Z /\
            palindrome r
              = firstn (Z.to_nat (end_pos r - start_pos r + 1))
                       (skipn (Z.to_nat (start_pos r)) paragraph) /\
            (min_length <= Z.of_nat (length (palindrome r)))%Z /\
            Forall (fun c => clean c vs = Ok true) (palindrome r))
         results.
Proof.
  intros Hf. apply List.Forall_forall. intros r Hr.
  destruct (find_reported d vs min_length paragraph results r Hf Hr)
    as (start & e & sequence & i & j & Hrun & Hij & Hp & Hs & He & Hmin & _).
  pose proof (valid_sequences_ok vs paragraph) as Hok.
  rewrite List.Forall_forall in Hok. specialize (Hok _ Hrun).
  destruct (run_slice vs paragraph start e sequence Hok) as [Hslice Hacc].
  destruct Hok as [H0 Hlook].
  assert (Hlen : Z.to_nat start + length sequence <= length paragraph).
  { destruct (lookup_lt_is_Some_2 sequence j ltac:(lia)) as [c Hc].
    destruct (lookup_lt_is_Some_2 sequence (length sequence - 1) ltac:(lia)) as [c' Hc'].
    destruct (Hlook _ _ Hc') as [Hp' _]. apply lookup_lt_Some in Hp'. lia. }
  split; [lia|]. split; [lia|]. split; [|split; [exact Hmin|]].
  - rewrite Hp, Hs, He.
    replace (Z.to_nat (start + Z.of_nat j - (start + Z.of_nat i) + 1))
      with (j + 1 - i) by lia.
    replace (Z.to_nat (start + Z.of_nat i)) with (Z.to_nat start + i) by lia.
    apply list_eq. intros k.
    destruct (decide (k < j + 1 - i)) as [Hlt|Hge].
    + rewrite !lookup_take_lt, !lookup_drop by exact Hlt.
      destruct (lookup_lt_is_Some_2 sequence (i + k) ltac:(lia)) as [c Hc].
      rewrite Hc. destruct (Hlook _ _ Hc) as [Hp' _].
      rewrite <- Hp'. f_equal. lia.
    + rewrite !lookup_take_ge by lia. reflexivity.
  - rewrite Hp. apply Forall_take, Forall_drop, Hacc.
Qed.

Lemma found_entries_are_slices_witness :
  exists results,
    find_palindromes_in_paragraph (U := pinned blank) (PyStr (lit "aa b")) Ltr None 2
      = Ok results /\
    Forall (fun r =>
              (0 <= start_pos r <= end_pos r)%Z /\
              (end_pos r < Z.of_nat (length (lit "aa b")))%Z /\
              palindrome r
                = firstn (Z.to_nat (end_pos r - start_pos r + 1))
                         (skipn (Z.to_nat (start_pos r)) (lit "aa b")) /\
              (2 <= Z.of_nat (length (palindrome r)))%Z /\
              Forall (fun c => clean (U := pinned blank) c None = Ok true) (palindrome r))
           results.
Proof.
  eexists. split; [vm_compute; reflexivity|].
  apply (found_entries_are_slices (pinned blank) Ltr None 2 (lit "aa b")).
  vm_compute. reflexivity.
Defined.

(** ** The inner loop of the scanner *)

Section InnerLoop.
Context {U : Unicode}.

Lemma forallb_pointwise {A} (f g : A -> bool) (l : list A) :
  (forall x, f x = g x) -> forallb f l = forallb g l.
Proof.
  intros H. induction l as [|x l IH]; [reflexivity|]. cbn. rewrite H, IH. reflexivity.
Qed.

Lemma forallb_seq_shift (f : nat -> bool) (n : nat) :
  forallb f (seq 1 n) = forallb (fun k => f (Datatypes.S k)) (seq 0 n).
Proof.
  rewrite <- seq_shift. induction (seq 0 n) as [|x l IH]; [reflexivity|].
  cbn. rewrite IH. reflexivity.
Qed.

Lemma drive_verdicts vs d (P : cp -> Prop) (F : list cp -> verdict)
    (HF : forall s c ar,
        steady vs d P s -> clean c vs = Ok true -> P c ->
        snd (StreamProcessor.process_char s (PyStr [c]) ar)
          = F (StreamProcessor.buffer s ++ [c]))
    (S : list cp) : forall s out,
  steady vs d P s ->
  Forall (fun c => clean c vs = Ok true /\ P c) S ->
  drive_result (drive s S out)
    = forallb (fun k => fst (fst (F (StreamProcessor.buffer s ++ firstn (Datatypes.S k) S))))
              (seq 0 (length S)).
Proof.
  induction S as [|c S IH]; intros s out Hs HS; [reflexivity|].
  apply Forall_cons in HS as [[Hcl Hp] HS].
  cbn [drive length seq forallb].
  pose proof (HF s c false Hs Hcl Hp) as Hv.
  destruct (steady_step vs d P s c false Hs Hcl Hp) as [Hs' Hb'].
  destruct (StreamProcessor.process_char s (PyStr [c]) false) as [s1 [[r e] chars]].
  cbn in Hv, Hs', Hb'. cbn [firstn]. change (take 0 S) with (@nil cp).
  rewrite <- Hv. cbn [fst].
  destruct r; cbn [negb andb]; [|reflexivity].
  rewrite (IH s1 chars Hs' HS), forallb_seq_shift.
  apply forallb_pointwise. intros k. rewrite Hb', <- app_assoc. reflexivity.
Qed.

(** A list all of whose prefixes read the same in both directions is
    constant, and conversely. *)
Lemma palindromic_prefixes (keys : list Z) :
  forallb (fun k => palindromic (firstn (Datatypes.S k) keys)) (seq 0 (length keys)) = true
  <-> exists h, Forall (fun x => x = h) keys.
Proof.
  split.
  - intros H. exists (nth 0 keys 0%Z). apply List.Forall_forall. intros x Hx.
    destruct (In_nth keys x 0%Z Hx) as (k & Hk & <-).
    rewrite forallb_forall in H. specialize (H k).
    rewrite in_seq in H. specialize (H ltac:(lia)).
    unfold palindromic in H. apply bool_decide_eq_true in H.
    assert (Hlen : length (firstn (Datatypes.S k) keys) = Datatypes.S k).
    { rewrite length_firstn. lia. }
    assert (H0 : nth 0 (firstn (Datatypes.S k) keys) 0%Z = nth 0 keys 0%Z).
    { destruct keys; reflexivity. }
    assert (Hk' : nth k (firstn (Datatypes.S k) keys) 0%Z = nth k keys 0%Z).
    { rewrite <- (firstn_skipn (Datatypes.S k) keys) at 2.
      rewrite app_nth1 by lia. reflexivity. }
    rewrite <- Hk', <- H0. rewrite H at 2.
    rewrite rev_nth by lia. rewrite Hlen. f_equal. lia.
  - intros [h Hh]. apply forallb_forall. intros k _.
    unfold palindromic. apply bool_decide_eq_true.
    assert (Hrep : forall l : list Z, Forall (fun x => x = h) l -> l = repeat h (length l)).
    { induction l as [|x l IH]; intros Hl; [reflexivity|].
      apply Forall_cons in Hl as [-> Hl]. cbn. f_equal. apply IH, Hl. }
    rewrite (Hrep (firstn (Datatypes.S k) keys)) by (apply Forall_take, Hh).
    symmetry. apply rev_repeat.
Qed.

Lemma accepted_hashable (c : cp) : clean c None = Ok true -> hashable c = true.
Proof.
  unfold clean, hashable, is_emoticon. rewrite allow_list_single.
  destruct (isspace c); cbn [orb]; [discriminate|].
  destruct (category_Mn c); [discriminate|].
  destruct (isalpha c); cbn [orb snd]; [reflexivity|].
  destruct (is_emoji_base c); [reflexivity|discriminate].
Qed.

(** The inner loop under [ltr]. *)
Lemma drive_ltr vs (S : list cp) :
  Forall (fun c => clean c vs = Ok true /\ hashable c = true) S ->
  drive_result (drive (StreamProcessor.init Ltr vs) S []) = true <-> one_key S.
Proof.
  intros HS.
  rewrite (drive_verdicts vs Ltr (fun c => hashable c = true) forward_verdict
             (ltr_step vs) S _ [] (steady_init vs Ltr _) HS).
  cbn [StreamProcessor.init StreamProcessor.buffer app].
  unfold forward_verdict. cbn [fst].
  rewrite (forallb_pointwise _
             (fun k => palindromic (firstn (Datatypes.S k) (map compute_hash S))))
    by (intros k; rewrite firstn_map; reflexivity).
  rewrite <- (length_map compute_hash S), palindromic_prefixes.
  unfold one_key. split; intros [h Hh]; exists h.
  - apply Forall_map in Hh. exact Hh.
  - apply Forall_map. exact Hh.
Qed.

(** The inner loop under [rtl] and [center-out]. *)
Lemma drive_backward d vs (c1 c2 : cp) (rest : list cp) :
  d = Rtl \/ d = CenterOut -> clean c1 vs = Ok true ->
  drive_result (drive (StreamProcessor.init d vs) (c1 :: c2 :: rest) []) = false.
Proof.
  intros Hd Hc1.
  pose proof (steady_init vs d (fun _ => True)) as Hs.
  pose proof (first_character_step vs d _ c1 false Hs eq_refl Hc1) as Hv.
  destruct (steady_step vs d (fun _ => True) _ c1 false Hs Hc1 I) as [Hs1 Hb1].
  cbn [drive].
  destruct (StreamProcessor.process_char (StreamProcessor.init d vs) (PyStr [c1]) false)
    as [s1 [[r e] chars]].
  cbn in Hv, Hs1, Hb1. injection Hv as -> -> ->. cbn [negb].
  assert (Hres : result_of (StreamProcessor.process_char s1 (PyStr [c2]) false) = false).
  { destruct Hs1 as ((Hst & _) & Hdir & _). destruct Hd as [->| ->].
    - apply rtl_window_rejected; [exact Hdir|exact Hst|]. rewrite Hb1. discriminate.
    - apply center_out_even_window_rejected; [exact Hdir|exact Hst|].
      rewrite Hb1. exists 0. reflexivity. }
  destruct (StreamProcessor.process_char s1 (PyStr [c2]) false) as [s2 [[r2 e2] chars2]].
  unfold result_of in Hres. cbn in Hres. subst r2. reflexivity.
Qed.
End InnerLoop.

(** ** The scan by positions *)

Section Positions.
Context {U : Unicode}.
Variable vs : option (list str).

Lemma collect_returns {A B} (f : A -> res UnallowedCharacterError (list B)) (l : list A) :
  (forall a, In a l -> exists y, f a = Ok y) -> exists res, collect f l = Ok res.
Proof.
  induction l as [|a l IH]; intros Hf; [eexists; reflexivity|].
  destruct (Hf a (or_introl eq_refl)) as [y Hy].
  destruct IH as [z Hz]; [intros a' Ha'; apply Hf; right; exact Ha'|].
  cbn. rewrite Hy. cbn. rewrite Hz. cbn. eexists; reflexivity.
Qed.

Lemma collect_member {A B} (f : A -> res UnallowedCharacterError (list B)) (l : list A) :
  forall res a, collect f l = Ok res -> In a l ->
  exists y, f a = Ok y /\ forall x, In x y -> In x res.
Proof.
  induction l as [|a0 l IH]; intros res a; cbn; [intros _ []|].
  destruct (f a0) as [y|] eqn:Ha; cbn; [|discriminate].
  destruct (collect f l) as [z|] eqn:Hz; cbn; [|discriminate].
  intros [= <-] [<-|Hin].
  - exists y. split; [exact Ha|]. intros x Hx. apply in_or_app. left. exact Hx.
  - destruct (IH z a eq_refl Hin) as (y' & Hy' & Hsub).
    exists y'. split; [exact Hy'|]. intros x Hx. apply in_or_app. right. auto.
Qed.

(** What the body of the two loops appends for one [(i, j)]. *)
Lemma check_substring_yields start sequence i j d min_length y :
  check_substring start sequence i j d vs min_length = Ok y ->
  let substring := firstn (j + 1 - i) (skipn i sequence) in
  if (min_length <=? Z.of_nat (length substring))%Z
     && drive_result (drive (StreamProcessor.init d vs) substring [])
  then exists o, y = [Found substring (start + Z.of_nat i) (start + Z.of_nat j) o]
  else y = [].
Proof.
  unfold check_substring. cbv zeta. rewrite Z.leb_antisym.
  destruct (_ <? min_length)%Z; cbn [negb andb]; [intros [= <-]; reflexivity|].
  destruct (drive _ _ _) as [[[p result] err] out]. unfold drive_result. cbn [fst snd].
  destruct result; [|intros [= <-]; reflexivity].
  destruct (String_Output _ _ _ _ _ _ _ _) as [o|]; [|discriminate].
  intros [= <-]. eexists; reflexivity.
Qed.

(** The entries of the result, by run and indices. *)
Lemma find_entries d min_length (paragraph : list cp) results :
  find_palindromes_in_paragraph (PyStr paragraph) d vs min_length = Ok results ->
  forall a b,
    reports results a b <->
    is_empty paragraph = false /\
    exists start e sequence i j,
      In (start, e, sequence) (valid_sequences_of paragraph vs) /\
      i <= j < length sequence /\
      Z.of_nat a = (start + Z.of_nat i)%Z /\ Z.of_nat b = (start + Z.of_nat j)%Z /\
      (min_length <= Z.of_nat (length (firstn (j + 1 - i) (skipn i sequence))))%Z /\
      drive_result (drive (StreamProcessor.init d vs)
                          (firstn (j + 1 - i) (skipn i sequence)) []) = true.
Proof.
  unfold find_palindromes_in_paragraph.
  destruct (is_empty paragraph).
  { intros [= <-] a b. split; [intros (r & [] & _)|intros [? _]; discriminate]. }
  destruct (collect _ _) as [res|] eqn:Hres; [|discriminate].
  intros [= <-] a b. split.
  - intros (r & Hr & Ha & Hb). split; [reflexivity|].
    destruct (collect_In _ _ _ _ Hres Hr) as ([[start e] sequence] & y & Hrun & Hy & Hr1).
    unfold check_sequence in Hy.
    destruct (collect_In _ _ _ _ Hy Hr1) as (i & y2 & Hi & Hy2 & Hr2).
    destruct (collect_In _ _ _ _ Hy2 Hr2) as (j & y3 & Hj & Hy3 & Hr3).
    apply in_seq in Hi, Hj.
    pose proof (check_substring_yields _ _ _ _ _ _ _ Hy3) as Hy'.
    cbv zeta in Hy'.
    destruct (_ <=? _)%Z eqn:Hmin; cbn [andb] in Hy';
      [|subst y3; destruct Hr3].
    destruct (drive_result _) eqn:Hdrive; [|subst y3; destruct Hr3].
    destruct Hy' as [o ->]. destruct Hr3 as [<-|[]]. cbn in Ha, Hb.
    exists start, e, sequence, i, j.
    split; [exact Hrun|]. split; [lia|]. split; [lia|]. split; [lia|].
    split; [apply Z.leb_le, Hmin|exact Hdrive].
  - intros (_ & start & e & sequence & i & j & Hrun & Hij & Ha & Hb & Hmin & Hdrive).
    destruct (collect_member _ _ _ _ Hres Hrun) as (y & Hy & Hsub).
    unfold check_sequence in Hy.
    destruct (collect_member _ _ _ i Hy) as (y2 & Hy2 & Hsub2); [apply in_seq; lia|].
    destruct (collect_member _ _ _ j Hy2) as (y3 & Hy3 & Hsub3); [apply in_seq; lia|].
    pose proof (check_substring_yields _ _ _ _ _ _ _ Hy3) as Hy'.
    cbv zeta in Hy'. apply Z.leb_le in Hmin. rewrite Hmin, Hdrive in Hy'.
    destruct Hy' as [o ->].
    eexists. split; [apply Hsub, Hsub2, Hsub3; left; reflexivity|].
    cbn. split; lia.
Qed.
End Positions.

Section Coverage.
Context {U : Unicode}.
Variable vs : option (list str).

Lemma extract_runs_covers paragraph rest : forall pre seqs cur sp,
  paragraph = pre ++ rest ->
  loop_covers vs paragraph (length pre) seqs cur sp ->
  let '(seqs', cur', sp') :=
    extract_runs (Z.of_nat (length pre)) rest vs seqs cur sp in
  loop_covers vs paragraph (length paragraph) seqs' cur' sp'.
Proof.
  induction rest as [|char rest IH]; intros pre seqs cur sp -> Hinv.
  - cbn. rewrite app_nil_r in *. exact Hinv.
  - cbn [extract_runs].
    assert (Hstep : forall seqs' cur' sp',
               loop_covers vs (pre ++ char :: rest) (S (length pre)) seqs' cur' sp' ->
               let '(a, b, c) :=
                 extract_runs (Z.of_nat (length pre) + 1) rest vs seqs' cur' sp' in
               loop_covers vs (pre ++ char :: rest) (length (pre ++ char :: rest)) a b c).
    { intros seqs' cur' sp' H1.
      specialize (IH (pre ++ [char]) seqs' cur' sp').
      rewrite length_app in IH. simpl in IH.
      replace (Z.of_nat (length pre + 1)) with (Z.of_nat (length pre) + 1)%Z in IH by lia.
      rewrite <- app_assoc in IH. simpl in IH.
      replace (length pre + 1)%nat with (S (length pre)) in IH by lia.
      apply IH; auto. }
    assert (Hhere : (pre ++ char :: rest) !! length pre = Some char).
    { apply list_lookup_middle. reflexivity. }
    destruct Hinv as [Hsp Hcov].
    destruct (accepts vs char) eqn:Hacc.
    + unfold accepts in Hacc. destruct (clean char vs) as [[|]|e]; try discriminate.
      apply Hstep. split.
      * intros _. destruct cur; [lia|]. specialize (Hsp ltac:(discriminate)). lia.
      * intros a c Ha Hc Hok. destruct (decide (a = length pre)) as [->|Hne].
        -- right. split; [destruct cur; discriminate|].
           destruct cur; [lia|]. apply Hsp. discriminate.
        -- destruct (Hcov a c ltac:(lia) Hc Hok) as [H|[Hne' Hle]]; [left; exact H|].
           right. split; [destruct cur; discriminate|].
           destruct cur; [contradiction|exact Hle].
    + assert (Hrej :
                let '(a, b, c) :=
                  match cur with
                  | [] => extract_runs (Z.of_nat (length pre) + 1) rest vs seqs [] sp
                  | _ :: _ =>
                      extract_runs (Z.of_nat (length pre) + 1) rest vs
                        (seqs ++ [(sp, (Z.of_nat (length pre) - 1)%Z, cur)]) [] sp
                  end in
                loop_covers vs (pre ++ char :: rest) (length (pre ++ char :: rest)) a b c).
      { assert (Hbefore : forall a c, a < S (length pre) ->
                  (pre ++ char :: rest) !! a = Some c -> accepts vs c = true ->
                  a < length pre).
        { intros a c Ha Hc Hok. destruct (decide (a = length pre)) as [->|]; [|lia].
          rewrite Hhere in Hc. injection Hc as <-. congruence. }
        destruct cur as [|x cur'].
        - apply Hstep. split; [contradiction|].
          intros a c Ha Hc Hok. left.
          destruct (Hcov a c (Hbefore a c Ha Hc Hok) Hc Hok) as [H|[[] _]];
            [exact H|reflexivity].
        - apply Hstep. split; [contradiction|].
          intros a c Ha Hc Hok. left. pose proof (Hbefore a c Ha Hc Hok) as Hlt.
          unfold covered. apply Exists_app.
          destruct (Hcov a c Hlt Hc Hok) as [H|[_ Hle]]; [left; exact H|right].
          constructor. lia. }
      unfold accepts in Hacc.
      destruct (clean char vs) as [[|]|e]; try discriminate; exact Hrej.
Qed.

Lemma valid_sequences_cover (paragraph : list cp) a c :
  paragraph !! a = Some c -> clean c vs = Ok true ->
  covered (valid_sequences_of paragraph vs) a.
Proof.
  intros Hc Hok. unfold valid_sequences_of.
  assert (H0 : loop_covers vs paragraph (length (@nil cp)) [] [] 0).
  { split; [contradiction|]. cbn. intros; lia. }
  pose proof (extract_runs_covers paragraph paragraph [] [] [] 0%Z eq_refl H0) as H.
  change (Z.of_nat (length (@nil cp))) with 0%Z in H.
  destruct (extract_runs 0 paragraph vs [] [] 0) as [[seqs cur] sp].
  destruct H as [Hsp Hcov]. pose proof (lookup_lt_Some _ _ _ Hc) as Hlt.
  assert (Hacc : accepts vs c = true) by (unfold accepts; rewrite Hok; reflexivity).
  destruct (Hcov a c Hlt Hc Hacc) as [H|[Hne Hle]].
  - destruct cur; [exact H|]. unfold covered. apply Exists_app. left. exact H.
  - destruct cur; [contradiction|]. unfold covered. apply Exists_app. right.
    constructor. lia.
Qed.

Lemma stretch_lookup (paragraph : list cp) a b k :
  k < b + 1 - a -> stretch paragraph a b !! k = paragraph !! (a + k).
Proof. intros Hk. unfold stretch. rewrite lookup_take_lt, lookup_drop by exact Hk. reflexivity. Qed.

Lemma stretch_length (paragraph : list cp) a b :
  a <= b < length paragraph -> length (stretch paragraph a b) = b + 1 - a.
Proof. intros H. unfold stretch. rewrite length_take, length_drop. lia. Qed.

(** A stretch of a run is a stretch of the paragraph. *)
Lemma run_stretch (paragraph : list cp) start e sequence i j a b :
  In (start, e, sequence) (valid_sequences_of paragraph vs) ->
  i <= j < length sequence ->
  Z.of_nat a = (start + Z.of_nat i)%Z -> Z.of_nat b = (start + Z.of_nat j)%Z ->
  a <= b < length paragraph /\
  firstn (j + 1 - i) (skipn i sequence) = stretch paragraph a b /\
  Forall (fun c => clean c vs = Ok true) (stretch paragraph a b).
Proof.
  intros Hrun Hij Ha Hb.
  pose proof (valid_sequences_ok vs paragraph) as Hok.
  rewrite List.Forall_forall in Hok. specialize (Hok _ Hrun).
  destruct Hok as [H0 Hlook].
  assert (Hlen : Z.to_nat start + length sequence <= length paragraph).
  { destruct (lookup_lt_is_Some_2 sequence (length sequence - 1) ltac:(lia)) as [c' Hc'].
    destruct (Hlook _ _ Hc') as [Hp' _]. apply lookup_lt_Some in Hp'. lia. }
  assert (Heq : firstn (j + 1 - i) (skipn i sequence) = stretch paragraph a b).
  { apply list_eq. intros k. replace (j + 1 - i) with (b + 1 - a) by lia.
    destruct (decide (k < b + 1 - a)) as [Hlt|Hge].
    - rewrite stretch_lookup, lookup_take_lt, lookup_drop by exact Hlt.
      destruct (lookup_lt_is_Some_2 sequence (i + k) ltac:(lia)) as [c Hc].
      rewrite Hc. destruct (Hlook _ _ Hc) as [Hp' _].
      rewrite <- Hp'. f_equal. lia.
    - unfold stretch. rewrite !lookup_take_ge by lia. reflexivity. }
  split; [lia|]. split; [exact Heq|]. rewrite <- Heq.
  apply Forall_take, Forall_drop, Forall_lookup. intros k c Hc. apply (Hlook k c Hc).
Qed.

(** A stretch of accepted characters of the paragraph lies in one run. *)
Lemma stretch_run (paragraph : list cp) a b :
  a <= b < length paragraph ->
  Forall (fun c => clean c vs = Ok true) (stretch paragraph a b) ->
  exists start e sequence i j,
    In (start, e, sequence) (valid_sequences_of paragraph vs) /\
    i <= j < length sequence /\
    Z.of_nat a = (start + Z.of_nat i)%Z /\ Z.of_nat b = (start + Z.of_nat j)%Z.
Proof.
  intros Hab Hacc. rewrite Forall_lookup in Hacc.
  assert (Hat : forall k, a <= k <= b -> exists c,
               paragraph !! k = Some c /\ clean c vs = Ok true).
  { intros k Hk.
    destruct (lookup_lt_is_Some_2 paragraph k ltac:(lia)) as [c Hc].
    exists c. split; [exact Hc|]. apply (Hacc (k - a)).
    rewrite stretch_lookup by lia. rewrite <- Hc. f_equal. lia. }
  destruct (Hat a ltac:(lia)) as (c & Hc & Hok).
  pose proof (valid_sequences_cover paragraph a c Hc Hok) as Hcov.
  unfold covered in Hcov. apply List.Exists_exists in Hcov.
  destruct Hcov as ([[start e] sequence] & Hrun & Hin).
  pose proof (valid_sequences_maximal vs paragraph) as Hmax.
  rewrite List.Forall_forall in Hmax. specialize (Hmax _ Hrun).
  destruct Hmax as (Hne & H0 & He & Hlt & _ & Hright).
  assert (Hbe : (Z.of_nat b <= e)%Z).
  { destruct (Z_le_gt_dec (Z.of_nat b) e) as [H|H]; [exact H|exfalso].
    destruct Hright as [Hend|(c' & Hc' & Hrej)]; [lia|].
    destruct (Hat (Z.to_nat (e + 1)) ltac:(lia)) as (c'' & Hc'' & Hok'').
    rewrite Hc' in Hc''. injection Hc'' as <-.
    unfold accepts in Hrej. rewrite Hok'' in Hrej. discriminate. }
  exists start, e, sequence, (a - Z.to_nat start), (b - Z.to_nat start).
  split; [exact Hrun|]. lia.
Qed.

Lemma blank_not_accepted (paragraph : list cp) a c :
  is_empty paragraph = true -> paragraph !! a = Some c -> clean c vs <> Ok true.
Proof.
  unfold is_empty, str_isspace. intros He Hc.
  destruct (length paragraph =? 0) eqn:Hl.
  { apply Nat.eqb_eq in Hl. apply lookup_lt_Some in Hc. lia. }
  cbn in He. rewrite forallb_forall in He.
  assert (Hin : In c paragraph).
  { apply list_elem_of_In. apply (list_elem_of_lookup_2 _ a). exact Hc. }
  specialize (He c Hin). unfold clean. rewrite He. discriminate.
Qed.

(** The entries of the result, by positions in the paragraph. *)
Lemma scan_positions d min_length (paragraph : list cp) results :
  find_palindromes_in_paragraph (PyStr paragraph) d vs min_length = Ok results ->
  forall a b,
    reports results a b <->
    a <= b < length paragraph /\
    (min_length <= Z.of_nat (b + 1 - a))%Z /\
    Forall (fun c => clean c vs = Ok true) (stretch paragraph a b) /\
    drive_result (drive (StreamProcessor.init d vs) (stretch paragraph a b) []) = true.
Proof.
  intros Hf a b. rewrite (find_entries vs d min_length paragraph results Hf a b).
  split.
  - intros (_ & start & e & sequence & i & j & Hrun & Hij & Ha & Hb & Hmin & Hdrive).
    destruct (run_stretch paragraph start e sequence i j a b Hrun Hij Ha Hb)
      as (Hab & Heq & Hacc).
    rewrite Heq in Hmin, Hdrive. rewrite stretch_length in Hmin by exact Hab.
    auto.
  - intros (Hab & Hmin & Hacc & Hdrive). split.
    + destruct (is_empty paragraph) eqn:He; [exfalso|reflexivity].
      destruct (lookup_lt_is_Some_2 paragraph a ltac:(lia)) as [c Hc].
      apply (blank_not_accepted paragraph a c He Hc).
      rewrite Forall_lookup in Hacc. apply (Hacc 0).
      rewrite stretch_lookup by lia. rewrite Nat.add_0_r. exact Hc.
    + destruct (stretch_run paragraph a b Hab Hacc)
        as (start & e & sequence & i & j & Hrun & Hij & Ha & Hb).
      exists start, e, sequence, i, j.
      destruct (run_stretch paragraph start e sequence i j a b Hrun Hij Ha Hb)
        as (_ & Heq & _).
      rewrite Heq, stretch_length by exact Hab. auto 10.
Qed.
End Coverage.

Section ScanResults.
Context {U : Unicode}.
Variable vs : option (list str).

Lemma drive_single d (c : cp) :
  clean c vs = Ok true ->
  drive (StreamProcessor.init d vs) [c] []
    = (fst (StreamProcessor.process_char (StreamProcessor.init d vs) (PyStr [c]) false),
       true, None, []).
Proof.
  intros Hc.
  pose proof (first_character_step vs d _ c false
                (steady_init vs d (fun _ => True)) eq_refl Hc) as Hv.
  cbn [drive].
  destruct (StreamProcessor.process_char (StreamProcessor.init d vs) (PyStr [c]) false)
    as [s1 [[r e] chars]].
  cbn in Hv. injection Hv as -> -> ->. reflexivity.
Qed.

Lemma stretch_single (paragraph : list cp) a c :
  paragraph !! a = Some c -> stretch paragraph a a = [c].
Proof.
  intros Hc. unfold stretch. replace (a + 1 - a) with 1 by lia.
  apply list_eq. intros [|k].
  - rewrite lookup_take_lt, lookup_drop, Nat.add_0_r by lia. exact Hc.
  - rewrite lookup_take_ge by lia. reflexivity.
Qed.

Lemma stretch_two (paragraph : list cp) a b :
  a < b < length paragraph ->
  exists c1 c2 rest, stretch paragraph a b = c1 :: c2 :: rest.
Proof.
  intros Hab. pose proof (stretch_length paragraph a b ltac:(lia)) as Hlen.
  destruct (stretch paragraph a b) as [|c1 [|c2 rest]]; cbn in Hlen; try lia.
  eauto.
Qed.

(** The one-character substring of a character the renderer cannot
    classify. *)
Lemma check_substring_single_raises start (sequence : list cp) i c d min_length e :
  sequence !! i = Some c -> clean c vs = Ok true -> clean c None = Raise e ->
  (min_length <= 1)%Z ->
  check_substring start sequence i i d vs min_length = Raise e.
Proof.
  intros Hi Hc He Hmin. unfold check_substring.
  assert (Hsub : firstn (i + 1 - i) (skipn i sequence) = [c]).
  { replace (i + 1 - i) with 1 by lia. apply list_eq. intros [|k].
    - rewrite lookup_take_lt, lookup_drop, Nat.add_0_r by lia. exact Hi.
    - rewrite lookup_take_ge by lia. reflexivity. }
  rewrite Hsub. cbn [length]. rewrite Zltb_false by lia.
  rewrite (drive_single d c Hc).
  unfold String_Output, is_valid_input_of.
  assert (Hsp : isspace c = false).
  { unfold clean in He. destruct (isspace c); [discriminate|reflexivity]. }
  unfold is_empty, str_isspace. cbn [length Nat.eqb negb orb andb forallb].
  rewrite Hsp. cbn [negb andb has_valid_chars]. rewrite He. reflexivity.
Qed.
End ScanResults.

(** X24. What the scanner reports under [ltr].  When every accepted
    character of the paragraph can be hashed (as with the default
    alphabet) and the scan returns, the result has an entry for the
    positions [a..b] exactly when they lie in the paragraph, hold at
    least [min_length] characters, all accepted, and all with one and
    the same key: the words reported are the repetitions of one letter
    (in either case) or emoji, and nothing else. *)
Theorem ltr_scan_reports (U : Unicode) (vs : option (list str))
    (min_length : Z) (paragraph : list cp) (results : list found) :
  Forall (fun c => clean c vs = Ok true -> hashable c = true) paragraph ->
  find_palindromes_in_paragraph (PyStr paragraph) Ltr vs min_length = Ok results ->
  forall a b,
    reports results a b <->
    a <= b < length paragraph /\
    (min_length <= Z.of_nat (b + 1 - a))%Z /\
    Forall (fun c => clean c vs = Ok true) (stretch paragraph a b) /\
    one_key (stretch paragraph a b).
Proof.
  intros Hh Hf a b. rewrite (scan_positions vs Ltr min_length paragraph results Hf a b).
  assert (Hiff : Forall (fun c => clean c vs = Ok true) (stretch paragraph a b) ->
                 (drive_result (drive (StreamProcessor.init Ltr vs)
                                      (stretch paragraph a b) []) = true
                  <-> one_key (stretch paragraph a b))).
  { intros Hacc. apply drive_ltr.
    assert (Hh' : Forall (fun c => clean c vs = Ok true -> hashable c = true)
                         (stretch paragraph a b)).
    { apply Forall_take, Forall_drop, Hh. }
    rewrite List.Forall_forall in *. intros c Hc. split; [apply Hacc|apply Hh']; auto. }
  split; intros (H1 & H2 & H3 & H4); (split; [exact H1|]); (split; [exact H2|]);
    (split; [exact H3|]); apply (Hiff H3); exact H4.
Qed.

Lemma ltr_scan_reports_witness :
  exists results,
    find_palindromes_in_paragraph (U := pinned blank) (PyStr (lit "aAb")) Ltr None 2
      = Ok results /\
    (reports results 0 1 <->
     0 <= 1 < length (lit "aAb") /\
     (2 <= Z.of_nat (1 + 1 - 0))%Z /\
     Forall (fun c => clean (U := pinned blank) c None = Ok true)
            (stretch (lit "aAb") 0 1) /\
     one_key (U := pinned blank) (stretch (lit "aAb") 0 1)).
Proof.
  eexists. split; [vm_compute; reflexivity|].
  apply (ltr_scan_reports (pinned blank) None 2 (lit "aAb")).
  - repeat constructor.
  - vm_compute. reflexivity.
Defined.

(** X25. What the scanner reports under [rtl] and [center-out].  When
    the scan returns, the result has an entry for the positions [a..b]
    exactly when [a = b], the character there is accepted and
    [min_length] is at most one: only single characters are reported,
    whatever the alphabet is. *)
Theorem backward_scan_reports (U : Unicode) (d : Direction)
    (vs : option (list str)) (min_length : Z) (paragraph : list cp)
    (results : list found) :
  d = Rtl \/ d = CenterOut ->
  find_palindromes_in_paragraph (PyStr paragraph) d vs min_length = Ok results ->
  forall a b,
    reports results a b <->
    a = b /\ (min_length <= 1)%Z /\
    exists c, paragraph !! a = Some c /\ clean c vs = Ok true.
Proof.
  intros Hd Hf a b. rewrite (scan_positions vs d min_length paragraph results Hf a b).
  split.
  - intros (Hab & Hmin & Hacc & Hdrive).
    destruct (decide (a = b)) as [<-|Hne].
    + destruct (lookup_lt_is_Some_2 paragraph a ltac:(lia)) as [c Hc].
      rewrite (stretch_single paragraph a c Hc) in Hacc.
      apply Forall_cons in Hacc as [Hok _].
      split; [reflexivity|]. split; [lia|]. eauto.
    + exfalso. destruct (stretch_two paragraph a b ltac:(lia)) as (c1 & c2 & rest & Hs).
      rewrite Hs in Hacc, Hdrive. apply Forall_cons in Hacc as [Hok _].
      rewrite (drive_backward d vs c1 c2 rest Hd Hok) in Hdrive. discriminate.
  - intros (<- & Hmin & c & Hc & Hok).
    pose proof (lookup_lt_Some _ _ _ Hc) as Hlt.
    rewrite (stretch_single paragraph a c Hc).
    split; [lia|]. split; [lia|].
    split; [constructor; [exact Hok|constructor]|].
    rewrite (drive_single vs d c Hok). reflexivity.
Qed.

Lemma backward_scan_reports_witness :
  exists results,
    find_palindromes_in_paragraph (U := pinned blank) (PyStr (lit "aa")) Rtl None 1
      = Ok results /\
    (reports results 0 1 <->
     0 = 1 /\ (1 <= 1)%Z /\
     exists c, lit "aa" !! 0 = Some c /\ clean (U := pinned blank) c None = Ok true).
Proof.
  eexists. split; [vm_compute; reflexivity|].
  apply (backward_scan_reports (pinned blank) Rtl None 1 (lit "aa")).
  - left. reflexivity.
  - vm_compute. reflexivity.
Defined.

(** X26. With the default alphabet the scanner returns a result for
    every string, whatever the topology and [min_length] are: no
    exception of the classifier leaves it. *)
Theorem scanner_returns_with_default_alphabet (U : Unicode) (d : Direction)
    (min_length : Z) (paragraph : list cp) :
  exists results,
    find_palindromes_in_paragraph (PyStr paragraph) d None min_length = Ok results.
Proof.
  unfold find_palindromes_in_paragraph.
  destruct (is_empty paragraph); [eexists; reflexivity|].
  destruct (collect_returns (check_sequence d None min_length)
              (valid_sequences_of paragraph None)) as [res ->]; [|eexists; reflexivity].
  intros [[start e] sequence] Hrun.
  pose proof (valid_sequences_ok None paragraph) as Hok.
  rewrite List.Forall_forall in Hok. destruct (Hok _ Hrun) as [_ Hlook].
  unfold check_sequence. apply collect_returns. intros i _.
  apply collect_returns. intros j _. unfold check_substring.
  destruct (_ <? min_length)%Z; [eexists; reflexivity|].
  destruct (drive _ _ _) as [[[p result] err] out].
  destruct result; [|eexists; reflexivity].
  destruct (String_Output_returns (firstn (j + 1 - i) (skipn i sequence)) true err d out
              false (StreamProcessor.skipped_diacritics p)
              (StreamProcessor.skipped_spaces p)) as [line ->]; [|eexists; reflexivity].
  apply Forall_take, Forall_drop, Forall_lookup. intros k c Hc.
  exists true. apply (Hlook k c Hc).
Qed.

(** X27. With a restricted alphabet the scanner can raise.  When the
    paragraph holds a character that the alphabet accepts but that is
    neither a letter nor a listed emoji, and [min_length] is at most
    one, the scan ends with [UnallowedCharacterError] for every
    topology: the engine accepts the character, and the renderer, which
    classifies with the default alphabet, raises on it. *)
Theorem scanner_raises_on_listed_symbol (U : Unicode) (d : Direction)
    (vs : option (list str)) (min_length : Z) (paragraph : list cp) (c : cp)
    (e0 : UnallowedCharacterError) :
  In c paragraph -> clean c vs = Ok true -> clean c None = Raise e0 ->
  (min_length <= 1)%Z ->
  exists e,
    find_palindromes_in_paragraph (PyStr paragraph) d vs min_length
      = Raise (ExnUnallowedCharacter e).
Proof.
  intros Hin Hok He Hmin.
  apply list_elem_of_In, list_elem_of_lookup_1 in Hin as [a Hc].
  unfold find_palindromes_in_paragraph.
  destruct (is_empty paragraph) eqn:Hempty.
  { exfalso. apply (blank_not_accepted vs paragraph a c Hempty Hc Hok). }
  destruct (collect _ _) as [res|e] eqn:Hres; [exfalso|eexists; reflexivity].
  pose proof (valid_sequences_cover vs paragraph a c Hc Hok) as Hcov.
  unfold covered in Hcov. apply List.Exists_exists in Hcov.
  destruct Hcov as ([[start e] sequence] & Hrun & Hpos).
  pose proof (valid_sequences_maximal vs paragraph) as Hmax.
  rewrite List.Forall_forall in Hmax. specialize (Hmax _ Hrun).
  destruct Hmax as (_ & H0 & Hend & _).
  pose proof (valid_sequences_ok vs paragraph) as Hrok.
  rewrite List.Forall_forall in Hrok. destruct (Hrok _ Hrun) as [_ Hlook].
  set (i := a - Z.to_nat start).
  assert (Hi : i < length sequence) by (unfold i; lia).
  destruct (lookup_lt_is_Some_2 sequence i Hi) as [c' Hc'].
  destruct (Hlook i c' Hc') as [Hp _].
  replace (Z.to_nat start + i) with a in Hp by (unfold i; lia).
  rewrite Hc in Hp. injection Hp as <-.
  destruct (collect_member _ _ _ _ Hres Hrun) as (y & Hy & _).
  unfold check_sequence in Hy.
  destruct (collect_member _ _ _ i Hy) as (y2 & Hy2 & _); [apply in_seq; lia|].
  destruct (collect_member _ _ _ i Hy2) as (y3 & Hy3 & _); [apply in_seq; lia|].
  rewrite (check_substring_single_raises vs start sequence i c d min_length e0
             Hc' Hok He Hmin) in Hy3.
  discriminate.
Qed.

Lemma scanner_raises_on_listed_symbol_witness :
  exists e,
    find_palindromes_in_paragraph (U := pinned blank) (PyStr (lit "a1")) Ltr
      (Some [lit "a"; lit "1"]) 1 = Raise (ExnUnallowedCharacter e).
Proof.
  apply (scanner_raises_on_listed_symbol (pinned blank) Ltr (Some [lit "a"; lit "1"]) 1
           (lit "a1") 49%N (Unallowed (lit "Unallowed character '1'"))).
  - right. left. reflexivity.
  - reflexivity.
  - reflexivity.
  - lia.
Defined.
